(** * camera.hpp: the cancellable, progress-reporting render loop

    A shallow embedding of [class camera] (src/inc/camera.hpp) and of the
    way src/main.cpp drives it.

    - [double] is IEEE binary64, i.e. Rocq's primitive [float].
    - [int] is [Z]; signed overflow is undefined in C++, so the arithmetic is
      exact wherever the program is defined, which is where the size of the
      buffer, the largest [int] of a call, is one ([int_sized]): what is
      stated about the calls that return or throw is stated there.  [/] and
      [%] on [int] are [Z.quot] and [Z.rem].
    - [float] is IEEE binary32: the Standard Library's specification of
      IEEE arithmetic ([SpecFloat]) at a mantissa of 24 bits.  The progress
      value is the only [float] of the worker.
    - The global pseudo-random generator behind [random_double] is an
      explicit state threaded through every call that draws from it.
    - [should_stop] is written by another thread and [steady_clock::now()]
      by the passing of time: both are oracles, indexed by the number of
      reads made so far.
    - The mutex only brackets the buffer accesses of the single worker and
      the [std::cout] diagnostics do not influence anything; neither is
      modelled in the camera.

    Of src/main.cpp, [App] has the members of [class RayTracerApp] and the
    functions that prepare, start, finish, display and export a render;
    [Text] has the text that the export writes; [Threads] has the worker
    and [update_texture] running side by side, where the mutex matters.
    The window, the widgets and OpenGL are not modelled. *)

From Stdlib Require Import ZArith Floats Lia Bool.
From Equations Require Import Equations.
From Stdlib Require String Ascii DecimalString DecimalZ DecimalPos.
From stdpp Require Import list.

Set Warnings "-inexact-float".
Local Open Scope Z_scope.

(** ** Numeric conversions between [int] and [double] *)

Module Num.

(** [double(z)]: exact for every 32-bit [int]. *)
Definition of_int (z : Z) : float :=
  if z <? 0 then PrimFloat.opp (PrimFloat.of_uint63 (Uint63.of_Z (- z)))
  else PrimFloat.of_uint63 (Uint63.of_Z z).

(** Truncation toward zero of a finite [double]; [None] for NaN and the
    infinities. *)
Definition trunc (x : float) : option Z :=
  match Prim2SF x with
  | S754_zero _ => Some 0
  | S754_finite s m e =>
      let mag := if 0 <=? e then Z.pos m * 2 ^ e else Z.pos m / 2 ^ (- e) in
      Some (if s then - mag else mag)
  | S754_infinity _ | S754_nan => None
  end.

(** The largest integer that is not above a finite [double]. *)
Definition floor (x : float) : option Z :=
  match Prim2SF x with
  | S754_zero _ => Some 0
  | S754_finite s m e =>
      let mantissa := if s then Z.neg m else Z.pos m in
      Some (if 0 <=? e then mantissa * 2 ^ e else mantissa / 2 ^ (- e))
  | S754_infinity _ | S754_nan => None
  end.

Definition INT_MIN : Z := - 2 ^ 31.
Definition INT_MAX : Z := 2 ^ 31 - 1.

(** [int(x)].  Outside the range of [int] the conversion is undefined in
    C++; the value of the x86-64 conversion instruction is used there. *)
Definition to_int (x : float) : Z :=
  match trunc x with
  | Some z => if (INT_MIN <=? z) && (z <=? INT_MAX) then z else INT_MIN
  | None => INT_MIN
  end.

(** [static_cast<unsigned char>(x)].  The render loop applies it to
    [256 * clamp(..)] only, which lies in [0, 256) unless it is NaN;
    outside that range the conversion is undefined in C++ and the low
    byte of [to_int] is used. *)
Definition to_uchar (x : float) : Z := Z.land (to_int x) 255.

(** [std::max(a, b)] on [double]: [(a < b) ? b : a]. *)
Definition fmax (a b : float) : float := if PrimFloat.ltb a b then b else a.

End Num.

(** ** [float]: IEEE binary32 *)

Module Binary32.

(** The bits of the mantissa, the implicit one included, and the exponent
    of the infinities. *)
Definition prec : Z := 24.
Definition emax : Z := 128.

(** [static_cast<float>(n)] for an [int] [n]: the nearest [float], ties
    to even. *)
Definition of_int (n : Z) : spec_float := binary_normalize prec emax n 0 false.

(** [a / b] on [float]. *)
Definition div (a b : spec_float) : spec_float := SFdiv prec emax a b.

(** [0.0f] and [1.0f]. *)
Definition zero : spec_float := S754_zero false.
Definition one : spec_float := S754_finite false 8388608 (-23).

(** [a < b] and [a <= b]. *)
Definition ltb (a b : spec_float) : bool := SFltb a b.
Definition leb (a b : spec_float) : bool := SFleb a b.

End Binary32.

(** ** vec3.hpp, ray.hpp, interval.hpp, color.hpp, rt.hpp *)

Module Vec3.
Local Open Scope float_scope.

(** Modelled from the spec: vec3.hpp is not among the sources.  "Vec3: point
    or direction or linear color; 3 floating components". *)
Record vec3 : Set := mk { x : float; y : float; z : float }.

(** Modelled from the spec: the operators of vec3.hpp ("3-component
    floating-point vectors used for points, directions, and linear-light
    colors; arithmetic"): [u + v], [u - v] and [-v]. *)
Definition add (u v : vec3) : vec3 := mk (x u + x v) (y u + y v) (z u + z v).
Definition sub (u v : vec3) : vec3 := mk (x u - x v) (y u - y v) (z u - z v).
Definition neg (v : vec3) : vec3 := mk (- x v) (- y v) (- z v).

(** Modelled from the spec: [u * v] of vec3.hpp, component by component
    ("attenuation * ray_color(scattered_ray, depth-1, scene)"). *)
Definition mul (u v : vec3) : vec3 := mk (x u * x v) (y u * y v) (z u * z v).

(** Modelled from the spec: [t * v] and [v * t] of vec3.hpp. *)
Definition scale (t : float) (v : vec3) : vec3 := mk (t * x v) (t * y v) (t * z v).

(** Modelled from the spec: [v / t] of vec3.hpp, the product with [1 / t]. *)
Definition div (v : vec3) (t : float) : vec3 := scale (1 / t) v.

(** Modelled from the spec: [dot] and [cross] of vec3.hpp ("dot/cross
    products"). *)
Definition dot (u v : vec3) : float := x u * x v + y u * y v + z u * z v.
Definition cross (u v : vec3) : vec3 :=
  mk (y u * z v - z u * y v) (z u * x v - x u * z v) (x u * y v - y u * x v).

(** Modelled from the spec: [length] and [unit_vector] of vec3.hpp
    ("normalization"). *)
Definition length_squared (v : vec3) : float := x v * x v + y v * y v + z v * z v.
Definition length (v : vec3) : float := PrimFloat.sqrt (length_squared v).
Definition unit_vector (v : vec3) : vec3 := div v (length v).

End Vec3.
Export Vec3(vec3).

Definition point3 : Set := vec3.
Definition color : Set := vec3.

(** Modelled from the spec: ray.hpp is not among the sources.  "Ray: origin
    (Vec3), direction (Vec3); direction need not be unit length". *)
Record ray : Set := mk_ray { origin : point3; direction : vec3 }.

(** Modelled from the spec: interval.hpp is not among the sources.
    "Interval: valid numeric range; min, max". *)
Record interval : Set := mk_interval { imin : float; imax : float }.

Module Rt.
Local Open Scope float_scope.

(** Modelled from the spec: rt.hpp is not among the sources ("vfov
    (vertical field of view in degrees)"): the constant [pi] and the
    conversion of degrees to radians. *)
Definition pi : float := 3.1415926535897932385.

Definition degrees_to_radians (degrees : float) : float := degrees * pi / 180.0.

(** Modelled from the spec: interval.hpp is not among the sources ("a
    closed numeric range with containment/clamp operations"). *)
Definition clamp (iv : interval) (x : float) : float :=
  if PrimFloat.ltb x (imin iv) then imin iv
  else if PrimFloat.ltb (imax iv) x then imax iv
  else x.

(** Modelled from the spec: color.hpp is not among the sources ("gamma
    correction ([sqrt] of each clamped linear channel)",
    "linear_to_gamma(0) == 0"). *)
Definition linear_to_gamma (linear_component : float) : float :=
  if PrimFloat.ltb 0 linear_component then PrimFloat.sqrt linear_component else 0.

End Rt.

(** ** hittable.hpp and material.hpp: the two interfaces *)

(** One universe for the scene's types (generator states, material handles,
    scenes). *)
Universe scene.

(** Modelled from the spec: hittable.hpp is not among the sources.
    "HitRecord: hit point, outward-corrected normal (unit length), material
    reference, parametric distance t, front-face flag".  [mat] is the shared
    handle of the material that was hit. *)
Record hit_record (M : Type@{scene}) : Type@{scene} := mk_hit_record {
  p : point3;
  normal : vec3;
  mat : M;
  t : float;
  front_face : bool
}.
Arguments mk_hit_record {M}.
Arguments p {M}.
Arguments normal {M}.
Arguments mat {M}.
Arguments t {M}.
Arguments front_face {M}.

(** The process-wide generator behind [random_double()] (rt.hpp) and
    [random_in_unit_disk()] (vec3.hpp), as a state of type [G]; neither
    header is among the sources, so the two draws are parameters. *)
Class RandomSource (G : Type@{scene}) : Type@{scene} := {
  random_double : G -> float * G;
  random_in_unit_disk : G -> vec3 * G
}.

(** [material::scatter(r_in, rec, attenuation, scattered)] of material.hpp
    (not among the sources), as a parameter: "scatter(incoming_ray,
    hit_record) -> optional (attenuation_color, outgoing_ray)".  [None] is
    the [false] return (the ray is absorbed); the materials draw random
    numbers. *)
Class Material (M G : Type@{scene}) : Type@{scene} := {
  scatter : M -> ray -> hit_record M -> G -> option (color * ray) * G
}.

(** [hittable::hit(r, ray_t, rec)] of hittable.hpp (not among the sources),
    as a parameter: "hit(ray, valid_t_interval) -> optional HitRecord, a pure
    query".  [None] is the [false] return. *)
Class Hittable (H M : Type@{scene}) : Type@{scene} := {
  hit : H -> ray -> interval -> option (hit_record M)
}.

(** ** class camera *)

(** The public configuration and the private geometry that [initialize]
    derives from it, in one object as in the source. *)
Record camera : Set := mk_camera {
  aspect_ratio : float;
  image_width : Z;
  samples_per_pixel : Z;
  max_depth : Z;
  vfov : float;
  lookfrom : point3;
  lookat : point3;
  vup : vec3;
  defocus_angle : float;
  focus_dist : float;
  enable_antialiasing : bool;
  enable_shadows : bool;
  enable_reflections : bool;
  enable_refractions : bool;
  image_height : Z;
  center : point3;
  pixel00_loc : point3;
  pixel_delta_u : vec3;
  pixel_delta_v : vec3;
  u : vec3;
  v : vec3;
  w : vec3;
  defocus_disk_u : vec3;
  defocus_disk_v : vec3
}.

Definition black : color := Vec3.mk 0 0 0.

Section Camera.

(** [G]: generator states; [M]: material handles; [H]: scenes. *)
Context {G M H : Type@{scene}}.
Context `{RandomSource G} `{Material M G} `{Hittable H M}.

(** [std::tan] of the C library. *)
Variable tan : float -> float.

(** [camera::initialize]. *)
Definition initialize (c : camera) : camera :=
  let image_height := Num.to_int (Num.of_int (image_width c) / aspect_ratio c)%float in
  let image_height := if image_height <? 1 then 1 else image_height in
  let center := lookfrom c in
  let theta := Rt.degrees_to_radians (vfov c) in
  let h := tan (theta / 2)%float in
  let viewport_height := (2 * h * focus_dist c)%float in
  let viewport_width :=
    (viewport_height * (Num.of_int (image_width c) / Num.of_int image_height))%float in
  let w := Vec3.unit_vector (Vec3.sub (lookfrom c) (lookat c)) in
  let u := Vec3.unit_vector (Vec3.cross (vup c) w) in
  let v := Vec3.cross w u in
  let viewport_u := Vec3.scale viewport_width u in
  let viewport_v := Vec3.scale viewport_height (Vec3.neg v) in
  let pixel_delta_u := Vec3.div viewport_u (Num.of_int (image_width c)) in
  let pixel_delta_v := Vec3.div viewport_v (Num.of_int image_height) in
  let viewport_upper_left :=
    Vec3.sub (Vec3.sub (Vec3.sub center (Vec3.scale (focus_dist c) w))
                       (Vec3.div viewport_u 2))
             (Vec3.div viewport_v 2) in
  let pixel00_loc :=
    Vec3.add viewport_upper_left
             (Vec3.scale 0.5 (Vec3.add pixel_delta_u pixel_delta_v)) in
  let defocus_radius :=
    (focus_dist c * tan (Rt.degrees_to_radians (defocus_angle c / 2)))%float in
  {| aspect_ratio := aspect_ratio c;
     image_width := image_width c;
     samples_per_pixel := samples_per_pixel c;
     max_depth := max_depth c;
     vfov := vfov c;
     lookfrom := lookfrom c;
     lookat := lookat c;
     vup := vup c;
     defocus_angle := defocus_angle c;
     focus_dist := focus_dist c;
     enable_antialiasing := enable_antialiasing c;
     enable_shadows := enable_shadows c;
     enable_reflections := enable_reflections c;
     enable_refractions := enable_refractions c;
     image_height := image_height;
     center := center;
     pixel00_loc := pixel00_loc;
     pixel_delta_u := pixel_delta_u;
     pixel_delta_v := pixel_delta_v;
     u := u;
     v := v;
     w := w;
     defocus_disk_u := Vec3.scale defocus_radius u;
     defocus_disk_v := Vec3.scale defocus_radius v |}.

(** [camera::sample_square].  C++ leaves the order of the two draws to the
    compiler; they are taken left to right here. *)
Definition sample_square (g : G) : vec3 * G :=
  let (a, g1) := random_double g in
  let (b, g2) := random_double g1 in
  (Vec3.mk (a - 0.5) (b - 0.5) 0, g2).

(** [camera::defocus_disk_sample]. *)
Definition defocus_disk_sample (c : camera) (g : G) : point3 * G :=
  let (p, g1) := random_in_unit_disk g in
  (Vec3.add (Vec3.add (center c) (Vec3.scale (Vec3.x p) (defocus_disk_u c)))
            (Vec3.scale (Vec3.y p) (defocus_disk_v c)), g1).

(** [camera::get_ray]. *)
Definition get_ray (c : camera) (i j : Z) (g : G) : ray * G :=
  let (offset, g1) :=
    if enable_antialiasing c then sample_square g else (Vec3.mk 0 0 0, g) in
  let pixel_sample :=
    Vec3.add (Vec3.add (pixel00_loc c)
                (Vec3.scale (Num.of_int i + Vec3.x offset) (pixel_delta_u c)))
             (Vec3.scale (Num.of_int j + Vec3.y offset) (pixel_delta_v c)) in
  let (ray_origin, g2) :=
    if PrimFloat.leb (defocus_angle c) 0 then (center c, g1)
    else defocus_disk_sample c g1 in
  let ray_direction := Vec3.sub pixel_sample ray_origin in
  (mk_ray ray_origin ray_direction, g2).

(** The sky: the last three lines of [ray_color]. *)
Definition background (r : ray) : color :=
  let unit_direction := Vec3.unit_vector (direction r) in
  let a := (0.5 * (Vec3.y unit_direction + 1.0))%float in
  Vec3.add (Vec3.scale (1.0 - a) (Vec3.mk 1.0 1.0 1.0))
           (Vec3.scale a (Vec3.mk 0.5 0.7 1.0)).

(** The non-recursive shading of a hit when neither reflections nor
    refractions are enabled. *)
Definition simplified_shading (attenuation : color) (rec : hit_record M) : color :=
  let light_dir := Vec3.unit_vector (Vec3.mk 1 1 1) in
  let light_intensity := Num.fmax 0.0 (Vec3.dot (normal rec) light_dir) in
  Vec3.scale (0.3 + 0.7 * light_intensity) attenuation.

(** [camera::ray_color].  The recursion is on the [int] depth itself: the
    only recursive call is made under [0 < depth], at [depth - 1]. *)
Equations? ray_color (c : camera) (world : H) (r : ray) (depth : Z) (g : G)
  : color * G by wf (Z.to_nat depth) lt :=
  ray_color c world r depth g with Z_le_gt_dec depth 0 => {
    | left _ := (black, g);
    | right _ :=
        match hit world r (mk_interval 0.001 infinity) with
        | Some rec =>
            if enable_shadows c then
              match scatter (mat rec) r rec g with
              | (Some (attenuation, scattered), g1) =>
                  if enable_reflections c || enable_refractions c then
                    let (deeper, g2) := ray_color c world scattered (depth - 1) g1 in
                    (Vec3.mul attenuation deeper, g2)
                  else (simplified_shading attenuation rec, g1)
              | (None, g1) => (black, g1)
              end
            else (black, g)
        | None => (background r, g)
        end }.
Proof. lia. Qed.

(** [ray_color] with a bound on its call stack: [fuel] is the number of
    nested activations that may be open at once, and [None] reports that
    the bound was reached. *)
Fixpoint ray_color_fuel (fuel : nat) (c : camera) (world : H) (r : ray)
  (depth : Z) (g : G) : option (color * G) :=
  match fuel with
  | O => None
  | S fuel' =>
      if depth <=? 0 then Some (black, g)
      else
        match hit world r (mk_interval 0.001 infinity) with
        | Some rec =>
            if enable_shadows c then
              match scatter (mat rec) r rec g with
              | (Some (attenuation, scattered), g1) =>
                  if enable_reflections c || enable_refractions c then
                    match ray_color_fuel fuel' c world scattered (depth - 1) g1 with
                    | Some (deeper, g2) => Some (Vec3.mul attenuation deeper, g2)
                    | None => None
                    end
                  else Some (simplified_shading attenuation rec, g1)
              | (None, g1) => Some (black, g1)
              end
            else Some (black, g)
        | None => Some (background r, g)
        end
  end.

(** *** What the worker shares with the other threads *)

(** The other threads and the clock, as seen by the worker: the value of
    the [n]-th [should_stop.load()] and of the [n]-th
    [steady_clock::now()] (in nanoseconds). *)
Record environment : Set := mk_environment {
  should_stop : nat -> bool;
  steady_clock_now : nat -> Z
}.

(** [std::chrono::milliseconds(100)], in nanoseconds. *)
Definition update_interval : Z := 100 * 1000000.

(** Where [should_stop] is read. *)
Inductive poll_site : Set :=
| AtRow (j : Z)
| AtPixel (j i : Z)
| AtSample (j i sample : Z)
| AfterSamples (j i : Z)
| AtExit.

(** Where [texture_needs_update] is set. *)
Inductive raise_site : Set :=
| AfterPixel
| RowEnd (j : Z).

(** What the worker does that another thread can see, or that the
    properties below speak about. *)
Inductive event : Set :=
| EvPoll (site : poll_site) (v : bool)
| EvSample (j i sample : Z) (sampled : color)
| EvPixel (j i : Z) (r_byte g_byte b_byte : Z)
| EvProgress (q : spec_float)
| EvNow (now : Z)
| EvRaise (site : raise_site).

(** The worker's state: the three shared cells, the generator, how many
    reads of the two oracles were made, the locals that live across
    iterations, and a log of the events so far, newest first.  The log is
    a record kept beside the program, which never reads it. *)
Record state : Type := mk_state {
  buffer : list Z;
  progress : spec_float;
  texture_needs_update : bool;
  rng : G;
  loads : nat;
  ticks : nat;
  completed_pixels : Z;
  pixels_since_update : Z;
  last_update_time : Z;
  log : list event
}.

(** [should_stop.load()]. *)
Definition load_should_stop (E : environment) (site : poll_site) (st : state)
  : bool * state :=
  let v := should_stop E (loads st) in
  (v, mk_state (buffer st) (progress st) (texture_needs_update st) (rng st)
        (S (loads st)) (ticks st) (completed_pixels st)
        (pixels_since_update st) (last_update_time st)
        (EvPoll site v :: log st)).

(** [std::chrono::steady_clock::now()]. *)
Definition clock_now (E : environment) (st : state) : Z * state :=
  let now := steady_clock_now E (ticks st) in
  (now, mk_state (buffer st) (progress st) (texture_needs_update st) (rng st)
          (loads st) (S (ticks st)) (completed_pixels st)
          (pixels_since_update st) (last_update_time st)
          (EvNow now :: log st)).

(** [ray r = get_ray(i, j); pixel_color += ray_color(r, max_depth, world);] *)
Definition take_sample (c : camera) (world : H) (i j sample : Z)
  (pixel_color : color) (st : state) : color * state :=
  let (r, g1) := get_ray c i j (rng st) in
  let (sampled, g2) := ray_color c world r (max_depth c) g1 in
  (Vec3.add pixel_color sampled,
   mk_state (buffer st) (progress st) (texture_needs_update st) g2
     (loads st) (ticks st) (completed_pixels st)
     (pixels_since_update st) (last_update_time st)
     (EvSample j i sample sampled :: log st)).

(** The three channel bytes of an accumulated pixel colour. *)
Definition pixel_bytes (pixel_color : color) (sample_count : Z) : Z * Z * Z :=
  let scale := (1.0 / Num.of_int sample_count)%float in
  let pixel_color := Vec3.scale scale pixel_color in
  let r_val := Rt.linear_to_gamma (Vec3.x pixel_color) in
  let g_val := Rt.linear_to_gamma (Vec3.y pixel_color) in
  let b_val := Rt.linear_to_gamma (Vec3.z pixel_color) in
  let intensity := mk_interval 0.000 0.999 in
  (Num.to_uchar (256 * Rt.clamp intensity r_val),
   Num.to_uchar (256 * Rt.clamp intensity g_val),
   Num.to_uchar (256 * Rt.clamp intensity b_val)).

(** The same bytes as the specification words them, for comparison with
    [pixel_bytes]: "the sum of the sampled colors divided by
    [sample_count]", channel by channel. *)
Definition pixel_bytes_by_division (pixel_color : color) (sample_count : Z)
  : Z * Z * Z :=
  let average := fun sum : float => (sum / Num.of_int sample_count)%float in
  let intensity := mk_interval 0.000 0.999 in
  let byte := fun sum : float =>
    Num.to_uchar (256 * Rt.clamp intensity (Rt.linear_to_gamma (average sum))) in
  (byte (Vec3.x pixel_color), byte (Vec3.y pixel_color), byte (Vec3.z pixel_color)).

(** [buffer[idx] = r_byte; buffer[idx + 1] = g_byte; buffer[idx + 2] = b_byte;]
    with [idx = (j * image_width + i) * 3]. *)
Definition store_pixel (c : camera) (i j : Z) (bytes : Z * Z * Z) (st : state)
  : state :=
  let '(r_byte, g_byte, b_byte) := bytes in
  let idx := (j * image_width c + i) * 3 in
  mk_state
    (<[Z.to_nat (idx + 2) := b_byte]>
       (<[Z.to_nat (idx + 1) := g_byte]>
          (<[Z.to_nat idx := r_byte]> (buffer st))))
    (progress st) (texture_needs_update st) (rng st)
    (loads st) (ticks st) (completed_pixels st)
    (pixels_since_update st) (last_update_time st)
    (EvPixel j i r_byte g_byte b_byte :: log st).

(** [completed_pixels++; pixels_since_update++;] *)
Definition count_pixel (st : state) : state :=
  mk_state (buffer st) (progress st) (texture_needs_update st) (rng st)
    (loads st) (ticks st) (completed_pixels st + 1)
    (pixels_since_update st + 1) (last_update_time st) (log st).

(** [static_cast<float>(a) / b] for two [int]: the usual arithmetic
    conversions make a [float] of [b] too, and the quotient is a [float]. *)
Definition float_div (a b : Z) : spec_float :=
  Binary32.div (Binary32.of_int a) (Binary32.of_int b).

(** [progress.store(current_progress)]. *)
Definition store_progress (current_progress : spec_float) (st : state) : state :=
  mk_state (buffer st) current_progress (texture_needs_update st) (rng st)
    (loads st) (ticks st) (completed_pixels st)
    (pixels_since_update st) (last_update_time st)
    (EvProgress current_progress :: log st).

(** [texture_needs_update.store(true)]. *)
Definition raise_update (site : raise_site) (st : state) : state :=
  mk_state (buffer st) (progress st) true (rng st)
    (loads st) (ticks st) (completed_pixels st)
    (pixels_since_update st) (last_update_time st)
    (EvRaise site :: log st).

(** [pixels_since_update = 0; last_update_time = now;] *)
Definition reset_throttle (now : Z) (st : state) : state :=
  mk_state (buffer st) (progress st) (texture_needs_update st) (rng st)
    (loads st) (ticks st) (completed_pixels st) 0 now (log st).

Definition total_pixels (c : camera) : Z := image_width c * image_height c.

Definition update_frequency (c : camera) : Z :=
  Z.max 1 (Z.quot (total_pixels c) 100).

Definition sample_count (c : camera) : Z :=
  if enable_antialiasing c then samples_per_pixel c else 1.

(** The innermost loop (lines 65-69):
    [for (sample = 0; sample < sample_count && !should_stop.load(); sample++)].
    [fuel] bounds the number of tests of the loop condition; the loop is
    entered with one more than the iterations it can make, here and in the
    two loops around it. *)
Fixpoint sample_loop (fuel : nat) (E : environment) (c : camera) (world : H)
  (i j sample : Z) (pixel_color : color) (st : state) : color * state :=
  match fuel with
  | O => (pixel_color, st)
  | S fuel' =>
      if sample <? sample_count c then
        let (stop, st1) := load_should_stop E (AtSample j i sample) st in
        if stop then (pixel_color, st1)
        else
          let (pixel_color, st2) := take_sample c world i j sample pixel_color st1 in
          sample_loop fuel' E c world i j (sample + 1) pixel_color st2
      else (pixel_color, st)
  end.

(** What follows a completed pixel (lines 98-124): the counters, the
    progress value and the throttled request for a texture update. *)
Definition after_pixel (E : environment) (c : camera) (st : state) : state :=
  let st := count_pixel st in
  let current_progress := float_div (completed_pixels st) (total_pixels c) in
  let st := store_progress current_progress st in
  let (now, st) := clock_now E st in
  let time_for_update := update_interval <=? now - last_update_time st in
  let enough_pixels := update_frequency c <=? pixels_since_update st in
  if time_for_update || enough_pixels || (completed_pixels st =? total_pixels c)
  then reset_throttle now (raise_update AfterPixel st)
  else st.

(** The body of the pixel loop (lines 61-124); the boolean is [true] when
    the body left through [break]. *)
Definition pixel_body (E : environment) (c : camera) (world : H) (i j : Z)
  (st : state) : bool * state :=
  let (pixel_color, st1) :=
    sample_loop (S (Z.to_nat (sample_count c))) E c world i j 0 black st in
  let (stop, st2) := load_should_stop E (AfterSamples j i) st1 in
  if stop then (true, st2)
  else
    let st3 := store_pixel c i j (pixel_bytes pixel_color (sample_count c)) st2 in
    (false, after_pixel E c st3).

(** The pixel loop (line 60):
    [for (i = 0; i < image_width && !should_stop.load(); i++)]. *)
Fixpoint pixel_loop (fuel : nat) (E : environment) (c : camera) (world : H)
  (i j : Z) (st : state) : state :=
  match fuel with
  | O => st
  | S fuel' =>
      if i <? image_width c then
        let (stop, st1) := load_should_stop E (AtPixel j i) st in
        if stop then st1
        else
          let (broke, st2) := pixel_body E c world i j st1 in
          if broke then st2
          else pixel_loop fuel' E c world (i + 1) j st2
      else st
  end.

(** The end of a row (lines 127-130). *)
Definition row_end (c : camera) (j : Z) (st : state) : state :=
  if Z.rem j (Z.max 1 (Z.quot (image_height c) 20)) =? 0
  then raise_update (RowEnd j) st
  else st.

(** The row loop (line 59):
    [for (j = 0; j < image_height && !should_stop.load(); j++)]. *)
Fixpoint row_loop (fuel : nat) (E : environment) (c : camera) (world : H)
  (j : Z) (st : state) : state :=
  match fuel with
  | O => st
  | S fuel' =>
      if j <? image_height c then
        let (stop, st1) := load_should_stop E (AtRow j) st in
        if stop then st1
        else
          let st2 := pixel_loop (S (Z.to_nat (image_width c))) E c world 0 j st1 in
          row_loop fuel' E c world (j + 1) (row_end c j st2)
      else st
  end.

(** [buffer.resize(n)] followed by [std::fill(.., 0)]. *)
Definition resize (n : nat) (l : list Z) : list Z :=
  take n l ++ replicate (n - length l) 0.

Definition fill (l : list Z) (value : Z) : list Z := replicate (length l) value.

(** The sizes, counters and indices of a call are [int]s, the largest of
    them the size [image_width * image_height * 3] of the buffer.  Signed
    overflow is undefined in C++: what follows is the call when that
    product is an [int], and says nothing of the call when it is not. *)
Definition int_sized (c : camera) : Prop :=
  Num.INT_MIN <= image_width c * image_height c * 3 <= Num.INT_MAX.

(** How a call ends: [buffer.resize] throws [std::length_error] when the
    [int] size it is given is negative (it arrives as a huge [size_t]). *)
Inductive outcome : Type :=
| Threw
| Returned (c : camera) (st : state).

(** Lines 39-54: the buffer is sized and cleared, the counters are zeroed
    and the clock is read for the first time. *)
Definition before_loops (E : environment) (size : nat) (buffer0 : list Z)
  (progress0 : spec_float) (texture0 : bool) (g0 : G) : state :=
  let buffer := fill (resize size buffer0) 0 in
  let st := mk_state buffer progress0 texture0 g0 0 0 0 0 0 [] in
  let (last_update_time, st) := clock_now E st in
  reset_throttle last_update_time st.

(** [camera::render_to_buffer_with_progress].  The arguments passed by
    reference come in with their contents at the call ([buffer0],
    [progress0], [texture0]); [g0] is the state of the generator.  The
    last read of the flag is the one of line 133, which only chooses the
    message printed. *)
Definition render_to_buffer_with_progress (E : environment) (c : camera)
  (world : H) (buffer0 : list Z) (progress0 : spec_float) (texture0 : bool) (g0 : G)
  : outcome :=
  let c := initialize c in
  let size := image_width c * image_height c * 3 in
  if size <? 0 then Threw
  else
    let st := before_loops E (Z.to_nat size) buffer0 progress0 texture0 g0 in
    let st := row_loop (S (Z.to_nat (image_height c))) E c world 0 st in
    let st := snd (load_should_stop E AtExit st) in
    Returned c st.

(** A [std::atomic<bool>] that no other thread can reach. *)
Definition never_stop : nat -> bool := fun _ => false.


(** *** The image as a function of camera, scene and generator *)

(** The colour accumulated by [n] further samples of pixel (i, j). *)
Fixpoint sample_sum (n : nat) (c : camera) (world : H) (i j : Z)
  (pixel_color : color) (g : G) : color * G :=
  match n with
  | O => (pixel_color, g)
  | S n' =>
      let (r, g1) := get_ray c i j g in
      let (sampled, g2) := ray_color c world r (max_depth c) g1 in
      sample_sum n' c world i j (Vec3.add pixel_color sampled) g2
  end.

(** The bytes of pixel (i, j) when its sampling starts from generator [g]. *)
Definition render_pixel (c : camera) (world : H) (i j : Z) (g : G)
  : (Z * Z * Z) * G :=
  let (pixel_color, g') :=
    sample_sum (Z.to_nat (sample_count c)) c world i j black g in
  (pixel_bytes pixel_color (sample_count c), g').

(** The bytes of the first [n] pixels in row-major order, and the
    generator they leave behind. *)
Fixpoint frame (n : nat) (c : camera) (world : H) (g0 : G) : list Z * G :=
  match n with
  | O => ([], g0)
  | S n' =>
      let (done, g) := frame n' c world g0 in
      let k := Z.of_nat n' in
      let '((r_byte, g_byte, b_byte), g') :=
        render_pixel c world (k mod image_width c) (k / image_width c) g in
      (done ++ [r_byte; g_byte; b_byte], g')
  end.

(** The buffer once the first [n] pixels are written: the rest is still
    cleared. *)
Definition partial_image (n : nat) (c : camera) (world : H) (g0 : G) : list Z :=
  fst (frame n c world g0)
  ++ replicate (3 * (Z.to_nat (total_pixels c) - n)) 0.

(** *** Reading the log (newest event first) *)

(** Pixels written. *)
Fixpoint pixels_done (l : list event) : Z :=
  match l with
  | [] => 0
  | EvPixel _ _ _ _ _ :: l' => pixels_done l' + 1
  | _ :: l' => pixels_done l'
  end.

(** Reads of [should_stop] and of the clock. *)
Fixpoint polls (l : list event) : nat :=
  match l with
  | [] => O
  | EvPoll _ _ :: l' => S (polls l')
  | _ :: l' => polls l'
  end.

Fixpoint clock_reads (l : list event) : nat :=
  match l with
  | [] => O
  | EvNow _ :: l' => S (clock_reads l')
  | _ :: l' => clock_reads l'
  end.

(** The latest clock reading. *)
Fixpoint last_reading (l : list event) : Z :=
  match l with
  | [] => 0
  | EvNow now :: _ => now
  | _ :: l' => last_reading l'
  end.

(** Pixels written since the latest after-pixel raise (or since the start). *)
Fixpoint pixels_since_raise (l : list event) : Z :=
  match l with
  | [] => 0
  | EvRaise AfterPixel :: _ => 0
  | EvPixel _ _ _ _ _ :: l' => pixels_since_raise l' + 1
  | _ :: l' => pixels_since_raise l'
  end.

(** The clock reading that was current at the latest after-pixel raise, or
    the first reading of the call when there was none. *)
Fixpoint throttle_time (l : list event) : Z :=
  match l with
  | [] => 0
  | EvRaise AfterPixel :: l' => last_reading l'
  | [EvNow now] => now
  | _ :: l' => throttle_time l'
  end.

(** Pixels written since the latest raise of any kind, and the reading
    that was current at it. *)
Fixpoint pixels_since_any_raise (l : list event) : Z :=
  match l with
  | [] => 0
  | EvRaise _ :: _ => 0
  | EvPixel _ _ _ _ _ :: l' => pixels_since_any_raise l' + 1
  | _ :: l' => pixels_since_any_raise l'
  end.

Fixpoint reading_at_any_raise (l : list event) : Z :=
  match l with
  | [] => 0
  | EvRaise _ :: l' => last_reading l'
  | [EvNow now] => now
  | _ :: l' => reading_at_any_raise l'
  end.

(** The progress values stored, newest first. *)
Fixpoint progress_stores (l : list event) : list spec_float :=
  match l with
  | [] => []
  | EvProgress q :: l' => q :: progress_stores l'
  | _ :: l' => progress_stores l'
  end.

(** The colour accumulated from the samples taken for pixel (i, j), added
    in the order they were taken. *)
Fixpoint sampled_sum (j i : Z) (l : list event) : color :=
  match l with
  | [] => black
  | EvSample j' i' _ sampled :: l' =>
      if (j' =? j) && (i' =? i) then Vec3.add (sampled_sum j i l') sampled
      else sampled_sum j i l'
  | _ :: l' => sampled_sum j i l'
  end.

(** The buffer that the writes of a log leave: cleared, then written pixel
    by pixel in the order of the log. *)
Fixpoint paint (c : camera) (l : list event) : list Z :=
  match l with
  | [] => replicate (Z.to_nat (image_width c * image_height c * 3)) 0
  | EvPixel j i r_byte g_byte b_byte :: l' =>
      let idx := (j * image_width c + i) * 3 in
      <[Z.to_nat (idx + 2) := b_byte]>
        (<[Z.to_nat (idx + 1) := g_byte]>
           (<[Z.to_nat idx := r_byte]> (paint c l')))
  | _ :: l' => paint c l'
  end.

(** A sample or a write that belongs to a pixel before (i, j) in row-major
    order; and the same of writes only. *)
Definition behind (j i : Z) (e : event) : Prop :=
  match e with
  | EvSample j' i' _ _ | EvPixel j' i' _ _ _ => j' < j \/ (j' = j /\ i' < i)
  | _ => True
  end.

Definition pixel_behind (j i : Z) (e : event) : Prop :=
  match e with
  | EvPixel j' i' _ _ _ => j' < j \/ (j' = j /\ i' < i)
  | _ => True
  end.

Definition is_pixel (e : event) : bool :=
  match e with EvPixel _ _ _ _ _ => true | _ => false end.

Definition in_loop (site : poll_site) : bool :=
  match site with AtExit => false | _ => true end.

(** Events of the loops: all of them but the read of the flag after the
    loops (line 133). *)
Definition loop_event (e : event) : Prop :=
  match e with
  | EvPoll AtExit _ => False
  | _ => True
  end.

(** [l'] is [l] with further events of the loops on top. *)
Definition grows (l l' : list event) : Prop :=
  exists newer : list event, l' = newer ++ l /\ Forall loop_event newer.

(** No poll has found the flag set. *)
Definition live (l : list event) : Prop :=
  forall site, ~ In (EvPoll site true) l.

(** The flag was found set by one of the polls of the loops. *)
Definition cancelled (l : list event) : Prop :=
  exists site, in_loop site = true /\ In (EvPoll site true) l.

(** [should_stop] is only ever set during a render (main.cpp stores [false]
    into it only between renders, after joining the worker). *)
Definition set_once (E : environment) : Prop :=
  forall m n : nat, (m <= n)%nat -> should_stop E m = true -> should_stop E n = true.

End Camera.

(** ** What every log of a render satisfies *)

Section Invariants.

Context {G : Type@{scene}}.

Variable E : environment.
Variable c : camera.
(** The value of [progress] when the call started. *)
Variable progress0 : spec_float.

(** What must hold of an event, given the log [before] it. *)
Definition ok_event (before : list event) (e : event) : Prop :=
  match e with
  | EvPoll site v =>
      v = should_stop E (polls before) /\
      match site with
      | AtRow j => True
      | AtPixel j i => In (EvPoll (AtRow j) false) before
      | AtSample j i sample => In (EvPoll (AtPixel j i) false) before
      | AfterSamples j i => In (EvPoll (AtPixel j i) false) before
      | AtExit => True
      end
  | EvSample j i sample _ =>
      head before = Some (EvPoll (AtSample j i sample) false) /\
      Forall (pixel_behind j i) before
  | EvPixel j i r_byte g_byte b_byte =>
      head before = Some (EvPoll (AfterSamples j i) false) /\
      0 <= i < image_width c /\ 0 <= j < image_height c /\
      (r_byte, g_byte, b_byte)
      = pixel_bytes (sampled_sum j i before) (sample_count c) /\
      Forall (pixel_behind j i) before
  | EvProgress q =>
      q = float_div (pixels_done before) (total_pixels c) /\
      exists j i r_byte g_byte b_byte,
        head before = Some (EvPixel j i r_byte g_byte b_byte)
  | EvNow now => now = steady_clock_now E (clock_reads before)
  | EvRaise AfterPixel =>
      update_interval <= last_reading before - throttle_time before \/
      update_frequency c <= pixels_since_raise before \/
      pixels_done before = total_pixels c
  | EvRaise (RowEnd j) =>
      Z.rem j (Z.max 1 (Z.quot (image_height c) 20)) = 0
  end.

Fixpoint wf_log (l : list event) : Prop :=
  match l with
  | [] => True
  | e :: before => ok_event before e /\ wf_log before
  end.

(** The progress values after [n] pixels, newest first:
    [n / total, ..., 2 / total, 1 / total]. *)
Fixpoint countdown (n : nat) : list spec_float :=
  match n with
  | O => []
  | S n' => float_div (Z.of_nat n) (total_pixels c) :: countdown n'
  end.

(** The bookkeeping of the worker agrees with its log. *)
Record consistent (st : @state G) : Prop := mk_consistent {
  log_wf : wf_log (log st);
  log_started : log st <> [];
  buffer_log : buffer st = paint c (log st);
  loads_log : loads st = polls (log st);
  ticks_log : ticks st = clock_reads (log st);
  completed_log : completed_pixels st = pixels_done (log st);
  since_log : pixels_since_update st = pixels_since_raise (log st);
  throttle_log : last_update_time st = throttle_time (log st);
  stores_log : progress_stores (log st) = countdown (Z.to_nat (pixels_done (log st)));
  progress_log : progress st = hd progress0 (progress_stores (log st))
}.

(** Some poll made so far found the flag set. *)
Definition stopped (st : @state G) : Prop :=
  exists m : nat, (m < loads st)%nat /\ should_stop E m = true.

End Invariants.

(** ** What every buffer of a render holds *)

Section Painting.

Context {G M H : Type@{scene}}.
Context `{RandomSource G} `{Material M G} `{Hittable H M}.

Variable E : environment.
Variable c : camera.
Variable world : H.
(** The generator when the call started. *)
Variable g0 : G.

(** The buffer holds the first [completed_pixels] pixels of the image and
    is cleared beyond them; a worker that has seen the flag set has left
    some pixel unwritten (or had none to write). *)
Record painted (st : @state G) : Prop := mk_painted {
  painted_buffer :
    exists n : nat,
      completed_pixels st = Z.of_nat n /\
      (n <= Z.to_nat (total_pixels c))%nat /\
      buffer st = partial_image n c world g0;
  painted_stopped :
    stopped E st ->
    completed_pixels st < total_pixels c \/ completed_pixels st = 0
}.

(** Whether a material scatters, and with which attenuation, does not
    depend on the generator (only the scattered ray does): so it is for the
    diffuse material, which "always scatters" with "attenuation = the
    material's albedo". *)
Definition steady_materials : Prop :=
  forall (m : M) (r : ray) (rec : hit_record M) (g g' : G),
    option_map fst (fst (scatter m r rec g))
    = option_map fst (fst (scatter m r rec g')).

(** The worker is about to start pixel (i, j): no poll found the flag set,
    all pixels before (i, j) are written and the generator is the one they
    left behind. *)
Definition at_pixel (st : @state G) (i j : Z) : Prop :=
  ~ stopped E st /\
  completed_pixels st = j * image_width c + i /\
  rng st = snd (frame (Z.to_nat (j * image_width c + i)) c world g0).

End Painting.

(** ** More to read off a log *)

Definition is_raise (e : event) : bool :=
  match e with EvRaise _ => true | _ => false end.

(** Some raise of the update flag is logged. *)
Definition raised (l : list event) : bool := existsb is_raise l.

(** At no moment of the log were more than [n] pixels written since the
    latest after-pixel raise. *)
Fixpoint gaps_bounded (n : Z) (l : list event) : Prop :=
  match l with
  | [] => True
  | e :: before => pixels_since_raise (e :: before) <= n /\ gaps_bounded n before
  end.

(** What the worker still does once a poll has found the flag set: it
    reads the flag again, and it passes the end of the row. *)
Definition winding_down (e : event) : Prop :=
  match e with
  | EvPoll _ true | EvRaise (RowEnd _) => True
  | _ => False
  end.

(** Inside a row the worker reads the flag for the pixels and the samples:
    what a row adds to the log holds no poll at a row start. *)
Definition inner (e : event) : Prop :=
  match e with
  | EvPoll (AtRow _) _ => False
  | _ => True
  end.

(** Every row the worker entered (the poll at its start found the flag
    clear) whose index passes the test of line 128 has raised the update
    flag at its end. *)
Definition rows_raised (c : camera) (l : list event) : Prop :=
  forall j : Z,
    In (EvPoll (AtRow j) false) l ->
    Z.rem j (Z.max 1 (Z.quot (image_height c) 20)) = 0 ->
    In (EvRaise (RowEnd j)) l.

(** The first poll that found the flag set is followed by at most [k]
    reads of the flag and [r] other events, all of the kind above. *)
Definition halted (k r : nat) (l : list event) : Prop :=
  exists (after : list event) (site : poll_site) (before : list event),
    l = after ++ EvPoll site true :: before /\ live before /\
    Forall winding_down after /\
    (polls after <= k)%nat /\ (length after <= k + r)%nat.

Section Observers.

Context {G : Type@{scene}}.

(** The update flag and the throttle counter agree with the log, and the
    counter stays below the update frequency between two pixels. *)
Record refreshing (c : camera) (texture0 : bool) (st : @state G) : Prop := mk_refreshing {
  flag_log : texture_needs_update st = texture0 || raised (log st);
  pending_log : pixels_since_update st = pixels_since_raise (log st);
  pending_bound : 0 <= pixels_since_update st < update_frequency c;
  gaps_log : gaps_bounded (update_frequency c) (log st)
}.

(** The polls of the log that found the flag set are the reads of the
    oracle that did. *)
Definition agree (E : environment) (st : @state G) : Prop :=
  stopped E st <-> exists site : poll_site, In (EvPoll site true) (log st).

(** The log only ever gets longer. *)
Definition extends (st st' : @state G) : Prop :=
  exists newer : list event, log st' = newer ++ log st.

(** The same, by events of one row. *)
Definition extends_inside (st st' : @state G) : Prop :=
  exists newer : list event, log st' = newer ++ log st /\ Forall inner newer.

End Observers.

(** ** main.cpp: what [export_ppm] writes *)

Module Text.

Import Stdlib.Strings.Ascii Stdlib.Strings.String.
Local Open Scope string_scope.

(** [file << n] for an [int]: its decimal digits, after a minus sign when
    it is negative. *)
Definition dec (n : Z) : string := DecimalString.NilZero.string_of_int (Z.to_int n).

(** ["\n"]. *)
Definition newline : string := String "010"%char EmptyString.

(** [file << "P3\n" << width << " " << height << "\n255\n"]. *)
Definition header (width height : Z) : string :=
  "P3" ++ newline ++ dec width ++ " " ++ dec height ++ newline ++ "255" ++ newline.

(** [file << r << " " << g << " " << b << "\n"]. *)
Definition pixel_line (r g b : Z) : string :=
  dec r ++ " " ++ dec g ++ " " ++ dec b ++ newline.

(** The lines of the samples [l], three to a line. *)
Fixpoint lines_of (l : list Z) : string :=
  match l with
  | r :: g :: b :: l' => pixel_line r g b ++ lines_of l'
  | _ => ""
  end.

(** A reader of plain PPM text, to read back what was written: the tokens
    between blanks and line ends are the magic number [P3], the width, the
    height, the maximal value and the samples, in decimal. *)
Definition blank (a : ascii) : bool := (a =? " ")%char || (a =? "010")%char.

Fixpoint split (s word : string) : list string :=
  match s with
  | EmptyString => match word with EmptyString => [] | _ => [word] end
  | String a s' =>
      if blank a then
        match word with
        | EmptyString => split s' EmptyString
        | _ => word :: split s' EmptyString
        end
      else split s' (word ++ String a EmptyString)
  end.

Definition words (s : string) : list string := split s EmptyString.

Definition read_int (s : string) : option Z :=
  option_map Z.of_int (DecimalString.NilZero.int_of_string s).

Definition read_ppm (s : string) : option (Z * Z * Z * list Z) :=
  match words s with
  | magic :: width :: height :: maxval :: samples =>
      if (magic =? "P3")%string then
        match read_int width, read_int height, read_int maxval, mapM read_int samples with
        | Some w, Some h, Some m, Some l => Some (w, h, m, l)
        | _, _, _, _ => None
        end
      else None
  | _ => None
  end.

(** No blank in it. *)
Fixpoint solid (s : string) : bool :=
  match s with
  | EmptyString => true
  | String a s' => negb (blank a) && solid s'
  end.

End Text.

(** ** main.cpp: the application around the camera *)

Module App.

(** The update flag as the worker's state has it; the application has a
    member of the same name. *)
Local Abbreviation raised_by_worker := texture_needs_update.

(** Lines 234-243 of [setup_camera]: the assignments to the public members
    of [cam]; the four toggles and the derived geometry stay as they are. *)
Definition assign (cam : camera) (image_width samples_per_pixel max_depth : Z)
  (camera_fov : float) (camera_pos camera_target : float * float * float)
  (defocus_angle focus_distance : float) : camera :=
  {| aspect_ratio := 16.0 / 9.0;
     image_width := image_width;
     samples_per_pixel := samples_per_pixel;
     max_depth := max_depth;
     vfov := camera_fov;
     lookfrom := (let '(x, y, z) := camera_pos in Vec3.mk x y z);
     lookat := (let '(x, y, z) := camera_target in Vec3.mk x y z);
     vup := Vec3.mk 0 1 0;
     defocus_angle := defocus_angle;
     focus_dist := focus_distance;
     enable_antialiasing := enable_antialiasing cam;
     enable_shadows := enable_shadows cam;
     enable_reflections := enable_reflections cam;
     enable_refractions := enable_refractions cam;
     image_height := image_height cam;
     center := center cam;
     pixel00_loc := pixel00_loc cam;
     pixel_delta_u := pixel_delta_u cam;
     pixel_delta_v := pixel_delta_v cam;
     u := u cam;
     v := v cam;
     w := w cam;
     defocus_disk_u := defocus_disk_u cam;
     defocus_disk_v := defocus_disk_v cam |}.

(** The members of [class RayTracerApp] that the functions below read or
    write.  The parameters of the control panel are binary32 values in the
    source; each is a binary64 value, and it is as such that the camera
    receives them.  [render_thread] tells whether the thread object is
    joinable.  [texture] is what the buffer held when it was last handed
    to [glTexImage2D] or [glTexSubImage2D]; what OpenGL does with it is not
    modelled, nor are the window, the widgets and the two timing members. *)
Record app : Type := mk_app {
  cam : camera;
  image_buffer : list Z;
  is_rendering : bool;
  should_stop_render : bool;
  texture_needs_update : bool;
  render_thread : bool;
  current_image_width : Z;
  current_image_height : Z;
  render_progress : spec_float;
  camera_pos : float * float * float;
  camera_target : float * float * float;
  camera_fov : float;
  focus_distance : float;
  defocus_angle : float;
  image_width : Z;
  samples_per_pixel : Z;
  max_depth : Z;
  texture : list Z
}.

Definition set_cam (c : camera) (a : app) : app :=
  mk_app c (image_buffer a) (is_rendering a) (should_stop_render a)
    (texture_needs_update a) (render_thread a) (current_image_width a)
    (current_image_height a) (render_progress a) (camera_pos a) (camera_target a)
    (camera_fov a) (focus_distance a) (defocus_angle a) (image_width a)
    (samples_per_pixel a) (max_depth a) (texture a).

Definition set_image_buffer (buffer : list Z) (a : app) : app :=
  mk_app (cam a) buffer (is_rendering a) (should_stop_render a)
    (texture_needs_update a) (render_thread a) (current_image_width a)
    (current_image_height a) (render_progress a) (camera_pos a) (camera_target a)
    (camera_fov a) (focus_distance a) (defocus_angle a) (image_width a)
    (samples_per_pixel a) (max_depth a) (texture a).

Definition set_is_rendering (value : bool) (a : app) : app :=
  mk_app (cam a) (image_buffer a) value (should_stop_render a)
    (texture_needs_update a) (render_thread a) (current_image_width a)
    (current_image_height a) (render_progress a) (camera_pos a) (camera_target a)
    (camera_fov a) (focus_distance a) (defocus_angle a) (image_width a)
    (samples_per_pixel a) (max_depth a) (texture a).

Definition set_should_stop_render (value : bool) (a : app) : app :=
  mk_app (cam a) (image_buffer a) (is_rendering a) value
    (texture_needs_update a) (render_thread a) (current_image_width a)
    (current_image_height a) (render_progress a) (camera_pos a) (camera_target a)
    (camera_fov a) (focus_distance a) (defocus_angle a) (image_width a)
    (samples_per_pixel a) (max_depth a) (texture a).

Definition set_texture_needs_update (value : bool) (a : app) : app :=
  mk_app (cam a) (image_buffer a) (is_rendering a) (should_stop_render a)
    value (render_thread a) (current_image_width a)
    (current_image_height a) (render_progress a) (camera_pos a) (camera_target a)
    (camera_fov a) (focus_distance a) (defocus_angle a) (image_width a)
    (samples_per_pixel a) (max_depth a) (texture a).

Definition set_render_thread (joinable : bool) (a : app) : app :=
  mk_app (cam a) (image_buffer a) (is_rendering a) (should_stop_render a)
    (texture_needs_update a) joinable (current_image_width a)
    (current_image_height a) (render_progress a) (camera_pos a) (camera_target a)
    (camera_fov a) (focus_distance a) (defocus_angle a) (image_width a)
    (samples_per_pixel a) (max_depth a) (texture a).

Definition set_current_image (width height : Z) (a : app) : app :=
  mk_app (cam a) (image_buffer a) (is_rendering a) (should_stop_render a)
    (texture_needs_update a) (render_thread a) width height
    (render_progress a) (camera_pos a) (camera_target a)
    (camera_fov a) (focus_distance a) (defocus_angle a) (image_width a)
    (samples_per_pixel a) (max_depth a) (texture a).

Definition set_render_progress (value : spec_float) (a : app) : app :=
  mk_app (cam a) (image_buffer a) (is_rendering a) (should_stop_render a)
    (texture_needs_update a) (render_thread a) (current_image_width a)
    (current_image_height a) value (camera_pos a) (camera_target a)
    (camera_fov a) (focus_distance a) (defocus_angle a) (image_width a)
    (samples_per_pixel a) (max_depth a) (texture a).

Definition set_texture (data : list Z) (a : app) : app :=
  mk_app (cam a) (image_buffer a) (is_rendering a) (should_stop_render a)
    (texture_needs_update a) (render_thread a) (current_image_width a)
    (current_image_height a) (render_progress a) (camera_pos a) (camera_target a)
    (camera_fov a) (focus_distance a) (defocus_angle a) (image_width a)
    (samples_per_pixel a) (max_depth a) data.

(** [RayTracerApp::setup_camera]. *)
Definition setup_camera (a : app) : app :=
  let cam :=
    assign (cam a) (image_width a) (samples_per_pixel a) (max_depth a)
      (camera_fov a) (camera_pos a) (camera_target a) (defocus_angle a)
      (focus_distance a) in
  let new_height := Num.to_int (Num.of_int (image_width a) / aspect_ratio cam)%float in
  let new_height := if new_height <? 1 then 1 else new_height in
  set_current_image (image_width a) new_height (set_cam cam a).

(** The size [width * height * 3] of line 257 is a product of [int]s.
    Signed overflow is undefined in C++: [update_texture_size] below is the
    call when that product is an [int], and says nothing of the call when
    it is not. *)
Definition int_sized (a : app) : Prop :=
  Num.INT_MIN <= current_image_width a * current_image_height a * 3 <= Num.INT_MAX.

(** [RayTracerApp::update_texture_size]; [None] when
    [image_buffer.resize(n, 0)] throws [std::length_error], which it does
    when the [int] it is given is negative. *)
Definition update_texture_size (a : app) : option app :=
  let width := current_image_width a in
  let height := current_image_height a in
  if width * height * 3 <? 0 then None
  else
    let buffer := resize (Z.to_nat (width * height * 3)) (image_buffer a) in
    Some (set_texture buffer (set_image_buffer buffer a)).

(** [RayTracerApp::cleanup_render_thread].  [join] returns when the worker
    has ended; what the worker did until then is [render_thread_body]. *)
Definition cleanup_render_thread (a : app) : app :=
  if render_thread a then set_render_thread false (set_should_stop_render true a)
  else a.

(** [RayTracerApp::start_render], up to the creation of the thread; [None]
    when [update_texture_size] throws. *)
Definition start_render (a : app) : option app :=
  if is_rendering a then Some a
  else
    match update_texture_size (setup_camera a) with
    | None => None
    | Some a =>
        let a := cleanup_render_thread a in
        let a := set_should_stop_render false a in
        let a := set_is_rendering true a in
        let a := set_render_progress Binary32.zero a in
        let a := set_texture_needs_update false a in
        Some (set_render_thread true a)
    end.

(** [(size_t) n] for an [int] [n], [size_t] having 64 bits. *)
Definition to_size_t (n : Z) : Z := n mod 2 ^ 64.

(** The test of lines 313-314:
    [!image_buffer.empty() && image_buffer.size() >= (size_t)(width * height * 3)]. *)
Definition uploadable (a : app) : bool :=
  negb (bool_decide (image_buffer a = []))
  && (to_size_t (current_image_width a * current_image_height a * 3)
      <=? Z.of_nat (length (image_buffer a))).

(** [RayTracerApp::update_texture]. *)
Definition update_texture (a : app) : app :=
  if texture_needs_update a then
    if uploadable a
    then set_texture_needs_update false (set_texture (image_buffer a) a)
    else a
  else a.

(** How [export_ppm] ends.  Reading [image_buffer] past its end is
    undefined in C++; the model stops there. *)
Inductive exported : Set :=
| NoImage
| OpenFailed
| OutOfBounds
| Written (content : String.string).

(** The body of the inner loop of [export_ppm] (lines 344-347). *)
Definition put_pixel (image_buffer : list Z) (width i j : Z) (file : String.string)
  : option String.string :=
  let idx := (j * width + i) * 3 in
  match image_buffer !! Z.to_nat idx,
        image_buffer !! Z.to_nat (idx + 1),
        image_buffer !! Z.to_nat (idx + 2) with
  | Some r, Some g, Some b => Some (String.append file (Text.pixel_line r g b))
  | _, _, _ => None
  end.

(** [for (int i = 0; i < width; i++)] of [export_ppm]. *)
Fixpoint export_row (fuel : nat) (image_buffer : list Z) (width i j : Z)
  (file : String.string) : option String.string :=
  match fuel with
  | O => Some file
  | S fuel' =>
      if i <? width then
        match put_pixel image_buffer width i j file with
        | Some file => export_row fuel' image_buffer width (i + 1) j file
        | None => None
        end
      else Some file
  end.

(** [for (int j = 0; j < height; j++)] of [export_ppm]. *)
Fixpoint export_rows (fuel : nat) (image_buffer : list Z) (width height j : Z)
  (file : String.string) : option String.string :=
  match fuel with
  | O => Some file
  | S fuel' =>
      if j <? height then
        match export_row (S (Z.to_nat width)) image_buffer width 0 j file with
        | Some file => export_rows fuel' image_buffer width height (j + 1) file
        | None => None
        end
      else Some file
  end.

(** [RayTracerApp::export_ppm]; [opens] tells whether [output.ppm] could be
    opened for writing. *)
Definition export_ppm (opens : bool) (a : app) : exported :=
  match image_buffer a with
  | [] => NoImage
  | _ =>
      if opens then
        let width := current_image_width a in
        let height := current_image_height a in
        let file := Text.header width height in
        match export_rows (S (Z.to_nat height)) (image_buffer a) width height 0 file with
        | Some file => Written file
        | None => OutOfBounds
        end
      else OpenFailed
  end.

(** [int estimated_height = int(image_width / 16.0 * 9.0)] of [render_gui]. *)
Definition estimated_height (a : app) : Z :=
  Num.to_int (Num.of_int (image_width a) / 16.0 * 9.0)%float.

(** The buffer has the size of the image that the application displays
    and exports. *)
Definition sized (a : app) : Prop :=
  0 <= current_image_width a /\ 0 <= current_image_height a /\
  length (image_buffer a)
  = Z.to_nat (current_image_width a * current_image_height a * 3).

Section Worker.

Context {G M H : Type@{scene}}.
Context `{RandomSource G} `{Material M G} `{Hittable H M}.

Variable tan : float -> float.
(** The scene, as [setup_world] built it. *)
Variable world : H.

(** The body of the worker thread (lines 282-302), with the flag it polls
    as [E] has it and the generator in state [g0] when it starts: what the
    worker alone leaves in the members it writes.  The other thread is
    taken not to touch [cam] meanwhile (the four checkboxes of the panel
    could).  A [std::length_error] out of the render is caught; the camera
    has been initialized by then. *)
Definition render_thread_body (E : environment) (g0 : G) (a : app) : app * G :=
  match
    render_to_buffer_with_progress tan E (cam a) world (image_buffer a)
      (render_progress a) (texture_needs_update a) g0
  with
  | Threw => (set_is_rendering false (set_cam (initialize tan (cam a)) a), g0)
  | Returned c st =>
      let a := set_cam c a in
      let a := set_image_buffer (buffer st) a in
      let a := set_render_progress (progress st) a in
      let a := set_texture_needs_update (raised_by_worker st) a in
      let a :=
        if should_stop E (loads st) then a
        else set_texture_needs_update true (set_render_progress Binary32.one a) in
      (set_is_rendering false a, rng st)
  end.

End Worker.

End App.

(** The image size that the application displays is the one its camera
    renders. *)
Definition in_step (tan : float -> float) (a : App.app) : Prop :=
  App.current_image_width a = image_width (App.cam a) /\
  App.current_image_height a = image_height (initialize tan (App.cam a)).

(** Whether the two height computations of main.cpp, the one of
    [setup_camera] and the one of [render_gui], give the exact quotient
    for the width [w]. *)
Definition heights_exact (w : Z) : bool :=
  (Num.to_int (Num.of_int w / 16.0 * 9.0)%float =? w * 9 / 16)
  && (Num.to_int (Num.of_int w / (16.0 / 9.0))%float =? w * 9 / 16).

(** ** The worker and [update_texture] side by side *)

Module Threads.

(** What the worker does to the cells that [update_texture] reads: it
    clears the buffer (lines 40-44) and writes a pixel (lines 90-96) while
    it holds [buffer_mutex], and it sets the update flag (lines 113 and 129,
    and line 294 of main.cpp) without holding it. *)
Inductive action : Set :=
| Clear (size : nat)
| Paint (j i r_byte g_byte b_byte : Z)
| Flag
| Quiet.

Definition action_of (e : event) : action :=
  match e with
  | EvPixel j i r_byte g_byte b_byte => Paint j i r_byte g_byte b_byte
  | EvRaise _ => Flag
  | _ => Quiet
  end.

Definition needs_mutex (act : action) : bool :=
  match act with
  | Clear _ | Paint _ _ _ _ _ => true
  | Flag | Quiet => false
  end.

(** What an action does to the buffer of an image [width] pixels wide. *)
Definition write (width : Z) (act : action) (buffer : list Z) : list Z :=
  match act with
  | Clear size => fill (resize size buffer) 0
  | Paint j i r_byte g_byte b_byte =>
      let idx := (j * width + i) * 3 in
      <[Z.to_nat (idx + 2) := b_byte]>
        (<[Z.to_nat (idx + 1) := g_byte]>
           (<[Z.to_nat idx := r_byte]> buffer))
  | Flag | Quiet => buffer
  end.

Definition perform (width : Z) (act : action) (a : App.app) : App.app :=
  match act with
  | Flag => App.set_texture_needs_update true a
  | _ => App.set_image_buffer (write width act (App.image_buffer a)) a
  end.

(** Where a call of [update_texture] stands: not begun, or over; past the
    test of the flag, which was set; past the upload, with the mutex still
    held and the flag still to clear. *)
Inductive phase : Set :=
| Idle
| Checked
| Uploaded.

(** One step of the worker, whose actions still to come are listed, or of
    [update_texture] (lines 307, 308-317 and 318): in any order that the
    mutex allows. *)
Inductive step (width : Z) : list action * phase * App.app ->
                             list action * phase * App.app -> Prop :=
| worker_step (act : action) (rest : list action) (ph : phase) (a : App.app) :
    (needs_mutex act = true -> ph <> Uploaded) ->
    step width (act :: rest, ph, a) (rest, ph, perform width act a)
| gui_check (rest : list action) (a : App.app) :
    App.texture_needs_update a = true ->
    step width (rest, Idle, a) (rest, Checked, a)
| gui_upload (rest : list action) (a : App.app) :
    App.uploadable a = true ->
    step width (rest, Checked, a) (rest, Uploaded, App.set_texture (App.image_buffer a) a)
| gui_skip (rest : list action) (a : App.app) :
    App.uploadable a = false ->
    step width (rest, Checked, a) (rest, Idle, a)
| gui_clear (rest : list action) (a : App.app) :
    step width (rest, Uploaded, a) (rest, Idle, App.set_texture_needs_update false a).

Inductive runs (width : Z) : list action * phase * App.app ->
                             list action * phase * App.app -> Prop :=
| runs_here (s : list action * phase * App.app) : runs width s s
| runs_on (s1 s2 s3 : list action * phase * App.app) :
    step width s1 s2 -> runs width s2 s3 -> runs width s1 s3.

(** A schedule names the thread that moves next: the worker, or
    [update_texture] at its test of the flag, at its upload (or at giving up
    when the size test fails), or at clearing the flag. *)
Inductive move : Set :=
| Work
| Probe
| Upload
| Skip
| Release.

Definition play_one (width : Z) (m : move) (s : list action * phase * App.app)
  : option (list action * phase * App.app) :=
  let '(acts, ph, a) := s in
  match m, ph, acts with
  | Work, Uploaded, act :: rest =>
      if needs_mutex act then None else Some (rest, ph, perform width act a)
  | Work, _, act :: rest => Some (rest, ph, perform width act a)
  | Probe, Idle, _ =>
      if App.texture_needs_update a then Some (acts, Checked, a) else None
  | Upload, Checked, _ =>
      if App.uploadable a
      then Some (acts, Uploaded, App.set_texture (App.image_buffer a) a)
      else None
  | Skip, Checked, _ => if App.uploadable a then None else Some (acts, Idle, a)
  | Release, Uploaded, _ => Some (acts, Idle, App.set_texture_needs_update false a)
  | _, _, _ => None
  end.

(** The state a schedule leads to; [None] when one of its moves is not
    possible where it stands. *)
Fixpoint play (width : Z) (schedule : list move) (s : list action * phase * App.app)
  : option (list action * phase * App.app) :=
  match schedule with
  | [] => Some s
  | m :: schedule' =>
      match play_one width m s with
      | Some s' => play width schedule' s'
      | None => None
      end
  end.

(** Every write of the buffer still to come is followed by a raise of the
    flag. *)
Fixpoint settled (acts : list action) : Prop :=
  match acts with
  | [] => True
  | act :: rest => (needs_mutex act = true -> In Flag rest) /\ settled rest
  end.

(** The display shows the buffer, or an update is pending or still to be
    requested; while [update_texture] holds the mutex after its upload, the
    display shows the buffer. *)
Definition in_sync (acts : list action) (ph : phase) (a : App.app) : Prop :=
  match ph with
  | Uploaded => App.texture a = App.image_buffer a
  | Idle | Checked =>
      App.texture a = App.image_buffer a
      \/ App.texture_needs_update a = true
      \/ In Flag acts
  end.

(** The actions of a worker that ran to the end of its thread without
    being stopped, from the log of its render: the last one is the raise
    of line 294 of main.cpp. *)
Definition worker_actions (size : nat) (l : list event) : list action :=
  Clear size :: map action_of (rev l) ++ [Flag].

End Threads.

(** ** A small scene to run the camera on *)

Module Demo.

(** A linear congruential generator as the process-wide generator. *)
Definition lcg_next (g : Z) : Z := (g * 1103515245 + 12345) mod 2147483648.

Definition lcg_double (g : Z) : float * Z :=
  let g' := lcg_next g in
  ((Num.of_int g' / 2147483648.0)%float, g').

#[export] Instance lcg : RandomSource Z := {|
  random_double := lcg_double;
  random_in_unit_disk := fun g =>
    let (a, g1) := lcg_double g in
    let (b, g2) := lcg_double g1 in
    (Vec3.mk (a - 0.5) (b - 0.5) 0, g2)
|}.

(** Two materials: a diffuse one that always scatters around the normal
    with its albedo, and one that absorbs every ray. *)
Inductive surface : Set :=
| Matte (albedo : color)
| Absorbing.

#[export] Instance surface_material : Material surface Z := {|
  scatter := fun m r_in rec g =>
    match m with
    | Matte albedo =>
        let (a, g1) := lcg_double g in
        (Some (albedo, mk_ray (p rec) (Vec3.add (normal rec) (Vec3.mk (a - 0.5) 0 0))), g1)
    | Absorbing => (None, g)
    end
|}.

(** Two scenes: the empty one, and the ground plane [y = -1]. *)
Inductive scene : Set :=
| Sky
| Ground (m : surface).

#[export] Instance scene_hittable : Hittable scene surface := {|
  hit := fun world r ray_t =>
    match world with
    | Sky => None
    | Ground m =>
        let dy := Vec3.y (direction r) in
        let root := ((-1 - Vec3.y (origin r)) / dy)%float in
        if PrimFloat.ltb dy 0 && PrimFloat.ltb (imin ray_t) root
           && PrimFloat.ltb root (imax ray_t)
        then Some (mk_hit_record
                     (Vec3.add (origin r) (Vec3.scale root (direction r)))
                     (Vec3.mk 0 1 0) m root true)
        else None
    end
|}.

(** A stand-in for [std::tan] (its series up to the cubic term). *)
Definition tan (a : float) : float := (a + a * a * a / 3)%float.

(** A camera looking down the negative z axis, as configured before
    [initialize] has run. *)
Definition cam (aspect : float) (width depth : Z) : camera :=
  {| aspect_ratio := aspect;
     image_width := width;
     samples_per_pixel := 2;
     max_depth := depth;
     vfov := 90;
     lookfrom := Vec3.mk 0 0 0;
     lookat := Vec3.mk 0 0 (-1);
     vup := Vec3.mk 0 1 0;
     defocus_angle := 0;
     focus_dist := 10;
     enable_antialiasing := true;
     enable_shadows := true;
     enable_reflections := true;
     enable_refractions := true;
     image_height := 0;
     center := black;
     pixel00_loc := black;
     pixel_delta_u := black;
     pixel_delta_v := black;
     u := black;
     v := black;
     w := black;
     defocus_disk_u := black;
     defocus_disk_v := black |}.

(** The four feature toggles of the control panel. *)
Definition with_toggles (c : camera) (antialiasing shadows reflections refractions : bool)
  : camera :=
  {| aspect_ratio := aspect_ratio c;
     image_width := image_width c;
     samples_per_pixel := samples_per_pixel c;
     max_depth := max_depth c;
     vfov := vfov c;
     lookfrom := lookfrom c;
     lookat := lookat c;
     vup := vup c;
     defocus_angle := defocus_angle c;
     focus_dist := focus_dist c;
     enable_antialiasing := antialiasing;
     enable_shadows := shadows;
     enable_reflections := reflections;
     enable_refractions := refractions;
     image_height := image_height c;
     center := center c;
     pixel00_loc := pixel00_loc c;
     pixel_delta_u := pixel_delta_u c;
     pixel_delta_v := pixel_delta_v c;
     u := u c;
     v := v c;
     w := w c;
     defocus_disk_u := defocus_disk_u c;
     defocus_disk_v := defocus_disk_v c |}.

(** The samples slider of the control panel. *)
Definition with_samples (c : camera) (samples : Z) : camera :=
  {| aspect_ratio := aspect_ratio c;
     image_width := image_width c;
     samples_per_pixel := samples;
     max_depth := max_depth c;
     vfov := vfov c;
     lookfrom := lookfrom c;
     lookat := lookat c;
     vup := vup c;
     defocus_angle := defocus_angle c;
     focus_dist := focus_dist c;
     enable_antialiasing := enable_antialiasing c;
     enable_shadows := enable_shadows c;
     enable_reflections := enable_reflections c;
     enable_refractions := enable_refractions c;
     image_height := image_height c;
     center := center c;
     pixel00_loc := pixel00_loc c;
     pixel_delta_u := pixel_delta_u c;
     pixel_delta_v := pixel_delta_v c;
     u := u c;
     v := v c;
     w := w c;
     defocus_disk_u := defocus_disk_u c;
     defocus_disk_v := defocus_disk_v c |}.

(** A grey diffuse ground, a ray from the origin that reaches it, and the
    record of that hit. *)
Definition grey : color := Vec3.mk 0.5 0.5 0.5.
Definition meadow : scene := Ground (Matte grey).
Definition downward : ray := mk_ray black (Vec3.mk 0 (-1) (-1)).
Definition landing : hit_record surface :=
  mk_hit_record (Vec3.mk 0 (-1) (-1)) (Vec3.mk 0 1 0) (Matte grey) 1 true.
(** A ray along the horizon. *)
Definition level : ray := mk_ray black (Vec3.mk 1 0 0).
(** A dark diffuse ground. *)
Definition dusk : scene :=
  Ground (Matte (Vec3.mk 0.12516561509305668 0.12516561509305668 0.12516561509305668)).

(** A clock that advances one millisecond per reading, one that stands
    still, and a controller that sets the flag before the [n]-th poll. *)
Definition ticking : nat -> Z := fun n => Z.of_nat n * 1000000.
Definition frozen : nat -> Z := fun _ => 0.
Definition stop_from (n : nat) : nat -> bool := fun m => (n <=? m)%nat.

End Demo.

(** ** The application on the small scene *)

Module Studio.

(** The members as [class RayTracerApp] initializes them (lines 42-70),
    with the three sliders of the panel at [width], [samples] and [depth];
    small values keep a run short.  [defocus_angle] is [0.6f], which is
    [0x1.333334p-1] once widened.  The camera is the one of [Demo]. *)
Definition panel (width samples depth : Z) : App.app :=
  App.mk_app (Demo.cam 1 100 10) [] false false false false 400 225 Binary32.zero
    (13, 2, 3)%float (0, 0, 0)%float 20 10 0x1.333334p-1 width samples depth [].

(** The flag of the Stop button when nobody presses it. *)
Definition untouched : environment := mk_environment (fun _ => false) Demo.ticking.

End Studio.

(** * Properties *)

(** ** The progress value: quotients in binary32 *)

Section Rounding.

Import Binary32.

(** Where the quotient [N / D] lies between [m] and [m + 1]. *)
Definition located (N D m : Z) (l : location) : Prop :=
  match l with
  | loc_Exact => N = m * D
  | loc_Inexact Lt => m * D < N /\ 2 * N < (2 * m + 1) * D
  | loc_Inexact Eq => 2 * N = (2 * m + 1) * D
  | loc_Inexact Gt => (2 * m + 1) * D < 2 * N /\ N < (m + 1) * D
  end.

Lemma located_bounds (N D m : Z) (l : location) :
  0 < D -> located N D m l -> m * D <= N < (m + 1) * D.
Proof. destruct l as [| []]; cbn [located]; nia. Qed.

Lemma digits2_bounds (m : positive) :
  2 ^ (Z.pos (digits2_pos m) - 1) <= Z.pos m < 2 ^ Z.pos (digits2_pos m).
Proof.
  induction m as [m IH | m IH |]; cbn [digits2_pos]; [| | now compute].
  - rewrite Pos2Z.inj_succ, Pos2Z.inj_xI.
    replace (Z.succ (Z.pos (digits2_pos m)) - 1) with (Z.succ (Z.pos (digits2_pos m) - 1)) by lia.
    rewrite !Z.pow_succ_r by lia. lia.
  - rewrite Pos2Z.inj_succ. change (Z.pos m~0) with (2 * Z.pos m).
    replace (Z.succ (Z.pos (digits2_pos m)) - 1) with (Z.succ (Z.pos (digits2_pos m) - 1)) by lia.
    rewrite !Z.pow_succ_r by lia. lia.
Qed.

Lemma digits2_unique (m : positive) (d : Z) :
  2 ^ (d - 1) <= Z.pos m < 2 ^ d -> Z.pos (digits2_pos m) = d.
Proof.
  intros [Hlow Hhigh]. pose proof (digits2_bounds m) as [Hl Hh].
  assert (Hd : 0 < d).
  { destruct (Z.ltb_spec 0 d) as [| Hneg]; [assumption |].
    destruct (Z.eq_dec d 0) as [-> | Hne]; [cbn in Hhigh; lia |].
    rewrite Z.pow_neg_r in Hhigh by lia. lia. }
  destruct (Z.lt_trichotomy (Z.pos (digits2_pos m)) d) as [Hlt | [Heq | Hgt]];
    [| assumption |].
  - assert (2 ^ Z.pos (digits2_pos m) <= 2 ^ (d - 1)) by (apply Z.pow_le_mono_r; lia). lia.
  - assert (2 ^ d <= 2 ^ (Z.pos (digits2_pos m) - 1)) by (apply Z.pow_le_mono_r; lia). lia.
Qed.

Lemma shr_1_located (N D : Z) (mrs : shr_record) :
  0 <= shr_m mrs -> 0 < D ->
  located N D (shr_m mrs) (loc_of_shr_record mrs) ->
  located N (D * 2) (shr_m (shr_1 mrs)) (loc_of_shr_record (shr_1 mrs))
  /\ 0 <= shr_m (shr_1 mrs).
Proof.
  destruct mrs as [m r s]. cbn [shr_m]. intros Hm HD.
  destruct m as [| p | p]; [| | lia].
  - destruct r, s; cbn [shr_1 orb loc_of_shr_record located shr_m]; lia.
  - destruct p as [p | p |]; destruct r, s; cbn [shr_1 orb loc_of_shr_record located shr_m];
      try change (Z.pos p~0) with (2 * Z.pos p) in *;
      try change (Z.pos p~1) with (2 * Z.pos p + 1) in *; lia.
Qed.

Lemma pow2_xO (n : positive) : 2 ^ Z.pos n~0 = 2 ^ Z.pos n * 2 ^ Z.pos n.
Proof.
  replace (Z.pos n~0) with (Z.pos n + Z.pos n) by lia. now rewrite Z.pow_add_r by lia.
Qed.

Lemma pow2_xI (n : positive) : 2 ^ Z.pos n~1 = 2 * (2 ^ Z.pos n * 2 ^ Z.pos n).
Proof.
  replace (Z.pos n~1) with (Z.succ (Z.pos n + Z.pos n)) by lia.
  now rewrite Z.pow_succ_r, Z.pow_add_r by lia.
Qed.

Lemma shr_iter_located (n : positive) :
  forall (N D : Z) (mrs : shr_record),
    0 <= shr_m mrs -> 0 < D ->
    located N D (shr_m mrs) (loc_of_shr_record mrs) ->
    located N (D * 2 ^ Z.pos n) (shr_m (SpecFloat.iter_pos shr_1 n mrs))
      (loc_of_shr_record (SpecFloat.iter_pos shr_1 n mrs))
    /\ 0 <= shr_m (SpecFloat.iter_pos shr_1 n mrs).
Proof.
  induction n as [n IH | n IH |]; intros N D mrs Hm HD Hloc; cbn [SpecFloat.iter_pos].
  - destruct (shr_1_located N D mrs Hm HD Hloc) as [H1 Hm1].
    destruct (IH N (D * 2) _ Hm1 ltac:(lia) H1) as [H2 Hm2].
    assert (Hpow : 0 < 2 ^ Z.pos n) by (apply Z.pow_pos_nonneg; lia).
    destruct (IH N (D * 2 * 2 ^ Z.pos n) _ Hm2 ltac:(nia) H2) as [H3 Hm3].
    split; [| assumption].
    replace (D * 2 ^ Z.pos n~1) with (D * 2 * 2 ^ Z.pos n * 2 ^ Z.pos n); [assumption |].
    rewrite pow2_xI. ring.
  - destruct (IH N D _ Hm HD Hloc) as [H2 Hm2].
    assert (Hpow : 0 < 2 ^ Z.pos n) by (apply Z.pow_pos_nonneg; lia).
    destruct (IH N (D * 2 ^ Z.pos n) _ Hm2 ltac:(nia) H2) as [H3 Hm3].
    split; [| assumption].
    replace (D * 2 ^ Z.pos n~0) with (D * 2 ^ Z.pos n * 2 ^ Z.pos n); [assumption |].
    rewrite pow2_xO. ring.
  - change (2 ^ 1) with 2. now apply shr_1_located.
Qed.

Lemma loc_of_record_of_loc (m : Z) (l : location) :
  loc_of_shr_record (shr_record_of_loc m l) = l /\ shr_m (shr_record_of_loc m l) = m.
Proof. now destruct l as [| []]. Qed.

Lemma fexp_normal (d : Z) : -149 <= d - 24 -> fexp prec emax d = d - 24.
Proof. intros Hd. unfold fexp, emin, prec, emax. lia. Qed.

(** The shift that brings a mantissa of at least 24 bits down to 24. *)
Lemma shr_fexp_located (N D : Z) (m : positive) (e : Z) (l : location) :
  0 < D -> located N D (Z.pos m) l ->
  24 <= Z.pos (digits2_pos m) ->
  -149 <= Z.pos (digits2_pos m) + e - 24 ->
  exists mrs : shr_record,
    shr_fexp prec emax (Z.pos m) e l = (mrs, e + (Z.pos (digits2_pos m) - 24)) /\
    located N (D * 2 ^ (Z.pos (digits2_pos m) - 24)) (shr_m mrs) (loc_of_shr_record mrs) /\
    0 <= shr_m mrs.
Proof.
  intros HD Hloc Hd He. unfold shr_fexp. cbn [Zdigits2].
  rewrite fexp_normal by lia.
  replace (Z.pos (digits2_pos m) + e - 24 - e) with (Z.pos (digits2_pos m) - 24) by lia.
  destruct (loc_of_record_of_loc (Z.pos m) l) as [Hl Hm].
  destruct (Z.pos (digits2_pos m) - 24) as [| n | n] eqn:Hn; [| | lia].
  - exists (shr_record_of_loc (Z.pos m) l). cbn [shr]. rewrite Z.add_0_r, Hl, Hm.
    split; [reflexivity |]. split; [| lia]. now rewrite Z.pow_0_r, Z.mul_1_r.
  - exists (SpecFloat.iter_pos shr_1 n (shr_record_of_loc (Z.pos m) l)). cbn [shr].
    split; [reflexivity |].
    apply shr_iter_located; [rewrite Hm; lia | assumption | now rewrite Hl, Hm].
Qed.

(** [m * 2 ^ e_out] is the binary32 value nearest to [(N / D) * 2 ^ e], ties
    to even, when [N / D] is scaled to have 24 bits before the point. *)
Definition rounded (N D e : Z) (m : positive) (e_out : Z) : Prop :=
  exists (m' : Z) (l' : location),
    located N D m' l' /\ 2 ^ 23 <= m' < 2 ^ 24 /\
    ((round_nearest_even m' l' < 2 ^ 24 /\
      Z.pos m = round_nearest_even m' l' /\ e_out = e)
     \/ (round_nearest_even m' l' = 2 ^ 24 /\ Z.pos m = 2 ^ 23 /\ e_out = e + 1)).

Lemma round_nearest_even_bounds (m : Z) (l : location) :
  m <= round_nearest_even m l <= m + 1.
Proof. destruct l as [| []]; cbn [round_nearest_even]; try destruct (Z.even m); lia. Qed.

Lemma binary_round_aux_rounded (N D : Z) (mx : positive) (ex : Z) (lx : location) :
  0 < D -> located N D (Z.pos mx) lx ->
  24 <= Z.pos (digits2_pos mx) ->
  -149 <= Z.pos (digits2_pos mx) + ex - 24 < 104 ->
  exists (m : positive) (e : Z),
    binary_round_aux prec emax false (Z.pos mx) ex lx = S754_finite false m e /\
    rounded N (D * 2 ^ (Z.pos (digits2_pos mx) - 24)) (ex + (Z.pos (digits2_pos mx) - 24)) m e.
Proof.
  intros HD Hloc Hd He.
  set (d := Z.pos (digits2_pos mx)) in *.
  destruct (shr_fexp_located N D mx ex lx HD Hloc Hd ltac:(lia))
    as (mrs & Hshift & Hlocated & Hm). fold d in Hshift, Hlocated.
  assert (Hpow : 0 < 2 ^ (d - 24)) by (apply Z.pow_pos_nonneg; lia).
  assert (HD' : 0 < D * 2 ^ (d - 24)) by nia.
  pose proof (located_bounds _ _ _ _ HD' Hlocated) as Hbounds.
  pose proof (located_bounds _ _ _ _ HD Hloc) as Hbounds0.
  pose proof (digits2_bounds mx) as Hdigits. fold d in Hdigits.
  assert (Hsplit : 2 ^ d = 2 ^ 24 * 2 ^ (d - 24)).
  { rewrite <- Z.pow_add_r by lia. f_equal. lia. }
  assert (Hsplit' : 2 ^ (d - 1) = 2 ^ 23 * 2 ^ (d - 24)).
  { rewrite <- Z.pow_add_r by lia. f_equal. lia. }
  assert (Hmantissa : 2 ^ 23 <= shr_m mrs < 2 ^ 24).
  { split.
    - assert (2 ^ 23 * (D * 2 ^ (d - 24)) < (shr_m mrs + 1) * (D * 2 ^ (d - 24))) by nia.
      assert (2 ^ 23 < shr_m mrs + 1) by (apply Z.mul_lt_mono_pos_r with (D * 2 ^ (d - 24)); assumption).
      lia.
    - assert (shr_m mrs * (D * 2 ^ (d - 24)) < 2 ^ 24 * (D * 2 ^ (d - 24))) by nia.
      apply Z.mul_lt_mono_pos_r with (D * 2 ^ (d - 24)); assumption. }
  pose proof (round_nearest_even_bounds (shr_m mrs) (loc_of_shr_record mrs)) as Hround.
  set (r := round_nearest_even (shr_m mrs) (loc_of_shr_record mrs)) in *.
  unfold binary_round_aux. rewrite Hshift. fold r.
  destruct r as [| pr | pr] eqn:Hr; [lia | | lia].
  destruct (Z.eq_dec (Z.pos pr) (2 ^ 24)) as [Hcarry | Hfits].
  - change (2 ^ 24) with (Z.pos 16777216) in Hcarry. injection Hcarry as ->. exists 8388608%positive, (ex + (d - 24) + 1). split.
    + unfold shr_fexp. cbn [Zdigits2].
      change (Z.pos (digits2_pos 16777216)) with 25.
      rewrite fexp_normal by lia.
      replace (25 + (ex + (d - 24)) - 24 - (ex + (d - 24))) with 1 by lia.
      cbn [shr SpecFloat.iter_pos shr_record_of_loc shr_1 shr_m].
      replace (ex + (d - 24) + 1 <=? emax - prec) with true; [reflexivity |].
      symmetry. apply Z.leb_le. unfold emax, prec. lia.
    + exists (shr_m mrs), (loc_of_shr_record mrs). fold r. rewrite Hr.
      split; [assumption |]. split; [assumption |]. right. now repeat split.
  - assert (Hdr : Z.pos (digits2_pos pr) = 24) by (apply digits2_unique; lia).
    exists pr, (ex + (d - 24)). split.
    + unfold shr_fexp. cbn [Zdigits2]. rewrite Hdr, fexp_normal by lia.
      replace (24 + (ex + (d - 24)) - 24 - (ex + (d - 24))) with 0 by lia.
      cbn [shr shr_record_of_loc shr_m].
      replace (ex + (d - 24) <=? emax - prec) with true; [reflexivity |].
      symmetry. apply Z.leb_le. unfold emax, prec. lia.
    + exists (shr_m mrs), (loc_of_shr_record mrs). fold r. rewrite Hr.
      split; [assumption |]. split; [assumption |]. left. repeat split. lia.
Qed.

(** Rounding to nearest, ties to even, does not reverse the order. *)
Lemma round_nearest_even_monotone (N1 D1 a : Z) (l1 : location)
  (N2 D2 b : Z) (l2 : location) :
  0 < D1 -> 0 < D2 ->
  located N1 D1 a l1 -> located N2 D2 b l2 ->
  N1 * D2 <= N2 * D1 ->
  round_nearest_even a l1 <= round_nearest_even b l2.
Proof.
  intros HD1 HD2 H1 H2 Hle.
  pose proof (round_nearest_even_bounds a l1) as Ha.
  pose proof (round_nearest_even_bounds b l2) as Hb.
  pose proof (located_bounds _ _ _ _ HD1 H1) as B1.
  pose proof (located_bounds _ _ _ _ HD2 H2) as B2.
  assert (HDD : 0 < D1 * D2) by nia.
  destruct (Z.lt_trichotomy a b) as [Hlt | [-> | Hgt]]; [lia | |].
  - destruct l1 as [| [] ], l2 as [| [] ]; cbn [round_nearest_even located] in *;
      try destruct (Z.even b); try lia; exfalso; nia.
  - exfalso.
    assert ((b + 1) * (D1 * D2) <= a * (D1 * D2)) by (apply Z.mul_le_mono_nonneg_r; lia).
    nia.
Qed.

(** The weight of the unit of exponent [e], scaled to stay an integer. *)
Definition weight (e : Z) : Z := 2 ^ (e + 256).

Lemma weight_positive (e : Z) : -256 <= e -> 0 < weight e.
Proof. intros He. apply Z.pow_pos_nonneg; lia. Qed.

Lemma weight_add (e n : Z) : -256 <= e -> 0 <= n -> weight (e + n) = weight e * 2 ^ n.
Proof.
  intros He Hn. unfold weight. rewrite <- Z.pow_add_r by lia. f_equal. lia.
Qed.

Lemma weight_double (e1 e2 : Z) : -256 <= e1 < e2 -> 2 * weight e1 <= weight e2.
Proof.
  intros He. replace e2 with (e1 + (e2 - e1)) by lia. rewrite weight_add by lia.
  pose proof (weight_positive e1 ltac:(lia)).
  assert (2 ^ 1 <= 2 ^ (e2 - e1)) by (apply Z.pow_le_mono_r; lia).
  change (2 ^ 1) with 2 in *. nia.
Qed.

(** Binary32 values in the order of their exponents, then mantissas. *)
Definition below (m1 : positive) (e1 : Z) (m2 : positive) (e2 : Z) : Prop :=
  e1 < e2 \/ (e1 = e2 /\ Z.pos m1 <= Z.pos m2).

Lemma rounded_monotone (N1 D1 e1 : Z) (m1 : positive) (E1 : Z)
  (N2 D2 e2 : Z) (m2 : positive) (E2 : Z) :
  0 < D1 -> 0 < D2 -> -256 <= e1 -> -256 <= e2 ->
  rounded N1 D1 e1 m1 E1 -> rounded N2 D2 e2 m2 E2 ->
  N1 * D2 * weight e1 <= N2 * D1 * weight e2 ->
  below m1 E1 m2 E2.
Proof.
  intros HD1 HD2 He1 He2 (a & l1 & H1 & Ha & Hr1) (b & l2 & H2 & Hb & Hr2) Hle.
  pose proof (located_bounds _ _ _ _ HD1 H1) as B1.
  pose proof (located_bounds _ _ _ _ HD2 H2) as B2.
  pose proof (round_nearest_even_bounds a l1) as Ra.
  pose proof (round_nearest_even_bounds b l2) as Rb.
  pose proof (weight_positive e1 He1) as W1.
  pose proof (weight_positive e2 He2) as W2.
  assert (HDD : 0 < D1 * D2) by nia.
  change (2 ^ 23) with 8388608 in *. change (2 ^ 24) with 16777216 in *.
  destruct (Z.lt_trichotomy e1 e2) as [Hlt | [<- | Hgt]].
  - unfold below. lia.
  - assert (Hsame : N1 * D2 <= N2 * D1).
    { apply Z.mul_le_mono_pos_r with (weight e1); assumption. }
    pose proof (round_nearest_even_monotone _ _ _ _ _ _ _ _ HD1 HD2 H1 H2 Hsame).
    unfold below. lia.
  - exfalso. pose proof (weight_double e2 e1 ltac:(lia)) as Hw.
    assert (8388608 * (D1 * D2) * weight e1 <= N1 * D2 * weight e1).
    { apply Z.mul_le_mono_nonneg_r; [lia |]. nia. }
    assert (N2 * D1 * weight e2 < 16777216 * (D1 * D2) * weight e2).
    { apply Z.mul_lt_mono_pos_r; [assumption |]. nia. }
    nia.
Qed.

(** When the quotient is an integer no rounding takes place. *)
Lemma rounded_exact (q D e : Z) (m : positive) (E : Z) :
  0 < D -> rounded (q * D) D e m E -> Z.pos m = q /\ E = e.
Proof.
  intros HD (a & l & Hloc & Ha & Hr).
  change (2 ^ 23) with 8388608 in *. change (2 ^ 24) with 16777216 in *.
  assert (Hq : a = q /\ l = loc_Exact).
  { destruct l as [| [] ]; cbn [located] in Hloc.
    - split; [| reflexivity]. apply Z.mul_reg_r with D; lia.
    - exfalso. assert (2 * q = 2 * a + 1) by (apply Z.mul_reg_r with D; lia). lia.
    - exfalso. destruct Hloc as [Hl Hh].
      assert (a < q) by (apply Z.mul_lt_mono_pos_r with D; assumption).
      assert (2 * q < 2 * a + 1) by (apply Z.mul_lt_mono_pos_r with D; lia). lia.
    - exfalso. destruct Hloc as [Hl Hh].
      assert (q < a + 1) by (apply Z.mul_lt_mono_pos_r with D; assumption).
      assert (2 * a + 1 < 2 * q) by (apply Z.mul_lt_mono_pos_r with D; lia). lia. }
  destruct Hq as [-> ->]. cbn [round_nearest_even] in Hr. lia.
Qed.

Lemma new_location_located (N D q r : Z) :
  0 < D -> N = D * q + r -> 0 <= r < D ->
  located N D q (new_location D r).
Proof.
  intros HD -> Hr. unfold new_location.
  destruct (Z.even D) eqn:Hparity.
  - unfold new_location_even. destruct (Z.eqb_spec r 0) as [-> | Hne]; cbn [located]; [lia |].
    destruct (Z.compare_spec (2 * r) D); cbn [located]; lia.
  - unfold new_location_odd. destruct (Z.eqb_spec r 0) as [-> | Hne]; cbn [located]; [lia |].
    assert (Hodd : Z.odd D = true) by (rewrite <- Z.negb_even, Hparity; reflexivity).
    apply Z.odd_spec in Hodd as [h Hh].
    destruct (Z.compare_spec (2 * r + 1) D); cbn [located]; lia.
Qed.

Lemma weight_product (x y : Z) :
  -256 <= x -> -256 <= y -> -256 <= x + y ->
  weight x * weight y = weight (x + y) * weight 0.
Proof.
  intros Hx Hy Hxy. unfold weight. rewrite <- !Z.pow_add_r by lia. f_equal. lia.
Qed.

Lemma weight_monotone (e1 e2 : Z) : -256 <= e1 <= e2 -> weight e1 <= weight e2.
Proof. intros He. apply Z.pow_le_mono_r; lia. Qed.

Lemma rounded_mantissa (N D e : Z) (m : positive) (E : Z) :
  rounded N D e m E -> 2 ^ 23 <= Z.pos m < 2 ^ 24 /\ e <= E <= e + 1.
Proof.
  intros (a & l & _ & Ha & Hr).
  pose proof (round_nearest_even_bounds a l). lia.
Qed.

Lemma below_weight (a : positive) (ea : Z) (a' : positive) (ea' : Z) :
  below a ea a' ea' -> Z.pos a < 2 ^ 24 -> 2 ^ 23 <= Z.pos a' -> -256 <= ea ->
  Z.pos a * weight ea <= Z.pos a' * weight ea'.
Proof.
  intros [Hlt | [<- Hle]] Ha Ha' He.
  - pose proof (weight_double ea ea' ltac:(lia)).
    pose proof (weight_positive ea He).
    change (2 ^ 23) with 8388608 in *. change (2 ^ 24) with 16777216 in *. nia.
  - pose proof (weight_positive ea He). nia.
Qed.

Lemma iter_xO (p q : positive) : Z.pos (Pos.iter xO p q) = Z.pos p * 2 ^ Z.pos q.
Proof.
  rewrite <- Z.shiftl_mul_pow2 by lia. cbn [Z.shiftl].
  now rewrite (Pos.iter_swap_gen _ _ Z.pos xO (Z.mul 2)).
Qed.

(** [static_cast<float>(n)] of a positive [int]. *)
Lemma of_int_rounded (n : Z) :
  1 <= n < 2 ^ 31 ->
  exists (m : positive) (e N D e' : Z),
    of_int n = S754_finite false m e /\
    0 < D /\ -23 <= e' <= 7 /\
    rounded N D e' m e /\
    N * weight e' = n * D * weight 0 /\
    (n <= 2 ^ 24 -> exists q : Z, N = q * D).
Proof.
  intros Hn. destruct n as [| p | p]; [lia | | lia].
  unfold of_int, binary_normalize, binary_round, shl_align.
  rewrite fexp_normal by lia. rewrite !Z.add_0_r, Z.sub_0_r.
  pose proof (digits2_bounds p) as Hdigits.
  set (d := Z.pos (digits2_pos p)) in *.
  assert (Hd : 1 <= d <= 31).
  { split; [unfold d; lia |].
    destruct (Z.le_gt_cases d 31) as [| Hbig]; [assumption | exfalso].
    assert (2 ^ 31 <= 2 ^ (d - 1)) by (apply Z.pow_le_mono_r; lia). lia. }
  destruct (d - 24) as [| q | q] eqn:Hshift.
  - (* 24 bits *)
    destruct (binary_round_aux_rounded (Z.pos p) 1 p 0 loc_Exact)
      as (m & e & Hround & Hrounded); fold d;
      [lia | cbn [located]; lia | lia | lia |].
    fold d in Hrounded.
    exists m, e, (Z.pos p), (1 * 2 ^ (d - 24)), (0 + (d - 24)).
    replace (d - 24) with 0 in * by lia. change (2 ^ 0) with 1 in *.
    change (0 + 0) with 0 in *.
    split; [assumption |]. split; [lia |]. split; [lia |].
    split; [assumption |]. split; [ring |].
    intros _. exists (Z.pos p). lia.
  - (* more than 24 bits: the low ones are rounded away *)
    destruct (binary_round_aux_rounded (Z.pos p) 1 p 0 loc_Exact)
      as (m & e & Hround & Hrounded); fold d;
      [lia | cbn [located]; lia | lia | lia |].
    fold d in Hrounded.
    exists m, e, (Z.pos p), (1 * 2 ^ (d - 24)), (0 + (d - 24)).
    assert (Hpow : 0 < 2 ^ (d - 24)) by (apply Z.pow_pos_nonneg; lia).
    split; [assumption |]. split; [lia |]. split; [lia |].
    split; [assumption |]. split.
    + rewrite (weight_add 0 (d - 24)) by lia. ring.
    + intros Hsmall. assert (Hd25 : d = 25).
      { destruct (Z.le_gt_cases d 25) as [| Hbig]; [lia | exfalso].
        assert (2 ^ 25 <= 2 ^ (d - 1)) by (apply Z.pow_le_mono_r; lia).
        change (2 ^ 25) with 33554432 in *. change (2 ^ 24) with 16777216 in *. lia. }
      rewrite Hd25 in *. change (2 ^ (25 - 1)) with 16777216 in *.
      change (2 ^ 24) with 16777216 in *.
      exists 8388608. change (2 ^ (25 - 24)) with 2. lia.
  - (* fewer than 24 bits: the mantissa is shifted left *)
    assert (Hq : Z.pos q = 24 - d) by lia.
    assert (Hmz : Z.pos (Pos.iter xO p q) = Z.pos p * 2 ^ (24 - d))
      by (rewrite iter_xO; f_equal; f_equal; lia).
    assert (Hpow : 0 < 2 ^ (24 - d)) by (apply Z.pow_pos_nonneg; lia).
    assert (H24 : Z.pos (digits2_pos (Pos.iter xO p q)) = 24).
    { apply digits2_unique. rewrite Hmz.
      replace (2 ^ 24) with (2 ^ d * 2 ^ (24 - d))
        by (rewrite <- Z.pow_add_r by lia; f_equal; lia).
      replace (2 ^ (24 - 1)) with (2 ^ (d - 1) * 2 ^ (24 - d))
        by (rewrite <- Z.pow_add_r by lia; f_equal; lia).
      nia. }
    destruct (binary_round_aux_rounded (Z.pos (Pos.iter xO p q)) 1
                (Pos.iter xO p q) (Z.neg q) loc_Exact)
      as (m & e & Hround & Hrounded); rewrite ?H24;
      [lia | cbn [located]; lia | lia | lia |].
    rewrite H24 in Hrounded.
    exists m, e, (Z.pos (Pos.iter xO p q)), (1 * 2 ^ (24 - 24)), (Z.neg q + (24 - 24)).
    change (2 ^ (24 - 24)) with 1 in *. rewrite Z.add_0_r, Z.mul_1_r in *.
    split; [assumption |]. split; [lia |]. split; [lia |].
    split; [assumption |]. split.
    + rewrite Hmz. replace (Z.neg q) with (d - 24) by lia.
      replace (weight 0) with (weight (d - 24 + (24 - d))) by (f_equal; lia).
      rewrite (weight_add (d - 24) (24 - d)) by lia. ring.
    + intros _. exists (Z.pos (Pos.iter xO p q)). lia.
Qed.

(** [a / b] on two normal binary32 values. *)
Lemma div_rounded (a : positive) (ea : Z) (b : positive) (eb : Z) :
  2 ^ 23 <= Z.pos a < 2 ^ 24 -> 2 ^ 23 <= Z.pos b < 2 ^ 24 ->
  -32 <= ea <= 32 -> -32 <= eb <= 32 ->
  exists (m : positive) (e N D e' : Z),
    div (S754_finite false a ea) (S754_finite false b eb) = S754_finite false m e /\
    0 < D /\ ea - eb - 24 <= e' <= ea - eb - 23 /\
    rounded N D e' m e /\
    N * (Z.pos b * weight eb) * weight e' = Z.pos a * weight ea * D * weight 0.
Proof.
  intros Ha Hb Hea Heb.
  assert (Hda : Z.pos (digits2_pos a) = 24) by (apply digits2_unique; exact Ha).
  assert (Hdb : Z.pos (digits2_pos b) = 24) by (apply digits2_unique; exact Hb).
  change (2 ^ 23) with 8388608 in *. change (2 ^ 24) with 16777216 in *.
  unfold div, SFdiv, SFdiv_core_binary. cbn [xorb Zdigits2]. rewrite Hda, Hdb.
  rewrite fexp_normal by lia.
  replace (24 + ea - (24 + eb) - 24) with (ea - eb - 24) by lia.
  rewrite Z.min_l by lia.
  replace (ea - eb - (ea - eb - 24)) with 24 by lia.
  rewrite Z.shiftl_mul_pow2 by lia. change (2 ^ 24) with 16777216.
  pose proof (Z_div_mod (Z.pos a * 16777216) (Z.pos b) ltac:(lia)) as Hdiv.
  destruct (Z.div_eucl (Z.pos a * 16777216) (Z.pos b)) as [q r].
  destruct Hdiv as [Hdiv Hr].
  assert (Hq : 8388608 <= q < 33554432) by nia.
  destruct q as [| pq | pq]; [lia | | lia].
  pose proof (new_location_located (Z.pos a * 16777216) (Z.pos b) (Z.pos pq) r
                ltac:(lia) Hdiv Hr) as Hloc.
  assert (Hdq : Z.pos (digits2_pos pq) = 24 \/ Z.pos (digits2_pos pq) = 25).
  { destruct (Z.lt_ge_cases (Z.pos pq) 16777216).
    - left. apply digits2_unique. change (2 ^ (24 - 1)) with 8388608.
      change (2 ^ 24) with 16777216. lia.
    - right. apply digits2_unique. change (2 ^ (25 - 1)) with 16777216.
      change (2 ^ 25) with 33554432. lia. }
  destruct (binary_round_aux_rounded (Z.pos a * 16777216) (Z.pos b) pq
              (ea - eb - 24) (new_location (Z.pos b) r))
    as (m & e & Hround & Hrounded); [lia | assumption | lia | lia |].
  set (n := Z.pos (digits2_pos pq) - 24) in *.
  assert (Hn : 0 <= n <= 1) by lia.
  assert (Hpow : 0 < 2 ^ n) by (apply Z.pow_pos_nonneg; lia).
  exists m, e, (Z.pos a * 16777216), (Z.pos b * 2 ^ n), (ea - eb - 24 + n).
  split; [assumption |]. split; [nia |]. split; [lia |]. split; [assumption |].
  rewrite (weight_add (ea - eb - 24) n) by lia.
  pose proof (weight_product eb (ea - eb - 24) ltac:(lia) ltac:(lia) ltac:(lia)) as Hprod.
  replace (eb + (ea - eb - 24)) with (ea - 24) in Hprod by lia.
  pose proof (weight_add (ea - 24) 24 ltac:(lia) ltac:(lia)) as Hea'.
  replace (ea - 24 + 24) with ea in Hea' by lia. change (2 ^ 24) with 16777216 in Hea'.
  rewrite Hea'.
  replace (Z.pos a * 16777216 * (Z.pos b * weight eb) * (weight (ea - eb - 24) * 2 ^ n))
    with (Z.pos a * 16777216 * Z.pos b * 2 ^ n * (weight eb * weight (ea - eb - 24)))
    by ring.
  rewrite Hprod. ring.
Qed.

(** The order of two binary32 values as [SFleb] and [SFltb] see it. *)
Lemma leb_below (m1 : positive) (e1 : Z) (m2 : positive) (e2 : Z) :
  below m1 e1 m2 e2 ->
  leb (S754_finite false m1 e1) (S754_finite false m2 e2) = true.
Proof.
  unfold leb, SFleb, SFcompare, below. intros [Hlt | [-> Hle]].
  - apply Z.compare_lt_iff in Hlt. now rewrite Hlt.
  - rewrite Z.compare_refl. change (Pos.compare_cont Eq m1 m2) with (Pos.compare m1 m2).
    destruct (Pos.compare_spec m1 m2); try reflexivity. lia.
Qed.

Lemma ltb_below (m1 : positive) (e1 : Z) (m2 : positive) (e2 : Z) :
  e1 < e2 \/ (e1 = e2 /\ Z.pos m1 < Z.pos m2) ->
  ltb (S754_finite false m1 e1) (S754_finite false m2 e2) = true.
Proof.
  unfold ltb, SFltb, SFcompare. intros [Hlt | [-> Hle]].
  - apply Z.compare_lt_iff in Hlt. now rewrite Hlt.
  - rewrite Z.compare_refl. change (Pos.compare_cont Eq m1 m2) with (Pos.compare m1 m2).
    destruct (Pos.compare_spec m1 m2); try reflexivity; lia.
Qed.

(** [x / x] is [1.0f]. *)
Lemma div_self (m : positive) (e : Z) :
  div (S754_finite false m e) (S754_finite false m e) = one.
Proof.
  unfold div, SFdiv, SFdiv_core_binary. cbn [xorb].
  rewrite !Z.sub_diag.
  change (fexp prec emax 0) with (-24). change (Z.min (-24) 0) with (-24).
  change (0 - -24) with 24. cbv iota.
  rewrite Z.shiftl_mul_pow2 by lia. change (2 ^ 24) with 16777216.
  pose proof (Z_div_mod (Z.pos m * 16777216) (Z.pos m) ltac:(lia)) as Hdiv.
  destruct (Z.div_eucl (Z.pos m * 16777216) (Z.pos m)) as [q r].
  destruct Hdiv as [Hdiv Hr].
  assert (Hq : q = 16777216 /\ r = 0)
    by (apply (Z.div_mod_unique (Z.pos m)); [left; lia | left; lia | lia]).
  destruct Hq as [-> ->].
  replace (new_location (Z.pos m) 0) with loc_Exact; [reflexivity |].
  unfold new_location, new_location_even, new_location_odd.
  now destruct (Z.even (Z.pos m)).
Qed.

Lemma of_int_normal (n : Z) :
  1 <= n < 2 ^ 31 ->
  exists (m : positive) (e : Z),
    of_int n = S754_finite false m e /\
    2 ^ 23 <= Z.pos m < 2 ^ 24 /\ -23 <= e <= 8.
Proof.
  intros Hn.
  destruct (of_int_rounded n Hn) as (m & e & N & D & e' & Hof & HD & He' & Hr & _).
  exists m, e. split; [assumption |].
  apply rounded_mantissa in Hr. lia.
Qed.

Lemma of_int_monotone (k k' : Z) (a : positive) (ea : Z) (a' : positive) (ea' : Z) :
  1 <= k <= k' -> k' < 2 ^ 31 ->
  of_int k = S754_finite false a ea -> of_int k' = S754_finite false a' ea' ->
  below a ea a' ea'.
Proof.
  intros Hk Hk' Ha Ha'.
  destruct (of_int_rounded k ltac:(lia)) as (m1 & e1 & N1 & D1 & x1 & Hof1 & HD1 & Hx1 & Hr1 & Hv1 & _).
  destruct (of_int_rounded k' ltac:(lia)) as (m2 & e2 & N2 & D2 & x2 & Hof2 & HD2 & Hx2 & Hr2 & Hv2 & _).
  rewrite Ha in Hof1. injection Hof1 as <- <-.
  rewrite Ha' in Hof2. injection Hof2 as <- <-.
  apply (rounded_monotone N1 D1 x1 a ea N2 D2 x2 a' ea'); try assumption; try lia.
  pose proof (weight_positive 0 ltac:(lia)) as W0.
  replace (N1 * D2 * weight x1) with (N1 * weight x1 * D2) by ring.
  replace (N2 * D1 * weight x2) with (N2 * weight x2 * D1) by ring.
  rewrite Hv1, Hv2. nia.
Qed.

(** The progress value never decreases from one pixel to the next. *)
Theorem float_div_monotone (k k' total : Z) :
  1 <= k <= k' -> k' < 2 ^ 31 -> 1 <= total < 2 ^ 31 ->
  leb (float_div k total) (float_div k' total) = true.
Proof.
  intros Hk Hk' Htotal. unfold float_div.
  destruct (of_int_normal k ltac:(lia)) as (a & ea & Ha & Hma & Hea).
  destruct (of_int_normal k' ltac:(lia)) as (a' & ea' & Ha' & Hma' & Hea').
  destruct (of_int_normal total Htotal) as (b & eb & Hb & Hmb & Heb).
  pose proof (of_int_monotone k k' a ea a' ea' Hk Hk' Ha Ha') as Hbelow.
  rewrite Ha, Ha', Hb.
  destruct (div_rounded a ea b eb Hma Hmb ltac:(lia) ltac:(lia))
    as (m1 & e1 & N1 & D1 & x1 & Hdiv1 & HD1 & Hx1 & Hr1 & Hv1).
  destruct (div_rounded a' ea' b eb Hma' Hmb ltac:(lia) ltac:(lia))
    as (m2 & e2 & N2 & D2 & x2 & Hdiv2 & HD2 & Hx2 & Hr2 & Hv2).
  rewrite Hdiv1, Hdiv2. apply leb_below.
  apply (rounded_monotone N1 D1 x1 m1 e1 N2 D2 x2 m2 e2); try assumption; try lia.
  pose proof (below_weight a ea a' ea' Hbelow ltac:(lia) ltac:(lia) ltac:(lia)) as Hw.
  pose proof (weight_positive 0 ltac:(lia)) as W0.
  pose proof (weight_positive eb ltac:(lia)) as Wb.
  assert (Hpos : 0 < Z.pos b * weight eb) by nia.
  apply Z.mul_le_mono_pos_r with (Z.pos b * weight eb); [assumption |].
  replace (N1 * D2 * weight x1 * (Z.pos b * weight eb))
    with (N1 * (Z.pos b * weight eb) * weight x1 * D2) by ring.
  replace (N2 * D1 * weight x2 * (Z.pos b * weight eb))
    with (N2 * (Z.pos b * weight eb) * weight x2 * D1) by ring.
  rewrite Hv1, Hv2.
  assert (0 < D1 * D2 * weight 0) by nia.
  replace (Z.pos a * weight ea * D1 * weight 0 * D2)
    with (Z.pos a * weight ea * (D1 * D2 * weight 0)) by ring.
  replace (Z.pos a' * weight ea' * D2 * weight 0 * D1)
    with (Z.pos a' * weight ea' * (D1 * D2 * weight 0)) by ring.
  apply Z.mul_le_mono_nonneg_r; lia.
Qed.

(** After the last pixel the progress value is [1.0f]. *)
Lemma float_div_positive (k total : Z) :
  1 <= k < 2 ^ 31 -> 1 <= total < 2 ^ 31 ->
  exists (m : positive) (e : Z), float_div k total = S754_finite false m e.
Proof.
  intros Hk Htotal. unfold float_div.
  destruct (of_int_normal k Hk) as (a & ea & -> & Ha & Hea).
  destruct (of_int_normal total Htotal) as (b & eb & -> & Hb & Heb).
  destruct (div_rounded a ea b eb Ha Hb ltac:(lia) ltac:(lia))
    as (m & e & _ & _ & _ & Hdiv & _).
  now exists m, e.
Qed.

Theorem float_div_one (total : Z) :
  1 <= total < 2 ^ 31 -> float_div total total = one.
Proof.
  intros Htotal. unfold float_div.
  destruct (of_int_normal total Htotal) as (b & eb & -> & _). apply div_self.
Qed.

(** Up to [2 ^ 24] an [int] is a binary32 value. *)
Lemma of_int_exact (n : Z) :
  1 <= n <= 2 ^ 24 ->
  exists (m : positive) (e : Z),
    of_int n = S754_finite false m e /\
    2 ^ 23 <= Z.pos m < 2 ^ 24 /\ -23 <= e <= 8 /\
    Z.pos m * weight e = n * weight 0.
Proof.
  intros Hn.
  destruct (of_int_rounded n ltac:(change (2 ^ 24) with 16777216 in Hn;
                                   change (2 ^ 31) with 2147483648; lia))
    as (m & e & N & D & e' & Hof & HD & He' & Hr & Hv & Hexact).
  destruct (Hexact ltac:(lia)) as [q ->].
  pose proof (rounded_mantissa _ _ _ _ _ Hr) as [Hm He].
  apply rounded_exact in Hr as [Hq ->]; [| assumption].
  exists m, e'. split; [assumption |]. split; [assumption |]. split; [lia |].
  rewrite Hq. apply Z.mul_reg_r with D; [lia |].
  replace (n * weight 0 * D) with (n * D * weight 0) by ring.
  rewrite <- Hv. ring.
Qed.

(** On an image of at most [2 ^ 24] pixels the progress value is below
    [1.0f] until the last pixel. *)
Theorem float_div_below_one (k total : Z) :
  1 <= k < total -> total <= 2 ^ 24 ->
  ltb (float_div k total) one = true.
Proof.
  intros Hk Htotal. unfold float_div.
  destruct (of_int_exact k ltac:(lia)) as (a & ea & Ha & Hma & Hea & Hva).
  destruct (of_int_exact total ltac:(lia)) as (b & eb & Hb & Hmb & Heb & Hvb).
  rewrite Ha, Hb.
  destruct (div_rounded a ea b eb Hma Hmb ltac:(lia) ltac:(lia))
    as (m & e & N & D & x & Hdiv & HD & Hx & Hr & Hv).
  rewrite Hdiv. unfold one. apply ltb_below. left.
  rewrite Hva, Hvb in Hv.
  pose proof (weight_positive 0 ltac:(lia)) as W0.
  pose proof (weight_positive x ltac:(lia)) as Wx.
  assert (Hvalue : N * total * weight x = k * D * weight 0).
  { apply Z.mul_reg_r with (weight 0); [lia |].
    replace (N * total * weight x * weight 0)
      with (N * (total * weight 0) * weight x) by ring.
    rewrite Hv. ring. }
  destruct Hr as (m' & l' & Hloc & Hm' & Hcases).
  pose proof (located_bounds _ _ _ _ HD Hloc) as Hbounds.
  pose proof (round_nearest_even_bounds m' l') as Hround.
  change (2 ^ 23) with 8388608 in *. change (2 ^ 24) with 16777216 in *.
  assert (Hx24 : x <= -24).
  { destruct (Z.le_gt_cases x (-24)) as [| Hhigh]; [assumption | exfalso].
    pose proof (weight_monotone (-23) x ltac:(lia)) as Hw.
    pose proof (weight_add (-23) 23 ltac:(lia) ltac:(lia)) as Hw0.
    change (-23 + 23) with 0 in Hw0. change (2 ^ 23) with 8388608 in Hw0.
    pose proof (weight_positive (-23) ltac:(lia)) as W23.
    assert (8388608 * D * total * weight (-23) <= N * total * weight x).
    { assert (8388608 * D <= N) by nia.
      assert (0 < total) by lia.
      assert (8388608 * D * total <= N * total) by nia.
      assert (8388608 * D * total * weight (-23) <= N * total * weight (-23)) by nia.
      assert (0 <= N * total) by nia.
      assert (N * total * weight (-23) <= N * total * weight x) by nia.
      lia. }
    assert (k * D * weight 0 < total * D * weight 0).
    { apply Z.mul_lt_mono_pos_r; [assumption |]. nia. }
    rewrite Hw0 in *. nia. }
  destruct (Z.eq_dec x (-24)) as [-> | Hlow]; [| lia].
  assert (Hfit : round_nearest_even m' l' < 16777216).
  { pose proof (weight_add (-24) 24 ltac:(lia) ltac:(lia)) as Hw0.
    change (-24 + 24) with 0 in Hw0. change (2 ^ 24) with 16777216 in Hw0.
    rewrite Hw0 in Hvalue.
    assert (Hscaled : N * total = k * D * 16777216).
    { apply Z.mul_reg_r with (weight (-24)); [lia |]. rewrite Hvalue. ring. }
    assert (Hk1 : k * 16777216 <= total * 16777215) by nia.
    assert (Htop : N <= 16777215 * D).
    { apply Z.mul_le_mono_pos_r with total; [lia |].
      rewrite Hscaled.
      replace (k * D * 16777216) with (k * 16777216 * D) by ring.
      replace (16777215 * D * total) with (total * 16777215 * D) by ring.
      apply Z.mul_le_mono_nonneg_r; lia. }
    assert (Hmtop : m' <= 16777215).
    { apply Z.mul_le_mono_pos_r with D; [assumption |]. lia. }
    destruct (Z.eq_dec m' 16777215) as [-> | Hne]; [| lia].
    assert (HN : N = 16777215 * D) by lia.
    destruct l' as [| [] ]; cbn [located round_nearest_even] in *; lia. }
  destruct Hcases as [(_ & _ & ->) | (Hcarry & _)]; lia.
Qed.

End Rounding.

(** ** The colour of a ray *)

Section RayColor.

Context {G M H : Type@{scene}}.
Context `{RandomSource G} `{Material M G} `{Hittable H M}.

Variable c : camera.
Variable world : H.

Lemma ray_color_exhausted (r : ray) (depth : Z) (g : G) :
  depth <= 0 -> ray_color c world r depth g = (black, g).
Proof.
  intros Hd. simp ray_color.
  destruct (Z_le_gt_dec depth 0) as [Hle | Hgt]; [reflexivity | lia].
Qed.

Lemma ray_color_step (r : ray) (depth : Z) (g : G) :
  0 < depth ->
  ray_color c world r depth g =
  match hit world r (mk_interval 0.001 infinity) with
  | Some rec =>
      if enable_shadows c then
        match scatter (mat rec) r rec g with
        | (Some (attenuation, scattered), g1) =>
            if enable_reflections c || enable_refractions c then
              let (deeper, g2) := ray_color c world scattered (depth - 1) g1 in
              (Vec3.mul attenuation deeper, g2)
            else (simplified_shading attenuation rec, g1)
        | (None, g1) => (black, g1)
        end
      else (black, g)
  | None => (background r, g)
  end.
Proof.
  intros Hd. simp ray_color.
  destruct (Z_le_gt_dec depth 0) as [Hle | Hgt]; [lia | reflexivity].
Qed.

Lemma ray_color_fuel_enough (fuel : nat) :
  forall (r : ray) (depth : Z) (g : G),
    (Z.to_nat depth < fuel)%nat ->
    ray_color_fuel fuel c world r depth g = Some (ray_color c world r depth g).
Proof.
  induction fuel as [| fuel IH]; intros r depth g Hfuel; [lia |].
  cbn [ray_color_fuel].
  destruct (Z.leb_spec depth 0) as [Hle | Hgt].
  - now rewrite ray_color_exhausted.
  - rewrite (ray_color_step r depth g Hgt).
    destruct (hit world r _) as [rec |]; [| reflexivity].
    destruct (enable_shadows c); [| reflexivity].
    destruct (scatter (mat rec) r rec g) as [[[attenuation scattered] |] g1];
      [| reflexivity].
    destruct (enable_reflections c || enable_refractions c); [| reflexivity].
    rewrite IH by lia.
    now destruct (ray_color c world scattered (depth - 1) g1).
Qed.

End RayColor.

(** ** The bookkeeping of the render loop *)

Section Bookkeeping.

Context {G M H : Type@{scene}}.
Context `{RandomSource G} `{Material M G} `{Hittable H M}.

Variable E : environment.
Variable c : camera.
Variable world : H.
Variable progress0 : spec_float.

Local Abbreviation coherent := (@consistent G E c progress0).

Lemma pixels_done_nonneg (l : list event) : 0 <= pixels_done l.
Proof. induction l as [| [] l IH]; cbn; lia. Qed.

#[local] Instance grows_preorder : PreOrder grows.
Proof.
  split.
  - intros l. now exists [].
  - intros l1 l2 l3 (k1 & -> & Hk1) (k2 & -> & Hk2).
    exists (k2 ++ k1). split; [now rewrite app_assoc |].
    apply Forall_app. now split.
Qed.

Lemma grows_cons (e : event) (l l' : list event) :
  loop_event e -> grows l l' -> grows l (e :: l').
Proof.
  intros He (k & -> & Hk). exists (e :: k). split; [reflexivity |].
  now constructor.
Qed.

Lemma In_grows (e : event) (l l' : list event) :
  grows l l' -> In e l -> In e l'.
Proof. intros (k & -> & _) Hin. apply in_or_app. now right. Qed.

(** Puts the events just logged back on top of a log that grows. *)
Ltac grow := repeat (apply grows_cons; [exact I |]); try reflexivity.

Lemma wf_log_split (after before : list event) (e : event) :
  wf_log E c (after ++ e :: before) -> ok_event E c before e /\ wf_log E c before.
Proof.
  induction after as [| a after IH]; cbn.
  - tauto.
  - intros [_ Hwf]. now apply IH.
Qed.

Lemma consistent_poll (site : poll_site) (st : @state G) :
  coherent st ->
  match site with
  | AtPixel j i => In (EvPoll (AtRow j) false) (log st)
  | AtSample j i _ | AfterSamples j i => In (EvPoll (AtPixel j i) false) (log st)
  | AtRow _ | AtExit => True
  end ->
  coherent (snd (load_should_stop E site st)).
Proof.
  intros [Hwf Hne Hb Hl Ht Hc Hs Hth Hst Hp] Hsite.
  constructor; cbn; try assumption; try congruence.
  split; [split |]; [now rewrite Hl | | assumption].
  destruct site; assumption.
Qed.

Lemma consistent_sample (i j sample : Z) (pixel_color : color) (st : @state G) :
  coherent st ->
  head (log st) = Some (EvPoll (AtSample j i sample) false) ->
  Forall (pixel_behind j i) (log st) ->
  coherent (snd (take_sample c world i j sample pixel_color st)).
Proof.
  intros [Hwf Hne Hb Hl Ht Hc Hs Hth Hst Hp] Hhead Hbehind.
  unfold take_sample.
  destruct (get_ray c i j (rng st)) as [r g1].
  destruct (ray_color c world r (max_depth c) g1) as [sampled g2].
  constructor; cbn; try assumption; try congruence.
  now repeat split.
Qed.

Lemma consistent_row_end (j : Z) (st : @state G) :
  coherent st -> coherent (row_end c j st).
Proof.
  intros Hst. unfold row_end.
  destruct (Z.eqb_spec (Z.rem j (Z.max 1 (Z.quot (image_height c) 20))) 0) as [Hj | Hj];
    [| assumption].
  destruct Hst as [Hwf Hne Hb Hl Ht Hc Hs Hth Hst Hp].
  constructor; cbn; try assumption; try congruence.
  now split.
Qed.

Lemma countdown_next (n : Z) :
  0 <= n ->
  countdown c (Z.to_nat (n + 1)) = float_div (n + 1) (total_pixels c) :: countdown c (Z.to_nat n).
Proof.
  intros Hn. replace (Z.to_nat (n + 1)) with (S (Z.to_nat n)) by lia.
  cbn [countdown]. f_equal. f_equal. lia.
Qed.

Lemma consistent_pixel (i j : Z) (bytes : Z * Z * Z) (st : @state G) :
  coherent st ->
  head (log st) = Some (EvPoll (AfterSamples j i) false) ->
  0 <= i < image_width c -> 0 <= j < image_height c ->
  bytes = pixel_bytes (sampled_sum j i (log st)) (sample_count c) ->
  Forall (pixel_behind j i) (log st) ->
  coherent (after_pixel E c (store_pixel c i j bytes st)).
Proof.
  intros [Hwf Hne Hb Hl Ht Hc Hs Hth Hst Hp] Hhead Hi Hj Hbytes Hbehind.
  destruct bytes as [[r_byte g_byte] b_byte].
  unfold after_pixel. cbn.
  set (done := completed_pixels st + 1).
  set (now := steady_clock_now E (ticks st)).
  assert (Hdone : pixels_done (log st) + 1 = done) by (unfold done; lia).
  assert (Hwf3 : wf_log E c (EvNow now :: EvProgress (float_div done (total_pixels c))
                           :: EvPixel j i r_byte g_byte b_byte :: log st)).
  { cbn. unfold now. rewrite Ht, Hdone.
    repeat split; try assumption; try lia. now exists j, i, r_byte, g_byte, b_byte. }
  assert (Hcount : float_div done (total_pixels c)
                     :: progress_stores (log st)
                   = countdown c (Z.to_nat (pixels_done (log st) + 1))).
  { rewrite countdown_next by apply pixels_done_nonneg.
    rewrite Hdone. now f_equal. }
  destruct ((update_interval <=? now - last_update_time st)
            || (update_frequency c <=? pixels_since_update st + 1)
            || (done =? total_pixels c)) eqn:Hcond.
  - constructor; cbn; try assumption; try congruence; try lia.
    split; [| exact Hwf3].
    rewrite !orb_true_iff in Hcond.
    destruct Hcond as [[Hc1 | Hc2] | Hc3].
    + left. apply Z.leb_le in Hc1. lia.
    + right. left. apply Z.leb_le in Hc2. lia.
    + right. right. apply Z.eqb_eq in Hc3. lia.
  - constructor; cbn; try assumption; try congruence; try lia.
Qed.

Lemma load_fst (site : poll_site) (st : @state G) :
  fst (load_should_stop E site st) = should_stop E (loads st).
Proof. reflexivity. Qed.

Lemma load_log (site : poll_site) (st : @state G) :
  log (snd (load_should_stop E site st))
  = EvPoll site (should_stop E (loads st)) :: log st.
Proof. reflexivity. Qed.

Lemma take_sample_log (i j sample : Z) (pixel_color : color) (st : @state G) :
  exists sampled : color,
    fst (take_sample c world i j sample pixel_color st) = Vec3.add pixel_color sampled
    /\ log (snd (take_sample c world i j sample pixel_color st))
       = EvSample j i sample sampled :: log st.
Proof.
  unfold take_sample.
  destruct (get_ray c i j (rng st)) as [r g1].
  destruct (ray_color c world r (max_depth c) g1) as [sampled g2].
  now exists sampled.
Qed.

Lemma after_pixel_log (i j : Z) (bytes : Z * Z * Z) (st : @state G) :
  grows (log st) (log (after_pixel E c (store_pixel c i j bytes st))).
Proof.
  destruct bytes as [[r_byte g_byte] b_byte]. unfold after_pixel. cbn.
  match goal with |- context [if ?b then _ else _] => destruct b end; cbn.
  - grow.
  - grow.
Qed.

Lemma row_end_log (j : Z) (st : @state G) :
  grows (log st) (log (row_end c j st)).
Proof.
  unfold row_end.
  match goal with |- context [if ?b then _ else _] => destruct b end; cbn.
  - grow.
  - reflexivity.
Qed.

(** *** The order of the pixels *)

Lemma behind_next_pixel (j i : Z) (e : event) : behind j i e -> behind j (i + 1) e.
Proof. destruct e; cbn; lia. Qed.

Lemma behind_next_row (j i : Z) (e : event) : behind j i e -> behind (j + 1) 0 e.
Proof. destruct e; cbn; lia. Qed.

Lemma behind_pixel (j i : Z) (e : event) : behind j i e -> pixel_behind j i e.
Proof. destruct e; cbn; tauto. Qed.

Lemma sampled_sum_behind (j i : Z) (l : list event) :
  Forall (behind j i) l -> sampled_sum j i l = black.
Proof.
  induction 1 as [| e l He _ IH]; [reflexivity |].
  destruct e as [| j' i' sample sampled | | | |]; cbn in *; try assumption.
  replace ((j' =? j) && (i' =? i)) with false; [assumption |].
  symmetry. apply andb_false_iff.
  destruct He as [Hlt | [_ Hlt]]; [left | right]; apply Z.eqb_neq; lia.
Qed.

Lemma after_pixel_behind (i j : Z) (bytes : Z * Z * Z) (st : @state G) :
  Forall (behind j (i + 1)) (log st) ->
  Forall (behind j (i + 1)) (log (after_pixel E c (store_pixel c i j bytes st))).
Proof.
  intros Hbehind.
  destruct bytes as [[r_byte g_byte] b_byte]. unfold after_pixel. cbn.
  match goal with |- context [if ?b then _ else _] => destruct b end; cbn;
    repeat (constructor; [cbn; try exact I; lia |]); assumption.
Qed.

Lemma row_end_behind (j j' : Z) (st : @state G) :
  Forall (behind j' 0) (log st) -> Forall (behind j' 0) (log (row_end c j st)).
Proof.
  intros Hbehind. unfold row_end.
  match goal with |- context [if ?b then _ else _] => destruct b end; cbn;
    [constructor; [exact I |] |]; assumption.
Qed.

(** Inside pixel (i, j): its samples so far add up to [pixel_color], no
    pixel from (i, j) on is written, and nothing of a later pixel is
    logged. *)
Definition sampling (j i : Z) (pixel_color : color) (l : list event) : Prop :=
  Forall (pixel_behind j i) l
  /\ Forall (behind j (i + 1)) l
  /\ pixel_color = sampled_sum j i l.

Lemma sampling_start (j i : Z) (l : list event) :
  Forall (behind j i) l -> sampling j i black l.
Proof.
  intros Hbehind. split; [| split].
  - eapply Forall_impl; [exact Hbehind | apply behind_pixel].
  - eapply Forall_impl; [exact Hbehind | apply behind_next_pixel].
  - symmetry. now apply sampled_sum_behind.
Qed.

Lemma sampling_poll (j i : Z) (pixel_color : color) (l : list event)
  (site : poll_site) (v : bool) :
  sampling j i pixel_color l -> sampling j i pixel_color (EvPoll site v :: l).
Proof.
  intros (Hwritten & Hbehind & Hsum).
  split; [| split]; [now constructor .. | assumption].
Qed.

Lemma sampling_sample (j i sample : Z) (pixel_color sampled : color) (l : list event) :
  sampling j i pixel_color l ->
  sampling j i (Vec3.add pixel_color sampled) (EvSample j i sample sampled :: l).
Proof.
  intros (Hwritten & Hbehind & Hsum).
  split; [| split].
  - now constructor.
  - constructor; [cbn; lia | assumption].
  - cbn. rewrite !Z.eqb_refl. cbn. now rewrite Hsum.
Qed.

(** Closes a case in which the loop adds nothing to the log. *)
Ltac unchanged := split; [assumption | split; [reflexivity | assumption]].

(** Names the result of a poll and records what it did to the log. *)
Ltac poll_step Hco Hsite stop st1 Hstop Hco1 Hlog1 :=
  match goal with
  | |- context [load_should_stop E ?site ?st] =>
      pose proof (consistent_poll site st Hco Hsite) as Hco1;
      pose proof (load_log site st) as Hlog1;
      pose proof (load_fst site st) as Hstop;
      destruct (load_should_stop E site st) as [stop st1];
      cbn [fst snd] in Hco1, Hlog1, Hstop
  end.

Lemma sample_loop_consistent (i j : Z) (fuel : nat) :
  forall (sample : Z) (pixel_color : color) (st : @state G),
    coherent st ->
    In (EvPoll (AtPixel j i) false) (log st) ->
    sampling j i pixel_color (log st) ->
    coherent (snd (sample_loop fuel E c world i j sample pixel_color st))
    /\ grows (log st) (log (snd (sample_loop fuel E c world i j sample pixel_color st)))
    /\ sampling j i (fst (sample_loop fuel E c world i j sample pixel_color st))
         (log (snd (sample_loop fuel E c world i j sample pixel_color st))).
Proof.
  induction fuel as [| fuel IH]; intros sample pixel_color st Hco Hin Hsampling;
    cbn [sample_loop]; [unchanged |].
  destruct (sample <? sample_count c); [| unchanged].
  poll_step Hco Hin stop st1 Hstop Hco1 Hlog1.
  assert (Hsampling1 : sampling j i pixel_color (log st1))
    by (rewrite Hlog1; now apply sampling_poll).
  destruct stop.
  - cbn [fst snd]. split; [assumption |]. split; [| assumption].
    rewrite Hlog1. grow.
  - pose proof (consistent_sample i j sample pixel_color st1 Hco1) as Hco2.
    destruct (take_sample_log i j sample pixel_color st1) as (sampled & Hcolor & Hlog2).
    destruct (take_sample c world i j sample pixel_color st1) as [color2 st2].
    cbn [fst snd] in Hco2, Hlog2, Hcolor.
    assert (Hhead : head (log st1) = Some (EvPoll (AtSample j i sample) false))
      by now rewrite Hlog1, <- Hstop.
    specialize (Hco2 Hhead (proj1 Hsampling1)).
    destruct (IH (sample + 1) color2 st2 Hco2) as (Hco3 & Hsuf & Hsampling3).
    { rewrite Hlog2, Hlog1. now do 2 right. }
    { rewrite Hlog2, Hcolor. now apply sampling_sample. }
    split; [assumption |]. split; [| assumption].
    etransitivity; [| exact Hsuf].
    rewrite Hlog2, Hlog1. grow.
Qed.

Lemma pixel_body_consistent (i j : Z) (st : @state G) :
  coherent st ->
  In (EvPoll (AtPixel j i) false) (log st) ->
  0 <= i < image_width c -> 0 <= j < image_height c ->
  Forall (behind j i) (log st) ->
  coherent (snd (pixel_body E c world i j st))
  /\ grows (log st) (log (snd (pixel_body E c world i j st)))
  /\ Forall (behind j (i + 1)) (log (snd (pixel_body E c world i j st))).
Proof.
  intros Hco Hin Hi Hj Hbehind. unfold pixel_body.
  destruct (sample_loop_consistent i j (S (Z.to_nat (sample_count c))) 0 black st Hco Hin)
    as (Hco1 & Hsuf1 & Hsampling1); [now apply sampling_start |].
  destruct (sample_loop _ E c world i j 0 black st) as [pixel_color st1].
  cbn [fst snd] in Hco1, Hsuf1, Hsampling1.
  assert (Hin1 : In (EvPoll (AtPixel j i) false) (log st1))
    by (eapply In_grows; eassumption).
  poll_step Hco1 Hin1 stop st2 Hstop Hco2 Hlog2.
  assert (Hsuf2 : grows (log st) (log st2)).
  { etransitivity; [exact Hsuf1 |]. rewrite Hlog2. grow. }
  assert (Hsampling2 : sampling j i pixel_color (log st2))
    by (rewrite Hlog2; now apply sampling_poll).
  destruct Hsampling2 as (Hwritten & Hbehind2 & Hsum).
  destruct stop; cbn [snd]; [split; [| split]; assumption |].
  split; [| split].
  - apply consistent_pixel; try assumption; [| now rewrite Hsum].
    now rewrite Hlog2, <- Hstop.
  - etransitivity; [exact Hsuf2 | apply after_pixel_log].
  - now apply after_pixel_behind.
Qed.

Lemma pixel_loop_consistent (j : Z) (fuel : nat) :
  forall (i : Z) (st : @state G),
    coherent st ->
    In (EvPoll (AtRow j) false) (log st) ->
    0 <= i -> 0 <= j < image_height c ->
    Forall (behind j i) (log st) ->
    coherent (pixel_loop fuel E c world i j st)
    /\ grows (log st) (log (pixel_loop fuel E c world i j st))
    /\ Forall (behind (j + 1) 0) (log (pixel_loop fuel E c world i j st)).
Proof.
  induction fuel as [| fuel IH]; intros i st Hco Hin Hi Hj Hbehind;
    assert (Hrow : Forall (behind (j + 1) 0) (log st))
      by (eapply Forall_impl; [exact Hbehind | apply behind_next_row]);
    cbn [pixel_loop]; [unchanged |].
  destruct (Z.ltb_spec i (image_width c)) as [Hlt | Hge]; [| unchanged].
  poll_step Hco Hin stop st1 Hstop Hco1 Hlog1.
  assert (Hsuf1 : grows (log st) (log st1))
    by (rewrite Hlog1; grow).
  destruct stop.
  { split; [assumption |]. split; [assumption |]. rewrite Hlog1. now constructor. }
  destruct (pixel_body_consistent i j st1 Hco1) as (Hco2 & Hsuf2 & Hbehind2); try lia.
  { rewrite Hlog1, <- Hstop. now left. }
  { rewrite Hlog1. now constructor. }
  destruct (pixel_body E c world i j st1) as [broke st2].
  cbn [snd] in Hco2, Hsuf2, Hbehind2.
  assert (Hsuf : grows (log st) (log st2)) by (etransitivity; eassumption).
  destruct broke.
  { split; [assumption |]. split; [assumption |].
    eapply Forall_impl; [exact Hbehind2 | apply behind_next_row]. }
  destruct (IH (i + 1) st2 Hco2) as (Hco3 & Hsuf3 & Hbehind3); try lia; try assumption.
  { eapply In_grows; eassumption. }
  split; [assumption |]. split; [etransitivity; eassumption | assumption].
Qed.

Lemma row_loop_consistent (fuel : nat) :
  forall (j : Z) (st : @state G),
    coherent st -> 0 <= j ->
    Forall (behind j 0) (log st) ->
    coherent (row_loop fuel E c world j st)
    /\ grows (log st) (log (row_loop fuel E c world j st)).
Proof.
  induction fuel as [| fuel IH]; intros j st Hco Hj Hbehind;
    cbn [row_loop]; [now split |].
  destruct (Z.ltb_spec j (image_height c)) as [Hlt | Hge]; [| now split].
  poll_step Hco I stop st1 Hstop Hco1 Hlog1.
  assert (Hsuf1 : grows (log st) (log st1))
    by (rewrite Hlog1; grow).
  destruct stop; [now split |].
  destruct (pixel_loop_consistent j (S (Z.to_nat (image_width c))) 0 st1 Hco1)
    as (Hco2 & Hsuf2 & Hbehind2); try lia.
  { rewrite Hlog1, <- Hstop. now left. }
  { rewrite Hlog1. now constructor. }
  pose proof (consistent_row_end j _ Hco2) as Hco3.
  destruct (IH (j + 1) _ Hco3) as [Hco4 Hsuf4]; [lia | now apply row_end_behind |].
  split; [assumption |].
  etransitivity; [exact Hsuf1 |]. etransitivity; [exact Hsuf2 |].
  etransitivity; [apply row_end_log | exact Hsuf4].
Qed.

End Bookkeeping.

(** ** The pixels of the render loop *)

Section Pixels.

Context {G M H : Type@{scene}}.
Context `{RandomSource G} `{Material M G} `{Hittable H M}.

Variable E : environment.
Variable c : camera.
Variable world : H.
Variable g0 : G.

Hypothesis flag_set_once : set_once E.

Local Abbreviation painted' := (@painted G M H _ _ _ E c world g0).
Local Abbreviation at_pixel' := (@at_pixel G M H _ _ _ E c world g0).

Lemma stopped_dec (st : @state G) : stopped E st \/ ~ stopped E st.
Proof.
  unfold stopped. induction (loads st) as [| n IH].
  - right. intros [m [Hm _]]. lia.
  - destruct IH as [[m [Hm Hs]] | Hno].
    + left. exists m. split; [lia | assumption].
    + destruct (should_stop E n) eqn:Hn.
      * left. exists n. split; [lia | assumption].
      * right. intros [m [Hm Hs]].
        destruct (Nat.eq_dec m n) as [-> | Hne]; [congruence |].
        apply Hno. exists m. split; [lia | assumption].
Qed.

Lemma stopped_next_poll (st : @state G) :
  stopped E st -> should_stop E (loads st) = true.
Proof.
  intros [m [Hm Hs]]. apply (flag_set_once m); [lia | assumption].
Qed.

Lemma stopped_load (site : poll_site) (st : @state G) :
  stopped E (snd (load_should_stop E site st))
  <-> stopped E st \/ should_stop E (loads st) = true.
Proof.
  unfold stopped. cbn. split.
  - intros [m [Hm Hs]]. destruct (Nat.eq_dec m (loads st)) as [-> | Hne].
    + now right.
    + left. exists m. split; [lia | assumption].
  - intros [[m [Hm Hs]] | Hs].
    + exists m. split; [lia | assumption].
    + exists (loads st). split; [lia | assumption].
Qed.

Lemma frame_length (n : nat) : length (fst (frame n c world g0)) = (3 * n)%nat.
Proof.
  induction n as [| n IH]; [reflexivity |].
  cbn [frame]. destruct (frame n c world g0) as [done g].
  destruct (render_pixel c world _ _ g) as [[[r_byte g_byte] b_byte] g'].
  cbn [fst] in *. rewrite length_app, IH. cbn. lia.
Qed.

Lemma insert_three (l : list Z) (k : nat) (r_byte g_byte b_byte : Z) :
  (3 <= k)%nat ->
  <[(length l + 2)%nat := b_byte]>
    (<[(length l + 1)%nat := g_byte]>
       (<[length l := r_byte]> (l ++ replicate k 0)))
  = (l ++ [r_byte; g_byte; b_byte]) ++ replicate (k - 3) 0.
Proof.
  intros Hk. destruct k as [| [| [| k]]]; try lia.
  replace (length l) with (length l + 0)%nat at 3 by lia.
  rewrite !insert_app_r. cbn. rewrite Nat.sub_0_r, <- app_assoc. reflexivity.
Qed.

Lemma painted_same (st st' : @state G) :
  painted' st ->
  buffer st' = buffer st ->
  completed_pixels st' = completed_pixels st ->
  (stopped E st' ->
   completed_pixels st < total_pixels c \/ completed_pixels st = 0) ->
  painted' st'.
Proof.
  intros [Hbuf Hstop] Hb Hc Hs. constructor.
  - now rewrite Hb, Hc.
  - rewrite Hc. assumption.
Qed.

Lemma at_pixel_bound (st : @state G) (i j : Z) :
  at_pixel' st i j ->
  0 <= i < image_width c -> 0 <= j < image_height c ->
  completed_pixels st < total_pixels c.
Proof.
  intros (_ & Hc & _) Hi Hj. rewrite Hc. unfold total_pixels. nia.
Qed.

Lemma take_sample_fields (i j sample : Z) (pixel_color : color) (st : @state G) :
  let st' := snd (take_sample c world i j sample pixel_color st) in
  buffer st' = buffer st /\ completed_pixels st' = completed_pixels st /\
  loads st' = loads st.
Proof.
  unfold take_sample.
  destruct (get_ray c i j (rng st)) as [r g1].
  now destruct (ray_color c world r (max_depth c) g1).
Qed.

Lemma take_sample_sum (n : nat) (i j sample : Z) (pixel_color : color) (st : @state G) :
  sample_sum (S n) c world i j pixel_color (rng st)
  = sample_sum n c world i j
      (fst (take_sample c world i j sample pixel_color st))
      (rng (snd (take_sample c world i j sample pixel_color st))).
Proof.
  cbn [sample_sum]. unfold take_sample.
  destruct (get_ray c i j (rng st)) as [r g1].
  now destruct (ray_color c world r (max_depth c) g1).
Qed.

Lemma sample_loop_pixels (i j : Z) (fuel : nat) :
  forall (sample : Z) (pixel_color : color) (st : @state G),
    (Z.to_nat (sample_count c - sample) < fuel)%nat ->
    let result := sample_loop fuel E c world i j sample pixel_color st in
    buffer (snd result) = buffer st /\
    completed_pixels (snd result) = completed_pixels st /\
    (stopped E st -> stopped E (snd result)) /\
    (~ stopped E (snd result) ->
     (fst result, rng (snd result))
     = sample_sum (Z.to_nat (sample_count c - sample)) c world i j
         pixel_color (rng st)).
Proof.
  induction fuel as [| fuel IH]; intros sample pixel_color st Hfuel; [lia |].
  cbn [sample_loop].
  destruct (Z.ltb_spec sample (sample_count c)) as [Hlt | Hge].
  - pose proof (stopped_load (AtSample j i sample) st) as Hst1.
    pose proof (load_fst E (AtSample j i sample) st) as Hv.
    assert (Hf : buffer (snd (load_should_stop E (AtSample j i sample) st)) = buffer st
                 /\ completed_pixels (snd (load_should_stop E (AtSample j i sample) st))
                    = completed_pixels st
                 /\ rng (snd (load_should_stop E (AtSample j i sample) st)) = rng st)
      by (now cbn).
    destruct (load_should_stop E (AtSample j i sample) st) as [stop st1].
    cbn [fst snd] in Hst1, Hv, Hf. destruct Hf as (Hb1 & Hc1 & Hg1).
    destruct stop; cbn [fst snd].
    + repeat split; try assumption.
      * intros _. apply Hst1. now right.
      * intros Hno. exfalso. apply Hno, Hst1. now right.
    + pose proof (take_sample_fields i j sample pixel_color st1) as (Hb2 & Hc2 & Hl2).
      pose proof (take_sample_sum (Z.to_nat (sample_count c - (sample + 1))) i j sample
                    pixel_color st1) as Hsum.
      destruct (take_sample c world i j sample pixel_color st1) as [color2 st2].
      cbn [fst snd] in Hb2, Hc2, Hl2, Hsum.
      specialize (IH (sample + 1) color2 st2 ltac:(lia)).
      cbn zeta in IH. destruct IH as (Hb3 & Hc3 & Hs3 & Hsum3).
      repeat split; try congruence.
      * intros Hs. apply Hs3. unfold stopped. rewrite Hl2.
        apply Hst1. now left.
      * intros Hno. rewrite (Hsum3 Hno), <- Hsum, Hg1.
        f_equal. lia.
  - cbn [fst snd]. repeat split; try tauto.
    intros _. replace (Z.to_nat (sample_count c - sample)) with O by lia.
    reflexivity.
Qed.

Lemma after_pixel_fields (st : @state G) :
  buffer (after_pixel E c st) = buffer st /\
  rng (after_pixel E c st) = rng st /\
  loads (after_pixel E c st) = loads st /\
  completed_pixels (after_pixel E c st) = completed_pixels st + 1.
Proof.
  unfold after_pixel. cbn.
  match goal with |- context [if ?b then _ else _] => destruct b end; now cbn.
Qed.

Lemma row_major (i j : Z) :
  0 <= i < image_width c ->
  (j * image_width c + i) mod image_width c = i /\
  (j * image_width c + i) / image_width c = j.
Proof.
  intros Hi. split; symmetry.
  - apply (Z.mod_unique _ _ j); [left; lia | ring].
  - apply (Z.div_unique _ _ _ i); [left; lia | ring].
Qed.

Lemma frame_next (i j : Z) :
  0 <= i < image_width c -> 0 <= j ->
  frame (S (Z.to_nat (j * image_width c + i))) c world g0
  = (fst (frame (Z.to_nat (j * image_width c + i)) c world g0)
       ++ (let '(r_byte, g_byte, b_byte) :=
             fst (render_pixel c world i j
                    (snd (frame (Z.to_nat (j * image_width c + i)) c world g0))) in
           [r_byte; g_byte; b_byte]),
     snd (render_pixel c world i j
            (snd (frame (Z.to_nat (j * image_width c + i)) c world g0)))).
Proof.
  intros Hi Hj. cbn [frame].
  destruct (frame (Z.to_nat (j * image_width c + i)) c world g0) as [done g].
  rewrite Z2Nat.id by nia.
  destruct (row_major i j Hi) as [-> ->]. cbn [fst snd].
  now destruct (render_pixel c world i j g) as [[[r_byte g_byte] b_byte] g'].
Qed.

Lemma pixel_body_pixels (i j : Z) (st : @state G) :
  painted' st -> at_pixel' st i j ->
  0 <= i < image_width c -> 0 <= j < image_height c ->
  painted' (snd (pixel_body E c world i j st)) /\
  (fst (pixel_body E c world i j st) = true ->
   stopped E (snd (pixel_body E c world i j st))) /\
  (fst (pixel_body E c world i j st) = false ->
   at_pixel' (snd (pixel_body E c world i j st)) (i + 1) j).
Proof.
  intros Hpaint Hat Hi Hj.
  pose proof (at_pixel_bound st i j Hat Hi Hj) as Hbound.
  destruct Hat as (Hlive & Hdone & Hrng).
  unfold pixel_body.
  pose proof (sample_loop_pixels i j (S (Z.to_nat (sample_count c))) 0 black st
                ltac:(lia)) as Hloop.
  cbn zeta in Hloop.
  destruct (sample_loop _ E c world i j 0 black st) as [pixel_color st1].
  cbn [fst snd] in Hloop. destruct Hloop as (Hb1 & Hc1 & _ & Hsum).
  pose proof (stopped_load (AfterSamples j i) st1) as Hst2.
  pose proof (load_fst E (AfterSamples j i) st1) as Hv.
  assert (Hf : buffer (snd (load_should_stop E (AfterSamples j i) st1)) = buffer st1
               /\ completed_pixels (snd (load_should_stop E (AfterSamples j i) st1))
                  = completed_pixels st1
               /\ rng (snd (load_should_stop E (AfterSamples j i) st1)) = rng st1)
    by (now cbn).
  destruct (load_should_stop E (AfterSamples j i) st1) as [stop st2].
  cbn [fst snd] in Hst2, Hv, Hf. destruct Hf as (Hb2 & Hc2 & Hg2).
  destruct stop; cbn [fst snd].
  - split; [| split; [| discriminate]].
    + apply (painted_same st); [assumption | congruence | congruence | now left].
    + intros _. apply Hst2. now right.
  - assert (Hlive1 : ~ stopped E st1).
    { intros Hs. apply stopped_next_poll in Hs. congruence. }
    assert (Hlive2 : ~ stopped E st2).
    { intros Hs. apply Hst2 in Hs. destruct Hs as [Hs | Hs]; [tauto | congruence]. }
    specialize (Hsum Hlive1). rewrite Z.sub_0_r in Hsum.
    set (n := Z.to_nat (j * image_width c + i)) in *.
    pose proof (frame_next i j Hi ltac:(lia)) as Hnext. fold n in Hnext.
    unfold render_pixel in Hnext. rewrite <- Hrng, <- Hsum in Hnext.
    cbn [fst snd] in Hnext.
    destruct (pixel_bytes pixel_color (sample_count c)) as [[r_byte g_byte] b_byte].
    set (st3 := store_pixel c i j (r_byte, g_byte, b_byte) st2).
    destruct (after_pixel_fields st3) as (Hb4 & Hg4 & Hl4 & Hc4).
    assert (Hlive4 : ~ stopped E (after_pixel E c st3)).
    { unfold stopped. rewrite Hl4. exact Hlive2. }
    assert (Hk : 0 <= j * image_width c + i) by nia.
    assert (Hn : (n < Z.to_nat (total_pixels c))%nat) by (unfold n; lia).
    assert (Hcount : completed_pixels (after_pixel E c st3) = Z.of_nat (S n)).
    { rewrite Hc4. subst st3. cbn. unfold n. lia. }
    split; [| split; [discriminate |]].
    + constructor; [| tauto].
      exists (S n). split; [assumption |]. split; [lia |].
      rewrite Hb4. subst st3. cbn [store_pixel buffer].
      destruct Hpaint as [(n' & Hn' & _ & Hbuf) _].
      assert (n' = n) by (unfold n; lia). subst n'.
      rewrite Hb2, Hb1, Hbuf. unfold partial_image. rewrite Hnext. cbn [fst].
      pose proof (frame_length n) as Hlen.
      replace (Z.to_nat ((j * image_width c + i) * 3))
        with (length (fst (frame n c world g0))) by (rewrite Hlen; unfold n; lia).
      replace (Z.to_nat ((j * image_width c + i) * 3 + 1))
        with (length (fst (frame n c world g0)) + 1)%nat by (rewrite Hlen; unfold n; lia).
      replace (Z.to_nat ((j * image_width c + i) * 3 + 2))
        with (length (fst (frame n c world g0)) + 2)%nat by (rewrite Hlen; unfold n; lia).
      rewrite insert_three by lia. f_equal. f_equal. lia.
    + intros _. split; [assumption |]. split.
      * rewrite Hcount. unfold n. lia.
      * rewrite Hg4. subst st3. cbn [store_pixel rng]. rewrite Hg2.
        replace (Z.to_nat (j * image_width c + (i + 1))) with (S n) by (unfold n; lia).
        rewrite Hnext. reflexivity.
Qed.

Lemma poll_pixels (site : poll_site) (st : @state G) :
  painted' st ->
  (~ stopped E st ->
   completed_pixels st < total_pixels c \/ completed_pixels st = 0) ->
  painted' (snd (load_should_stop E site st)).
Proof.
  intros Hpaint Hroom. apply (painted_same st); try reflexivity; [assumption |].
  intros _. destruct (stopped_dec st) as [Hs | Hs].
  - now apply (painted_stopped _ _ _ _ _ Hpaint).
  - now apply Hroom.
Qed.

Lemma pixel_loop_pixels (j : Z) (fuel : nat) :
  forall (i : Z) (st : @state G),
    painted' st -> at_pixel' st i j ->
    0 <= i <= image_width c -> 0 <= j < image_height c ->
    (Z.to_nat (image_width c - i) < fuel)%nat ->
    painted' (pixel_loop fuel E c world i j st) /\
    (~ stopped E (pixel_loop fuel E c world i j st) ->
     at_pixel' (pixel_loop fuel E c world i j st) (image_width c) j).
Proof.
  induction fuel as [| fuel IH]; intros i st Hpaint Hat Hi Hj Hfuel; [lia |].
  cbn [pixel_loop].
  destruct (Z.ltb_spec i (image_width c)) as [Hlt | Hge].
  - pose proof (poll_pixels (AtPixel j i) st Hpaint) as Hpaint1.
    pose proof (stopped_load (AtPixel j i) st) as Hst1.
    pose proof (load_fst E (AtPixel j i) st) as Hv.
    assert (Hf : completed_pixels (snd (load_should_stop E (AtPixel j i) st))
                 = completed_pixels st
                 /\ rng (snd (load_should_stop E (AtPixel j i) st)) = rng st)
      by (now cbn).
    destruct (load_should_stop E (AtPixel j i) st) as [stop st1].
    cbn [fst snd] in Hpaint1, Hst1, Hv, Hf. destruct Hf as (Hc1 & Hg1).
    specialize (Hpaint1 ltac:(intros _; left;
                                apply (at_pixel_bound st i j Hat); lia)).
    destruct stop.
    + split; [assumption |]. intros Hno. exfalso. apply Hno, Hst1. now right.
    + assert (Hat1 : at_pixel' st1 i j).
      { destruct Hat as (Hlive & Hdone & Hrng). split; [| split; congruence].
        intros Hs. apply Hst1 in Hs. destruct Hs as [Hs | Hs]; [tauto | congruence]. }
      pose proof (pixel_body_pixels i j st1 Hpaint1 Hat1 ltac:(lia) Hj)
        as (Hpaint2 & Hbroke & Hnext).
      destruct (pixel_body E c world i j st1) as [broke st2].
      cbn [fst snd] in Hpaint2, Hbroke, Hnext.
      destruct broke.
      * split; [assumption |]. intros Hno. exfalso. now apply Hno, Hbroke.
      * apply IH; try assumption; try lia. now apply Hnext.
  - split; [assumption |]. intros _.
    now replace (image_width c) with i by lia.
Qed.

Lemma row_end_pixels (j : Z) (st : @state G) :
  buffer (row_end c j st) = buffer st /\
  completed_pixels (row_end c j st) = completed_pixels st /\
  rng (row_end c j st) = rng st /\
  loads (row_end c j st) = loads st.
Proof.
  unfold row_end.
  match goal with |- context [if ?b then _ else _] => destruct b end; now cbn.
Qed.

Lemma row_loop_pixels (fuel : nat) :
  forall (j : Z) (st : @state G),
    painted' st -> (~ stopped E st -> at_pixel' st 0 j) ->
    0 <= image_width c ->
    0 <= j <= image_height c ->
    (Z.to_nat (image_height c - j) < fuel)%nat ->
    painted' (row_loop fuel E c world j st) /\
    (~ stopped E (row_loop fuel E c world j st) ->
     at_pixel' (row_loop fuel E c world j st) 0 (image_height c)).
Proof.
  induction fuel as [| fuel IH]; intros j st Hpaint Hat Hw Hj Hfuel; [lia |].
  cbn [row_loop].
  destruct (Z.ltb_spec j (image_height c)) as [Hlt | Hge].
  - pose proof (poll_pixels (AtRow j) st Hpaint) as Hpaint1.
    pose proof (stopped_load (AtRow j) st) as Hst1.
    pose proof (load_fst E (AtRow j) st) as Hv.
    assert (Hf : completed_pixels (snd (load_should_stop E (AtRow j) st))
                 = completed_pixels st
                 /\ rng (snd (load_should_stop E (AtRow j) st)) = rng st)
      by (now cbn).
    destruct (load_should_stop E (AtRow j) st) as [stop st1].
    cbn [fst snd] in Hpaint1, Hst1, Hv, Hf. destruct Hf as (Hc1 & Hg1).
    assert (Hroom : ~ stopped E st ->
                    completed_pixels st < total_pixels c \/ completed_pixels st = 0).
    { intros Hlive. destruct (Hat Hlive) as (_ & Hdone & _).
      rewrite Hdone. unfold total_pixels. nia. }
    specialize (Hpaint1 Hroom).
    destruct stop.
    + split; [assumption |]. intros Hno. exfalso. apply Hno, Hst1. now right.
    + assert (Hlive : ~ stopped E st).
      { intros Hs. apply stopped_next_poll in Hs. congruence. }
      assert (Hat1 : at_pixel' st1 0 j).
      { destruct (Hat Hlive) as (_ & Hdone & Hrng). split; [| split; congruence].
        intros Hs. apply Hst1 in Hs. destruct Hs as [Hs | Hs]; [tauto | congruence]. }
      pose proof (pixel_loop_pixels j (S (Z.to_nat (image_width c))) 0 st1
                    Hpaint1 Hat1 ltac:(lia) ltac:(lia) ltac:(lia))
        as (Hpaint2 & Hat2).
      set (st2 := pixel_loop (S (Z.to_nat (image_width c))) E c world 0 j st1) in *.
      destruct (row_end_pixels j st2) as (Hb3 & Hc3 & Hg3 & Hl3).
      apply IH; try lia.
      * apply (painted_same st2); try assumption.
        intros Hs. apply (painted_stopped _ _ _ _ _ Hpaint2).
        unfold stopped in *. now rewrite <- Hl3.
      * intros Hno.
        assert (Hno2 : ~ stopped E st2) by (unfold stopped in *; now rewrite <- Hl3).
        destruct (Hat2 Hno2) as (_ & Hdone & Hrng).
        split; [assumption |].
        replace ((j + 1) * image_width c + 0) with (j * image_width c + image_width c)
          by ring.
        split; congruence.
  - split; [assumption |]. intros Hlive.
    replace (image_height c) with j by lia. now apply Hat.
Qed.

End Pixels.

(** ** A whole call of the render worker *)

Section Render.

Context {G M H : Type@{scene}}.
Context `{RandomSource G} `{Material M G} `{Hittable H M}.

Variable tan : float -> float.


Lemma initialize_height (c : camera) :
  image_height (initialize tan c)
  = Z.max 1 (Num.to_int (Num.of_int (image_width c) / aspect_ratio c)%float).
Proof.
  cbn [initialize image_height].
  destruct (Z.ltb_spec (Num.to_int (Num.of_int (image_width c) / aspect_ratio c)%float) 1); lia.
Qed.

Lemma resize_fill (n : nat) (l : list Z) : fill (resize n l) 0 = replicate n 0.
Proof.
  unfold fill, resize. f_equal.
  rewrite length_app, length_take, length_replicate. lia.
Qed.

Lemma poll_seen (E : environment) (c : camera) (l : list event) (site : poll_site) :
  wf_log E c l -> In (EvPoll site true) l ->
  exists m : nat, (m < polls l)%nat /\ should_stop E m = true.
Proof.
  induction l as [| e l IH]; intros Hwf Hin; [contradiction |].
  destruct Hwf as [Hok Hwf]. destruct Hin as [-> | Hin].
  - destruct Hok as [Hv _]. exists (polls l). cbn. split; [lia | congruence].
  - destruct (IH Hwf Hin) as (m & Hm & Hs). exists m.
    split; [| assumption]. destruct e; cbn; lia.
Qed.

(** What a call that returns leaves behind: the state [st_loop] in which
    the row loop ended, and the last read of the flag (line 133). *)
Lemma render_returned (E : environment) (c : camera) (world : H)
  (buffer0 : list Z) (progress0 : spec_float) (texture0 : bool) (g0 : G)
  (c' : camera) (st : @state G) :
  render_to_buffer_with_progress tan E c world buffer0 progress0 texture0 g0
  = Returned c' st ->
  c' = initialize tan c /\
  0 <= image_width c' /\
  exists st_loop : @state G,
    st = snd (load_should_stop E AtExit st_loop) /\
    consistent E c' progress0 st_loop /\
    Forall loop_event (log st_loop) /\
    (set_once E ->
     painted E c' world g0 st_loop /\
     (~ stopped E st_loop -> at_pixel E c' world g0 st_loop 0 (image_height c'))).
Proof.
  unfold render_to_buffer_with_progress.
  set (ci := initialize tan c).
  destruct (Z.ltb_spec (image_width ci * image_height ci * 3) 0) as [Hneg | Hsize];
    [discriminate |].
  assert (Hh : 1 <= image_height ci) by (unfold ci; rewrite initialize_height; lia).
  assert (Hw : 0 <= image_width ci) by nia.
  set (st0 := before_loops E _ buffer0 progress0 texture0 g0).
  cbn zeta. intros Hret. injection Hret as <- <-.
  split; [reflexivity |]. split; [assumption |].
  exists (row_loop (S (Z.to_nat (image_height ci))) E ci world 0 st0).
  split; [reflexivity |].
  assert (Hco0 : consistent E ci progress0 st0).
  { constructor; try reflexivity; try discriminate.
    - cbn. tauto.
    - apply resize_fill. }
  assert (Hbehind0 : Forall (behind 0 0) (log st0))
    by (repeat constructor).
  destruct (row_loop_consistent E ci world progress0
              (S (Z.to_nat (image_height ci))) 0 st0 Hco0 ltac:(lia) Hbehind0)
    as [Hco (newer & Hnewer & Hloop)].
  split; [assumption |]. split.
  - rewrite Hnewer. apply Forall_app. split; [assumption |].
    repeat constructor.
  - intros Honce.
    assert (Hlive0 : ~ stopped E st0).
    { intros [m [Hm _]]. cbn in Hm. lia. }
    apply row_loop_pixels; try assumption; try lia.
    + constructor; [| tauto].
      exists O. cbn. split; [reflexivity |]. split; [lia |].
      rewrite resize_fill.
      unfold partial_image, total_pixels. cbn. f_equal. lia.
    + intros _. split; [assumption |]. now cbn.
Qed.

End Render.

(** ** The log only grows, and what a row adds to it *)

Section Extends.

Context {G M H : Type@{scene}}.
Context `{RandomSource G} `{Material M G} `{Hittable H M}.

Variable E : environment.
Variable c : camera.
Variable world : H.

#[local] Instance extends_preorder : PreOrder (@extends G).
Proof.
  split.
  - intros st. now exists [].
  - intros st1 st2 st3 [k1 Hk1] [k2 Hk2]. exists (k2 ++ k1).
    now rewrite Hk2, Hk1, app_assoc.
Qed.

Lemma poll_extends (site : poll_site) (st : @state G) :
  extends st (snd (load_should_stop E site st)).
Proof. now exists [EvPoll site (should_stop E (loads st))]. Qed.

Lemma sample_extends (i j sample : Z) (pixel_color : color) (st : @state G) :
  extends st (snd (take_sample c world i j sample pixel_color st)).
Proof.
  unfold take_sample.
  destruct (get_ray c i j (rng st)) as [r g1].
  destruct (ray_color c world r (max_depth c) g1) as [sampled g2].
  now exists [EvSample j i sample sampled].
Qed.

Lemma pixel_extends (i j : Z) (bytes : Z * Z * Z) (st : @state G) :
  extends st (after_pixel E c (store_pixel c i j bytes st)).
Proof.
  destruct bytes as [[r_byte g_byte] b_byte]. unfold after_pixel. cbn.
  match goal with |- context [if ?b then _ else _] => destruct b end.
  - now exists [EvRaise AfterPixel; EvNow (steady_clock_now E (ticks st));
                EvProgress (float_div (completed_pixels st + 1) (total_pixels c));
                EvPixel j i r_byte g_byte b_byte].
  - now exists [EvNow (steady_clock_now E (ticks st));
                EvProgress (float_div (completed_pixels st + 1) (total_pixels c));
                EvPixel j i r_byte g_byte b_byte].
Qed.

Lemma row_end_extends (j : Z) (st : @state G) : extends st (row_end c j st).
Proof.
  unfold row_end. destruct (Z.rem j _ =? 0); [| reflexivity].
  now exists [EvRaise (RowEnd j)].
Qed.

Lemma sample_loop_extends (i j : Z) (fuel : nat) :
  forall (sample : Z) (pixel_color : color) (st : @state G),
    extends st (snd (sample_loop fuel E c world i j sample pixel_color st)).
Proof.
  induction fuel as [| fuel IH]; intros sample pixel_color st;
    cbn [sample_loop]; [reflexivity |].
  destruct (sample <? sample_count c); [| reflexivity].
  pose proof (poll_extends (AtSample j i sample) st) as Hpoll.
  destruct (load_should_stop E (AtSample j i sample) st) as [stop st1].
  cbn [snd] in Hpoll. destruct stop; [exact Hpoll |].
  pose proof (sample_extends i j sample pixel_color st1) as Hsample.
  destruct (take_sample c world i j sample pixel_color st1) as [color2 st2].
  cbn [snd] in Hsample.
  etransitivity; [exact Hpoll |]. etransitivity; [exact Hsample | apply IH].
Qed.

Lemma pixel_body_extends (i j : Z) (st : @state G) :
  extends st (snd (pixel_body E c world i j st)).
Proof.
  unfold pixel_body.
  pose proof (sample_loop_extends i j (S (Z.to_nat (sample_count c))) 0 black st) as Hloop.
  destruct (sample_loop _ E c world i j 0 black st) as [pixel_color st1].
  cbn [snd] in Hloop.
  pose proof (poll_extends (AfterSamples j i) st1) as Hpoll.
  destruct (load_should_stop E (AfterSamples j i) st1) as [stop st2].
  cbn [snd] in Hpoll.
  destruct stop; cbn [snd]; (etransitivity; [exact Hloop |]); [exact Hpoll |].
  etransitivity; [exact Hpoll | apply pixel_extends].
Qed.

Lemma pixel_loop_extends (j : Z) (fuel : nat) :
  forall (i : Z) (st : @state G), extends st (pixel_loop fuel E c world i j st).
Proof.
  induction fuel as [| fuel IH]; intros i st; cbn [pixel_loop]; [reflexivity |].
  destruct (i <? image_width c); [| reflexivity].
  pose proof (poll_extends (AtPixel j i) st) as Hpoll.
  destruct (load_should_stop E (AtPixel j i) st) as [stop st1].
  cbn [snd] in Hpoll. destruct stop; [exact Hpoll |].
  pose proof (pixel_body_extends i j st1) as Hbody.
  destruct (pixel_body E c world i j st1) as [broke st2].
  cbn [snd] in Hbody.
  destruct broke; (etransitivity; [exact Hpoll |]); [exact Hbody |].
  etransitivity; [exact Hbody | apply IH].
Qed.

Lemma row_loop_extends (fuel : nat) :
  forall (j : Z) (st : @state G), extends st (row_loop fuel E c world j st).
Proof.
  induction fuel as [| fuel IH]; intros j st; cbn [row_loop]; [reflexivity |].
  destruct (j <? image_height c); [| reflexivity].
  pose proof (poll_extends (AtRow j) st) as Hpoll.
  destruct (load_should_stop E (AtRow j) st) as [stop st1].
  cbn [snd] in Hpoll. destruct stop; [exact Hpoll |].
  etransitivity; [exact Hpoll |].
  etransitivity; [apply (pixel_loop_extends j) |].
  etransitivity; [apply (row_end_extends j) | apply IH].
Qed.

#[local] Instance extends_inside_preorder : PreOrder (@extends_inside G).
Proof.
  split.
  - intros st. exists []. now split.
  - intros st1 st2 st3 [k1 [Hk1 Hin1]] [k2 [Hk2 Hin2]]. exists (k2 ++ k1). split.
    + now rewrite Hk2, Hk1, app_assoc.
    + apply Forall_app. now split.
Qed.

Lemma inside_extends (st st' : @state G) : extends_inside st st' -> extends st st'.
Proof. intros [newer [Hnewer _]]. now exists newer. Qed.

Lemma poll_inside (site : poll_site) (st : @state G) :
  (forall stop : bool, inner (EvPoll site stop)) ->
  extends_inside st (snd (load_should_stop E site st)).
Proof.
  intros Hsite. exists [EvPoll site (should_stop E (loads st))].
  split; [reflexivity |]. constructor; [apply Hsite | constructor].
Qed.

Lemma sample_inside (i j sample : Z) (pixel_color : color) (st : @state G) :
  extends_inside st (snd (take_sample c world i j sample pixel_color st)).
Proof.
  unfold take_sample.
  destruct (get_ray c i j (rng st)) as [r g1].
  destruct (ray_color c world r (max_depth c) g1) as [sampled g2].
  exists [EvSample j i sample sampled]. split; [reflexivity |].
  repeat constructor.
Qed.

Lemma pixel_inside (i j : Z) (bytes : Z * Z * Z) (st : @state G) :
  extends_inside st (after_pixel E c (store_pixel c i j bytes st)).
Proof.
  destruct bytes as [[r_byte g_byte] b_byte]. unfold after_pixel. cbn.
  match goal with |- context [if ?b then _ else _] => destruct b end.
  - exists [EvRaise AfterPixel; EvNow (steady_clock_now E (ticks st));
            EvProgress (float_div (completed_pixels st + 1) (total_pixels c));
            EvPixel j i r_byte g_byte b_byte].
    split; [reflexivity |]. repeat constructor.
  - exists [EvNow (steady_clock_now E (ticks st));
            EvProgress (float_div (completed_pixels st + 1) (total_pixels c));
            EvPixel j i r_byte g_byte b_byte].
    split; [reflexivity |]. repeat constructor.
Qed.

Lemma sample_loop_inside (i j : Z) (fuel : nat) :
  forall (sample : Z) (pixel_color : color) (st : @state G),
    extends_inside st (snd (sample_loop fuel E c world i j sample pixel_color st)).
Proof.
  induction fuel as [| fuel IH]; intros sample pixel_color st;
    cbn [sample_loop]; [reflexivity |].
  destruct (sample <? sample_count c); [| reflexivity].
  pose proof (poll_inside (AtSample j i sample) st (fun _ => I)) as Hpoll.
  destruct (load_should_stop E (AtSample j i sample) st) as [stop st1].
  cbn [snd] in Hpoll. destruct stop; [exact Hpoll |].
  pose proof (sample_inside i j sample pixel_color st1) as Hsample.
  destruct (take_sample c world i j sample pixel_color st1) as [color2 st2].
  cbn [snd] in Hsample.
  etransitivity; [exact Hpoll |]. etransitivity; [exact Hsample | apply IH].
Qed.

Lemma pixel_body_inside (i j : Z) (st : @state G) :
  extends_inside st (snd (pixel_body E c world i j st)).
Proof.
  unfold pixel_body.
  pose proof (sample_loop_inside i j (S (Z.to_nat (sample_count c))) 0 black st) as Hloop.
  destruct (sample_loop _ E c world i j 0 black st) as [pixel_color st1].
  cbn [snd] in Hloop.
  pose proof (poll_inside (AfterSamples j i) st1 (fun _ => I)) as Hpoll.
  destruct (load_should_stop E (AfterSamples j i) st1) as [stop st2].
  cbn [snd] in Hpoll.
  destruct stop; cbn [snd]; (etransitivity; [exact Hloop |]); [exact Hpoll |].
  etransitivity; [exact Hpoll | apply pixel_inside].
Qed.

Lemma pixel_loop_inside (j : Z) (fuel : nat) :
  forall (i : Z) (st : @state G), extends_inside st (pixel_loop fuel E c world i j st).
Proof.
  induction fuel as [| fuel IH]; intros i st; cbn [pixel_loop]; [reflexivity |].
  destruct (i <? image_width c); [| reflexivity].
  pose proof (poll_inside (AtPixel j i) st (fun _ => I)) as Hpoll.
  destruct (load_should_stop E (AtPixel j i) st) as [stop st1].
  cbn [snd] in Hpoll. destruct stop; [exact Hpoll |].
  pose proof (pixel_body_inside i j st1) as Hbody.
  destruct (pixel_body E c world i j st1) as [broke st2].
  cbn [snd] in Hbody.
  destruct broke; (etransitivity; [exact Hpoll |]); [exact Hbody |].
  etransitivity; [exact Hbody | apply IH].
Qed.

(** One row: the poll at its start, its pixels, and the raise at its end. *)
Lemma row_raises (j : Z) (st : @state G) :
  should_stop E (loads st) = false ->
  rows_raised c (log st) ->
  rows_raised c
    (log (row_end c j
            (pixel_loop (S (Z.to_nat (image_width c))) E c world 0 j
               (snd (load_should_stop E (AtRow j) st))))).
Proof.
  intros Hclear Hst.
  destruct (pixel_loop_inside j (S (Z.to_nat (image_width c))) 0
              (snd (load_should_stop E (AtRow j) st))) as [newer [Hnewer Hinner]].
  set (st2 := pixel_loop _ E c world 0 j _) in *.
  assert (Hlog2 : log st2 = newer ++ EvPoll (AtRow j) false :: log st).
  { rewrite Hnewer. cbn. now rewrite Hclear. }
  clear Hnewer.
  assert (Hold : forall e : event, In e (log st) -> In e (log st2)).
  { intros e He. rewrite Hlog2. apply in_or_app. right. now right. }
  assert (Hin2 : forall j' : Z, In (EvPoll (AtRow j') false) (log st2) ->
                                j' = j \/ In (EvPoll (AtRow j') false) (log st)).
  { intros j' Hin. rewrite Hlog2 in Hin. apply in_app_or in Hin as [Hin | [Heq | Hin]].
    - rewrite List.Forall_forall in Hinner. now apply Hinner in Hin.
    - left. congruence.
    - now right. }
  intros j' Hin Hrem. unfold row_end in *.
  destruct (Z.eqb_spec (Z.rem j (Z.max 1 (Z.quot (image_height c) 20))) 0)
    as [Hj | Hj].
  - cbn [raise_update log] in *. destruct Hin as [Heq | Hin]; [discriminate |].
    apply Hin2 in Hin as [-> | Hin]; [now left |].
    right. now apply Hold, Hst.
  - apply Hin2 in Hin as [-> | Hin]; [contradiction |].
    now apply Hold, Hst.
Qed.

Lemma row_loop_raises (fuel : nat) :
  forall (j : Z) (st : @state G),
    rows_raised c (log st) -> rows_raised c (log (row_loop fuel E c world j st)).
Proof.
  induction fuel as [| fuel IH]; intros j st Hst; cbn [row_loop]; [exact Hst |].
  destruct (j <? image_height c); [| exact Hst].
  pose proof (row_raises j st) as Hrow.
  destruct (load_should_stop E (AtRow j) st) as [stop st1] eqn:Hload.
  assert (Hstop : stop = should_stop E (loads st))
    by (now apply (f_equal fst) in Hload).
  assert (Hlog1 : log st1 = EvPoll (AtRow j) stop :: log st)
    by (apply (f_equal snd) in Hload; cbn in Hload; subst; reflexivity).
  destruct stop.
  - intros j' Hin Hrem. rewrite Hlog1 in *.
    destruct Hin as [Heq | Hin]; [discriminate |]. right. now apply Hst.
  - apply IH. cbn [snd] in Hrow. now apply Hrow.
Qed.

(** A flag that is never set lets the worker into every row. *)
Lemma row_loop_enters (fuel : nat) :
  (forall n : nat, should_stop E n = false) ->
  forall (j : Z) (st : @state G),
    image_height c - j <= Z.of_nat fuel ->
    forall j' : Z,
      j <= j' < image_height c ->
      In (EvPoll (AtRow j') false) (log (row_loop fuel E c world j st)).
Proof.
  intros Hnever.
  induction fuel as [| fuel IH]; intros j st Hfuel j' Hj'; [lia |].
  cbn [row_loop].
  replace (j <? image_height c) with true by (symmetry; apply Z.ltb_lt; lia).
  destruct (load_should_stop E (AtRow j) st) as [stop st1] eqn:Hload.
  assert (Hlog1 : log st1 = EvPoll (AtRow j) stop :: log st).
  { pose proof (f_equal fst Hload) as Hfst. pose proof (f_equal snd Hload) as Hsnd.
    cbn in Hfst, Hsnd. now subst. }
  assert (Hstop : stop = false)
    by (apply (f_equal fst) in Hload; cbn in Hload; now rewrite Hnever in Hload).
  subst stop.
  destruct (Z.eq_dec j' j) as [-> | Hother].
  - assert (Hext : extends st1
                     (row_loop fuel E c world (j + 1)
                        (row_end c j
                           (pixel_loop (S (Z.to_nat (image_width c))) E c world 0 j st1)))).
    { etransitivity; [apply (pixel_loop_extends j) |].
      etransitivity; [apply (row_end_extends j) | apply row_loop_extends]. }
    destruct Hext as [newer ->]. apply in_or_app. right. rewrite Hlog1. now left.
  - apply IH; lia.
Qed.

End Extends.

(** * The colour of one ray *)

Section RayColorStatements.

Context {G M H : Type@{scene}}.
Context `{RandomSource G} `{Material M G} `{Hittable H M}.

Variable c : camera.
Variable world : H.

(** C1: for a ray that hits the scene with [depth > 0], [ray_color] is black
    when shadows are disabled; with shadows enabled it is black when the
    material's [scatter] rejects; when [scatter] succeeds and reflections or
    refractions are enabled it is [attenuation * ray_color(scattered,
    depth - 1, world)]; and when both are disabled it is
    [attenuation * (0.3 + 0.7 * max(0, dot(normal, unit_vector(1,1,1))))],
    computed by the one activation alone, without a recursive call. *)
Theorem ray_color_on_hit (r : ray) (depth : Z) (g : G) (rec : hit_record M) :
  0 < depth ->
  hit world r (mk_interval 0.001 infinity) = Some rec ->
  (enable_shadows c = false -> ray_color c world r depth g = (black, g)) /\
  (enable_shadows c = true ->
   forall g1 : G,
     scatter (mat rec) r rec g = (None, g1) ->
     ray_color c world r depth g = (black, g1)) /\
  (enable_shadows c = true ->
   forall (attenuation : color) (scattered : ray) (g1 : G),
     scatter (mat rec) r rec g = (Some (attenuation, scattered), g1) ->
     (enable_reflections c || enable_refractions c = true ->
      ray_color c world r depth g
      = (Vec3.mul attenuation (fst (ray_color c world scattered (depth - 1) g1)),
         snd (ray_color c world scattered (depth - 1) g1))) /\
     (enable_reflections c = false -> enable_refractions c = false ->
      ray_color c world r depth g
      = (Vec3.scale
           (0.3 + 0.7 * Num.fmax 0
                          (Vec3.dot (normal rec) (Vec3.unit_vector (Vec3.mk 1 1 1))))%float
           attenuation, g1)
      /\ ray_color_fuel 1 c world r depth g = Some (ray_color c world r depth g))).
Proof.
  intros Hdepth Hhit.
  assert (Hpos : (depth <=? 0) = false) by lia.
  rewrite (ray_color_step c world r depth g Hdepth), Hhit.
  cbn [ray_color_fuel]. rewrite Hpos, Hhit.
  split; [| split].
  - intros ->. reflexivity.
  - intros -> g1 ->. reflexivity.
  - intros -> attenuation scattered g1 ->. split.
    + intros ->. now destruct (ray_color c world scattered (depth - 1) g1).
    + intros -> ->. cbn [orb]. split; reflexivity.
Qed.

(** C5 (amended): for a ray that hits nothing over (0.001, infinity) and
    [depth > 0], [ray_color] is [(1 - a) * (1, 1, 1) + a * (0.5, 0.7, 1.0)]
    with [a = 0.5 * (y + 1.0)], [y] the second component of the normalized
    direction; that is white for a ray pointing straight down ([y = -1]) and
    light blue for a ray pointing straight up ([y = 1]). *)
Theorem ray_color_on_miss (r : ray) (depth : Z) (g : G) :
  0 < depth ->
  hit world r (mk_interval 0.001 infinity) = None ->
  let y := Vec3.y (Vec3.unit_vector (direction r)) in
  let a := (0.5 * (y + 1.0))%float in
  ray_color c world r depth g
  = (Vec3.add (Vec3.scale (1.0 - a) (Vec3.mk 1.0 1.0 1.0))
              (Vec3.scale a (Vec3.mk 0.5 0.7 1.0)), g) /\
  (y = (-1)%float -> fst (ray_color c world r depth g) = Vec3.mk 1 1 1) /\
  (y = 1%float -> fst (ray_color c world r depth g) = Vec3.mk 0.5 0.7 1).
Proof.
  intros Hdepth Hmiss y a.
  rewrite (ray_color_step c world r depth g Hdepth), Hmiss.
  unfold background. fold y. fold a. cbn [fst].
  split; [reflexivity |]. unfold a.
  split; intros ->; reflexivity.
Qed.

(** C8: [ray_color] terminates for every ray, scene and depth.  With
    [depth <= 0] it returns black in its first activation; otherwise its
    one recursive call is made at [depth - 1]; so a call stack of
    [max(0, depth) + 1] activations is always enough. *)
Theorem ray_color_terminates (r : ray) (depth : Z) (g : G) :
  (forall fuel : nat,
     (Z.to_nat depth < fuel)%nat ->
     ray_color_fuel fuel c world r depth g = Some (ray_color c world r depth g)) /\
  (depth <= 0 ->
   ray_color c world r depth g = (black, g) /\
   ray_color_fuel 1 c world r depth g = Some (black, g)) /\
  (0 < depth ->
   forall (fuel : nat) (rec : hit_record M) (attenuation : color)
          (scattered : ray) (g1 : G),
     hit world r (mk_interval 0.001 infinity) = Some rec ->
     enable_shadows c = true ->
     scatter (mat rec) r rec g = (Some (attenuation, scattered), g1) ->
     enable_reflections c || enable_refractions c = true ->
     ray_color_fuel (S fuel) c world r depth g
     = option_map (fun deeper => (Vec3.mul attenuation (fst deeper), snd deeper))
         (ray_color_fuel fuel c world scattered (depth - 1) g1)).
Proof.
  split; [| split].
  - intros fuel Hfuel. now apply ray_color_fuel_enough.
  - intros Hdepth. split; [now apply ray_color_exhausted |].
    cbn [ray_color_fuel]. now replace (depth <=? 0) with true by lia.
  - intros Hdepth fuel rec attenuation scattered g1 Hhit Hshadows Hscatter Hrec.
    cbn [ray_color_fuel]. replace (depth <=? 0) with false by lia.
    rewrite Hhit, Hshadows, Hscatter, Hrec.
    now destruct (ray_color_fuel fuel c world scattered (depth - 1) g1) as [[deeper g2] |].
Qed.

End RayColorStatements.

(** * One call of the render worker *)

Section RenderStatements.

Context {G M H : Type@{scene}}.
Context `{RandomSource G} `{Material M G} `{Hittable H M}.

Variable tan : float -> float.

Lemma polls_app (after before : list event) :
  (polls before <= polls (after ++ before))%nat.
Proof. induction after as [| [] after IH]; cbn; lia. Qed.

Lemma pixel_poll_after_row_poll (E : environment) (c : camera) (l : list event)
  (j i : Z) :
  wf_log E c l -> In (EvPoll (AtPixel j i) false) l ->
  In (EvPoll (AtRow j) false) l.
Proof.
  intros Hwf Hin. apply in_split in Hin as (after & before & ->).
  apply wf_log_split in Hwf as [[_ Hrow] _].
  apply in_or_app. right. now right.
Qed.

Lemma no_pixel_after_stop (E : environment) (c : camera) (l : list event) :
  set_once E -> wf_log E c l ->
  forall (after before : list event) (site : poll_site),
    l = after ++ EvPoll site true :: before ->
    forall e : event, In e after -> is_pixel e = false.
Proof.
  intros Honce Hwf after before site -> e Hin.
  destruct e as [| | j i r_byte g_byte b_byte | | |]; try reflexivity.
  exfalso. apply in_split in Hin as (newer & older & ->).
  rewrite <- app_assoc in Hwf. cbn [app] in Hwf.
  apply wf_log_split in Hwf as [[Hhead _] Hwf].
  destruct older as [| e older]; cbn in Hhead; [congruence |].
  injection Hhead as ->.
  destruct Hwf as [[Hclear _] Hwf]. cbn [app] in Hclear.
  apply wf_log_split in Hwf as [[Hset _] _].
  symmetry in Hset.
  apply (Honce _ (polls (older ++ EvPoll site true :: before))) in Hset; [congruence |].
  etransitivity; [| apply polls_app]. cbn. lia.
Qed.

Lemma pixels_need_room (E : environment) (c : camera) (l : list event) :
  wf_log E c l -> 0 < pixels_done l -> 0 < total_pixels c.
Proof.
  induction l as [| e l IH]; cbn; [lia |].
  intros [Hok Hwf] Hdone.
  destruct e; try (now apply IH).
  destruct Hok as (_ & Hi & Hj & _). unfold total_pixels. nia.
Qed.

Lemma poll_numbered (E : environment) (c : camera) (l : list event) (m : nat) :
  wf_log E c l -> (m < polls l)%nat ->
  exists site : poll_site, In (EvPoll site (should_stop E m)) l.
Proof.
  induction l as [| e l IH]; cbn [polls]; [lia |].
  intros [Hok Hwf] Hm.
  destruct e as [site v | | | | |];
    try (destruct (IH Hwf Hm) as [site' Hin]; exists site'; now right).
  cbn [polls] in Hm. destruct (Nat.eq_dec m (polls l)) as [-> | Hne].
  - exists site. left. destruct Hok as [-> _]. reflexivity.
  - destruct (IH Hwf ltac:(lia)) as [site' Hin]. exists site'. now right.
Qed.

Lemma stopped_cancelled (E : environment) (c : camera) (progress0 : spec_float)
  (st : @state G) :
  consistent E c progress0 st -> Forall loop_event (log st) ->
  stopped E st -> cancelled (log st).
Proof.
  intros Hco Honly (m & Hm & Hset).
  rewrite (loads_log _ _ _ _ Hco) in Hm.
  destruct (poll_numbered E c (log st) m (log_wf _ _ _ _ Hco) Hm) as [site Hin].
  rewrite Hset in Hin. exists site. split; [| assumption].
  rewrite Forall_forall in Honly. apply list_elem_of_In, Honly in Hin.
  now destruct site.
Qed.

Lemma render_consistent (E : environment) (c : camera) (world : H)
  (buffer0 : list Z) (progress0 : spec_float) (texture0 : bool) (g0 : G)
  (c' : camera) (st : @state G) :
  render_to_buffer_with_progress tan E c world buffer0 progress0 texture0 g0
  = Returned c' st ->
  consistent E c' progress0 st.
Proof.
  intros Hret. apply render_returned in Hret as (_ & _ & st_loop & -> & Hco & _ & _).
  now apply consistent_poll.
Qed.

Lemma frame_lookup (c : camera) (world : H) (g0 : G) (i j : Z) (n : nat) :
  0 <= i < image_width c -> 0 <= j ->
  (Z.to_nat (j * image_width c + i) < n)%nat ->
  forall ch : nat, (ch < 3)%nat ->
    fst (frame n c world g0) !! (3 * Z.to_nat (j * image_width c + i) + ch)%nat
    = (let '(r_byte, g_byte, b_byte) :=
         fst (render_pixel c world i j
                (snd (frame (Z.to_nat (j * image_width c + i)) c world g0))) in
       [r_byte; g_byte; b_byte]) !! ch.
Proof.
  intros Hi Hj Hn ch Hch.
  set (k := Z.to_nat (j * image_width c + i)) in *.
  induction n as [| n IH]; [lia |].
  destruct (Nat.eq_dec k n) as [Hk | Hk].
  - subst n. unfold k at 1. rewrite (frame_next c world g0 i j Hi Hj). fold k.
    cbn [fst]. rewrite lookup_app_r by (rewrite frame_length; lia).
    rewrite frame_length. f_equal. lia.
  - cbn [frame]. specialize (IH ltac:(lia)).
    pose proof (frame_length c world g0 n) as Hlen.
    destruct (frame n c world g0) as [done g].
    destruct (render_pixel c world _ _ g) as [[[r_byte g_byte] b_byte] g'].
    cbn [fst] in *. rewrite lookup_app_l by lia. exact IH.
Qed.

Lemma countdown_rev (c : camera) (n : nat) :
  rev (countdown c n)
  = map (fun k : nat => float_div (Z.of_nat k) (total_pixels c)) (seq 1 n).
Proof.
  induction n as [| n IH]; [reflexivity |].
  rewrite seq_S, map_app. cbn [countdown rev]. rewrite IH. reflexivity.
Qed.

Lemma pixels_in_image (E : environment) (c : camera) (l : list event) :
  wf_log E c l -> Forall (pixel_behind (image_height c) 0) l.
Proof.
  induction l as [| e l IH]; intros Hwf; [constructor |].
  destruct Hwf as [Hok Hwf]. constructor; [| now apply IH].
  destruct e; cbn; trivial. destruct Hok as (_ & _ & Hj & _). lia.
Qed.

Lemma pixels_done_behind (E : environment) (c : camera) (l : list event) :
  wf_log E c l -> 0 <= image_width c ->
  forall J I : Z,
    0 <= J -> 0 <= I -> Forall (pixel_behind J I) l ->
    pixels_done l <= J * image_width c + I.
Proof.
  intros Hwf Hw. induction l as [| e l IH]; intros J I HJ HI Hbehind.
  - cbn. nia.
  - destruct Hwf as [Hok Hwf]. inversion Hbehind as [| e' l' He Hl]; subst.
    destruct e; cbn [pixels_done]; try (now apply IH).
    destruct Hok as (_ & Hi & Hj & _ & Hbefore). cbn in He.
    specialize (IH Hwf j i ltac:(lia) ltac:(lia) Hbefore). nia.
Qed.

(** No more pixels are completed than the image has. *)
Lemma pixels_done_bound (E : environment) (c : camera) (l : list event) :
  wf_log E c l -> 0 <= image_width c -> 0 <= image_height c ->
  pixels_done l <= total_pixels c.
Proof.
  intros Hwf Hw Hh.
  pose proof (pixels_done_behind E c l Hwf Hw (image_height c) 0 Hh ltac:(lia)
                (pixels_in_image E c l Hwf)) as Hbound.
  unfold total_pixels. lia.
Qed.

Lemma progress_value (E : environment) (c : camera) (progress0 : spec_float)
  (st : @state G) :
  consistent E c progress0 st ->
  progress st
  = (if completed_pixels st =? 0 then progress0
     else float_div (completed_pixels st) (total_pixels c)).
Proof.
  intros [Hwf Hne Hb Hl Ht Hc Hs Hth Hst Hp].
  rewrite Hp, Hst, <- Hc.
  destruct (Z.eqb_spec (completed_pixels st) 0) as [-> | Hnz]; [reflexivity |].
  pose proof (pixels_done_nonneg (log st)) as Hnn. rewrite <- Hc in Hnn.
  replace (Z.to_nat (completed_pixels st))
    with (S (Z.to_nat (completed_pixels st - 1))) by lia.
  cbn [countdown hd]. f_equal. lia.
Qed.

Lemma render_sizes (E : environment) (c : camera) (world : H)
  (buffer0 : list Z) (progress0 : spec_float) (texture0 : bool) (g0 : G)
  (c' : camera) (st : @state G) :
  render_to_buffer_with_progress tan E c world buffer0 progress0 texture0 g0
  = Returned c' st ->
  0 <= image_width c' /\ 1 <= image_height c' /\
  0 <= completed_pixels st <= total_pixels c' /\
  (int_sized c' -> total_pixels c' < 2 ^ 31).
Proof.
  intros Hret.
  pose proof (render_consistent _ _ _ _ _ _ _ _ _ Hret) as Hco.
  apply render_returned in Hret as (-> & Hw & _).
  pose proof (initialize_height tan c) as Hh.
  split; [assumption |]. split; [lia |]. split.
  - rewrite (completed_log _ _ _ _ Hco). split; [apply pixels_done_nonneg |].
    apply (pixels_done_bound E); [apply (log_wf _ _ _ _ Hco) | assumption | lia].
  - unfold int_sized, Num.INT_MAX, total_pixels. intros [_ Hsize].
    change (2 ^ 31) with 2147483648 in *. nia.
Qed.

(** C6 (amended): after the k-th pixel is written the progress value is set
    to the [float] quotient of k and [total_pixels]: both are converted to
    binary32 and divided there.  The values stored during a call are those
    of k = 1, 2, ..., n in this order, one right after each pixel, [n]
    being the number of pixels completed, which is at most
    [total_pixels].  The stored values never decrease, the one stored
    after the last pixel is 1.0, and the call leaves the last stored value
    in [progress] (it leaves [progress] alone when no pixel was
    completed).  Every stored value is above 0, where both callers leave
    [progress] before the call, and at most 1.0.  On an image of at most
    [2 ^ 24] pixels every value stored before the last pixel is below 1.0. *)
Theorem progress_counts_pixels (E : environment) (c : camera) (world : H)
  (buffer0 : list Z) (progress0 : spec_float) (texture0 : bool) (g0 : G)
  (c' : camera) (st : @state G) :
  render_to_buffer_with_progress tan E c world buffer0 progress0 texture0 g0
  = Returned c' st ->
  int_sized c' ->
  rev (progress_stores (log st))
  = map (fun k : nat =>
           SFdiv 24 128 (binary_normalize 24 128 (Z.of_nat k) 0 false)
             (binary_normalize 24 128 (image_width c' * image_height c') 0 false))
      (seq 1 (Z.to_nat (completed_pixels st))) /\
  (forall (after before : list event) (q : spec_float),
     log st = after ++ EvProgress q :: before ->
     q = float_div (pixels_done before) (total_pixels c') /\
     exists j i r_byte g_byte b_byte,
       head before = Some (EvPixel j i r_byte g_byte b_byte)) /\
  completed_pixels st <= total_pixels c' /\
  (forall k k' : Z,
     1 <= k <= k' -> k' <= completed_pixels st ->
     SFleb (float_div k (total_pixels c')) (float_div k' (total_pixels c')) = true) /\
  (0 < completed_pixels st -> completed_pixels st = total_pixels c' ->
   progress st = Binary32.one) /\
  (total_pixels c' <= 2 ^ 24 ->
   forall k : Z,
     1 <= k <= completed_pixels st -> k < total_pixels c' ->
     SFltb (float_div k (total_pixels c')) Binary32.one = true) /\
  progress st
  = (if completed_pixels st =? 0 then progress0
     else float_div (completed_pixels st) (total_pixels c')) /\
  (forall k : Z,
     1 <= k <= completed_pixels st ->
     SFltb Binary32.zero (float_div k (total_pixels c')) = true /\
     SFleb (float_div k (total_pixels c')) Binary32.one = true).
Proof.
  intros Hret Hsized.
  destruct (render_sizes _ _ _ _ _ _ _ _ _ Hret) as (Hw & Hh & Hdone & Hint).
  specialize (Hint Hsized).
  apply render_consistent in Hret.
  pose proof (progress_value _ _ _ _ Hret) as Hvalue.
  destruct Hret as [Hwf Hne Hb Hl Ht Hc Hs Hth Hst Hp].
  split; [| split; [| split; [| split; [| split; [| split; [| split]]]]]].
  - rewrite Hst, Hc. apply countdown_rev.
  - intros after before q Hlog. rewrite Hlog in Hwf.
    apply wf_log_split in Hwf. now destruct Hwf as [Hq _].
  - lia.
  - intros k k' Hk Hk'. apply float_div_monotone; lia.
  - intros Hsome Hall. rewrite Hvalue.
    destruct (Z.eqb_spec (completed_pixels st) 0) as [| _]; [lia |].
    rewrite Hall. apply float_div_one. lia.
  - intros Hsmall k Hk Hlast. apply float_div_below_one; lia.
  - exact Hvalue.
  - intros k Hk. split.
    + destruct (float_div_positive k (total_pixels c')) as (m & e & ->);
        [lia | lia | reflexivity].
    + rewrite <- (float_div_one (total_pixels c')) by lia.
      apply float_div_monotone; lia.
Qed.

(** C2 (amended): during one call the flag is polled at the start of every
    row, at the start of every pixel and before every sample: each sample
    follows directly a poll of its own that found the flag clear, and comes
    after such polls of its pixel and of its row, and so does each write of
    a pixel.  Once a poll has found the flag set, no pixel is written any
    more; so when one of the polls of the loops found it set, the buffer
    holds exactly the pixels completed until then (the others are still
    cleared), and these are not all the pixels, unless the image has none.
    The progress value is then the quotient stored after the last
    completed pixel, or what it was at the call when no pixel was
    completed: the worker stores it after a completed pixel only and never
    resets it.  It is below 1.0 when it was so at the call and the image
    has at most [2 ^ 24] pixels.  When none of the polls of the loops found
    the flag set, every pixel is written, also when the read after the
    loops finds it set, and the progress value is 1.0 if the image has a
    pixel.  The flag is only ever set during a render. *)
Theorem cancellation_is_cooperative (E : environment) (c : camera) (world : H)
  (buffer0 : list Z) (progress0 : spec_float) (texture0 : bool) (g0 : G)
  (c' : camera) (st : @state G) :
  set_once E ->
  render_to_buffer_with_progress tan E c world buffer0 progress0 texture0 g0
  = Returned c' st ->
  (forall (after before : list event) (j i sample : Z) (sampled : color),
     log st = after ++ EvSample j i sample sampled :: before ->
     head before = Some (EvPoll (AtSample j i sample) false) /\
     In (EvPoll (AtPixel j i) false) before /\
     In (EvPoll (AtRow j) false) before) /\
  (forall (after before : list event) (j i r_byte g_byte b_byte : Z),
     log st = after ++ EvPixel j i r_byte g_byte b_byte :: before ->
     head before = Some (EvPoll (AfterSamples j i) false) /\
     In (EvPoll (AtPixel j i) false) before /\
     In (EvPoll (AtRow j) false) before) /\
  (forall (after before : list event) (site : poll_site),
     log st = after ++ EvPoll site true :: before ->
     forall e : event, In e after -> is_pixel e = false) /\
  (cancelled (log st) ->
   exists n : nat,
     completed_pixels st = Z.of_nat n /\
     pixels_done (log st) = Z.of_nat n /\
     buffer st = partial_image n c' world g0 /\
     (completed_pixels st < total_pixels c' \/ total_pixels c' = 0) /\
     progress st
     = (if completed_pixels st =? 0 then progress0
        else float_div (completed_pixels st) (total_pixels c')) /\
     (int_sized c' -> total_pixels c' <= 2 ^ 24 ->
      SFltb progress0 Binary32.one = true ->
      SFltb (progress st) Binary32.one = true)) /\
  (~ cancelled (log st) ->
   completed_pixels st = total_pixels c' /\
   buffer st = fst (frame (Z.to_nat (total_pixels c')) c' world g0) /\
   (int_sized c' -> 0 < total_pixels c' -> progress st = Binary32.one)).
Proof.
  intros Honce Hret.
  destruct (render_sizes _ _ _ _ _ _ _ _ _ Hret) as (Hw & Hh & Hdone & Hint).
  pose proof (render_consistent _ _ _ _ _ _ _ _ _ Hret) as Hco.
  pose proof (progress_value _ _ _ _ Hco) as Hvalue.
  pose proof (log_wf _ _ _ _ Hco) as Hwf.
  apply render_returned in Hret as (_ & _ & st_loop & Hst & Hco_loop & Honly & Hpix).
  destruct (Hpix Honce) as [[(n & Hn & Hle & Hbuf) Hstopped] Hat].
  assert (Hfields : buffer st = buffer st_loop
                    /\ completed_pixels st = completed_pixels st_loop
                    /\ log st = EvPoll AtExit (should_stop E (loads st_loop))
                                  :: log st_loop)
    by (now subst st).
  destruct Hfields as (Hb & Hc & Hlog).
  split; [| split; [| split; [| split]]].
  - intros after before j i sample sampled Hsplit. rewrite Hsplit in Hwf.
    apply wf_log_split in Hwf as [[Hhead _] Hwf].
    split; [assumption |].
    destruct before as [| e older]; [discriminate |]. injection Hhead as ->.
    destruct Hwf as [[_ Hpixel] Hwf].
    split; right; [assumption |].
    now apply (pixel_poll_after_row_poll E c' older j i).
  - intros after before j i r_byte g_byte b_byte Hsplit. rewrite Hsplit in Hwf.
    apply wf_log_split in Hwf as [[Hhead _] Hwf].
    split; [assumption |].
    destruct before as [| e older]; [discriminate |]. injection Hhead as ->.
    destruct Hwf as [[_ Hpixel] Hwf].
    split; right; [assumption |].
    now apply (pixel_poll_after_row_poll E c' older j i).
  - now apply (no_pixel_after_stop E c').
  - intros (site & Hsite & Hin).
    exists n. rewrite Hb, Hc. split; [assumption |].
    split; [now rewrite <- (completed_log _ _ _ _ Hco), Hc |].
    split; [assumption |].
    rewrite Hlog in Hin. destruct Hin as [Hexit | Hin].
    { injection Hexit as <- _. discriminate. }
    apply (poll_seen E c') in Hin; [| now apply (log_wf _ _ _ _ Hco_loop)].
    rewrite <- (loads_log _ _ _ _ Hco_loop) in Hin.
    specialize (Hstopped Hin). rewrite <- Hc in Hstopped |- *.
    assert (Hfewer : completed_pixels st < total_pixels c' \/ total_pixels c' = 0)
      by lia.
    split; [assumption |]. split; [assumption |].
    intros Hsized Hsmall Hbelow. rewrite Hvalue.
    destruct (Z.eqb_spec (completed_pixels st) 0) as [Hzero | Hnz]; [assumption |].
    apply float_div_below_one; lia.
  - intros Hnot.
    assert (Hlive : ~ stopped E st_loop).
    { intros Hs. apply Hnot.
      destruct (stopped_cancelled E c' progress0 st_loop Hco_loop Honly Hs)
        as (site & Hsite & Hin).
      exists site. split; [assumption |]. rewrite Hlog. now right. }
    destruct (Hat Hlive) as (_ & Hall & _).
    assert (Htotal : image_height c' * image_width c' + 0 = total_pixels c')
      by (unfold total_pixels; ring).
    rewrite Htotal in Hall.
    split; [congruence |]. split.
    + rewrite Hb, Hbuf. unfold partial_image.
      replace n with (Z.to_nat (total_pixels c')) by lia.
      now rewrite Nat.sub_diag, app_nil_r.
    + intros Hsized Hsome. rewrite Hvalue, Hc, Hall.
      destruct (Z.eqb_spec (total_pixels c') 0) as [| _]; [lia |].
      apply float_div_one. specialize (Hint Hsized). lia.
Qed.

Lemma paint_length (c : camera) (l : list event) :
  length (paint c l) = Z.to_nat (image_width c * image_height c * 3).
Proof.
  induction l as [| [] l IH]; cbn [paint]; rewrite ?length_insert; try assumption.
  apply length_replicate.
Qed.

(** Whatever is sampled or written after the write of pixel (i, j) belongs
    to a later pixel. *)
Lemma written_before (E : environment) (c : camera) (after before : list event)
  (j i r_byte g_byte b_byte : Z) (e : event) :
  wf_log E c (after ++ EvPixel j i r_byte g_byte b_byte :: before) ->
  In e after ->
  match e with
  | EvSample j' i' _ _ | EvPixel j' i' _ _ _ => j < j' \/ (j = j' /\ i < i')
  | _ => True
  end.
Proof.
  intros Hwf Hin. apply in_split in Hin as (newer & older & ->).
  rewrite <- app_assoc in Hwf. cbn [app] in Hwf.
  apply wf_log_split in Hwf as [Hok _].
  destruct e as [| j' i' sample sampled | j' i' r' g' b' | | |]; try exact I.
  - destruct Hok as [_ Hbehind].
    apply Forall_app in Hbehind as [_ Hbehind]. now inversion Hbehind.
  - destruct Hok as (_ & _ & _ & _ & Hbehind).
    apply Forall_app in Hbehind as [_ Hbehind]. now inversion Hbehind.
Qed.

Lemma sampled_sum_after (E : environment) (c : camera) (after before : list event)
  (j i r_byte g_byte b_byte : Z) :
  wf_log E c (after ++ EvPixel j i r_byte g_byte b_byte :: before) ->
  sampled_sum j i (after ++ EvPixel j i r_byte g_byte b_byte :: before)
  = sampled_sum j i before.
Proof.
  induction after as [| e after IH]; intros Hwf; [reflexivity |].
  pose proof (written_before E c (e :: after) before j i r_byte g_byte b_byte e Hwf
                (or_introl eq_refl)) as Hlater.
  destruct Hwf as [_ Hwf]. specialize (IH Hwf).
  destruct e as [| j' i' sample sampled | | | |]; cbn [app sampled_sum]; try assumption.
  replace ((j' =? j) && (i' =? i)) with false; [assumption |].
  symmetry. apply andb_false_iff.
  destruct Hlater as [Hlt | [_ Hlt]]; [left | right]; apply Z.eqb_neq; lia.
Qed.

(** A pixel once written is not written over. *)
Lemma paint_lookup (E : environment) (c : camera) (after before : list event)
  (j i r_byte g_byte b_byte : Z) :
  wf_log E c (after ++ EvPixel j i r_byte g_byte b_byte :: before) ->
  forall ch : nat, (ch < 3)%nat ->
    paint c (after ++ EvPixel j i r_byte g_byte b_byte :: before)
      !! (3 * Z.to_nat (j * image_width c + i) + ch)%nat
    = [r_byte; g_byte; b_byte] !! ch.
Proof.
  intros Hwf.
  pose proof (wf_log_split E c _ _ _ Hwf) as [(_ & Hi & Hj & _) _].
  assert (Hk : 0 <= j * image_width c + i) by nia.
  induction after as [| e after IH]; intros ch Hch.
  - cbn [app paint].
    pose proof (paint_length c before) as Hlen.
    assert (Hroom : (j * image_width c + i) * 3 + 2 < image_width c * image_height c * 3)
      by nia.
    replace (Z.to_nat ((j * image_width c + i) * 3))
      with (3 * Z.to_nat (j * image_width c + i))%nat by lia.
    replace (Z.to_nat ((j * image_width c + i) * 3 + 1))
      with (3 * Z.to_nat (j * image_width c + i) + 1)%nat by lia.
    replace (Z.to_nat ((j * image_width c + i) * 3 + 2))
      with (3 * Z.to_nat (j * image_width c + i) + 2)%nat by lia.
    destruct ch as [| [| [| ch]]]; [| | | lia].
    + rewrite !list_lookup_insert_ne by lia.
      rewrite Nat.add_0_r. apply list_lookup_insert_eq. lia.
    + rewrite list_lookup_insert_ne by lia.
      apply list_lookup_insert_eq. rewrite length_insert. lia.
    + apply list_lookup_insert_eq. rewrite !length_insert. lia.
  - pose proof (written_before E c (e :: after) before j i r_byte g_byte b_byte e Hwf
                  (or_introl eq_refl)) as Hlater.
    destruct Hwf as [Hok Hwf]. specialize (IH Hwf ch Hch).
    destruct e as [| | j' i' r' g' b' | | |]; cbn [app paint]; try exact IH.
    destruct Hok as (_ & Hi' & Hj' & _).
    assert (Hfar : j * image_width c + i < j' * image_width c + i') by nia.
    rewrite !list_lookup_insert_ne by lia. exact IH.
Qed.

(** C3: for every completed pixel (i, j) of a render of width w and height
    h, the three bytes written are, channel by channel, the cast to a byte
    of [256 * clamp_[0, 0.999] (linear_to_gamma (average))], where the
    average is the sum of the colours sampled for that pixel times
    [1.0 / sample_count] and [sample_count] is [samples_per_pixel] with
    antialiasing and 1 without; they lie, red, green, blue, at the indices
    [3 * (j * w + i)], [+ 1], [+ 2] of a buffer of [3 * w * h] bytes, and
    are still there when the call returns.  Rows run from the top: from one
    row to the next the sampled point moves by [pixel_delta_v], which
    points along [-v], the camera's downward direction.  When the flag is
    only ever set, the completed pixels are the first [completed_pixels] in
    row-major order, each with all its samples, drawn from the generator in
    that order. *)
Theorem completed_pixels_hold_their_bytes (E : environment) (c : camera)
  (world : H) (buffer0 : list Z) (progress0 : spec_float) (texture0 : bool) (g0 : G)
  (c' : camera) (st : @state G) :
  render_to_buffer_with_progress tan E c world buffer0 progress0 texture0 g0
  = Returned c' st ->
  length (buffer st) = Z.to_nat (3 * image_width c' * image_height c') /\
  pixel_delta_v c'
  = Vec3.div
      (Vec3.scale (2 * tan (Rt.degrees_to_radians (vfov c) / 2) * focus_dist c)%float
                  (Vec3.neg (v c')))
      (Num.of_int (image_height c')) /\
  (forall j i r_byte g_byte b_byte : Z,
     In (EvPixel j i r_byte g_byte b_byte) (log st) ->
     let count :=
       if enable_antialiasing c' then samples_per_pixel c' else 1 in
     let average :=
       Vec3.scale (1.0 / Num.of_int count) (sampled_sum j i (log st)) in
     let byte := fun x : float =>
       Num.to_uchar
         (256 * Rt.clamp (mk_interval 0.000 0.999) (Rt.linear_to_gamma x)) in
     (0 <= i < image_width c' /\ 0 <= j < image_height c') /\
     (r_byte = byte (Vec3.x average) /\
      g_byte = byte (Vec3.y average) /\
      b_byte = byte (Vec3.z average)) /\
     buffer st !! Z.to_nat (3 * (j * image_width c' + i)) = Some r_byte /\
     buffer st !! Z.to_nat (3 * (j * image_width c' + i) + 1) = Some g_byte /\
     buffer st !! Z.to_nat (3 * (j * image_width c' + i) + 2) = Some b_byte) /\
  (set_once E ->
   forall i j : Z,
     0 <= i < image_width c' -> 0 <= j < image_height c' ->
     j * image_width c' + i < completed_pixels st ->
     let count :=
       if enable_antialiasing c' then samples_per_pixel c' else 1 in
     let g := snd (frame (Z.to_nat (j * image_width c' + i)) c' world g0) in
     let sum := fst (sample_sum (Z.to_nat count) c' world i j black g) in
     let average := Vec3.scale (1.0 / Num.of_int count) sum in
     let byte := fun x : float =>
       Num.to_uchar
         (256 * Rt.clamp (mk_interval 0.000 0.999) (Rt.linear_to_gamma x)) in
     buffer st !! Z.to_nat (3 * (j * image_width c' + i))
     = Some (byte (Vec3.x average)) /\
     buffer st !! Z.to_nat (3 * (j * image_width c' + i) + 1)
     = Some (byte (Vec3.y average)) /\
     buffer st !! Z.to_nat (3 * (j * image_width c' + i) + 2)
     = Some (byte (Vec3.z average))).
Proof.
  intros Hret.
  pose proof (render_consistent _ _ _ _ _ _ _ _ _ Hret) as Hco.
  pose proof (log_wf _ _ _ _ Hco) as Hwf.
  pose proof (buffer_log _ _ _ _ Hco) as Hpaint.
  apply render_returned in Hret as (Hc' & Hw & st_loop & Hst & _ & _ & Hpix).
  split; [| split; [| split]].
  - rewrite Hpaint, paint_length. f_equal. ring.
  - now subst c'.
  - intros j i r_byte g_byte b_byte Hin count average byte.
    apply in_split in Hin as (after & before & Hlog).
    rewrite Hlog in Hwf.
    pose proof (wf_log_split E c' _ _ _ Hwf) as [(_ & Hi & Hj & Hbytes & _) _].
    assert (Hsum : sampled_sum j i (log st) = sampled_sum j i before)
      by (rewrite Hlog; now apply (sampled_sum_after E c')).
    split; [now split |]. split.
    { unfold byte, average, count. rewrite Hsum.
      unfold pixel_bytes, sample_count in Hbytes. cbv zeta in Hbytes.
      injection Hbytes as -> -> ->. now repeat split. }
    assert (Hk : 0 <= j * image_width c' + i) by nia.
    rewrite Hpaint, Hlog. split; [| split].
    + replace (Z.to_nat (3 * (j * image_width c' + i)))
        with (3 * Z.to_nat (j * image_width c' + i) + 0)%nat by lia.
      now rewrite (paint_lookup E c') by (assumption || lia).
    + replace (Z.to_nat (3 * (j * image_width c' + i) + 1))
        with (3 * Z.to_nat (j * image_width c' + i) + 1)%nat by lia.
      now rewrite (paint_lookup E c') by (assumption || lia).
    + replace (Z.to_nat (3 * (j * image_width c' + i) + 2))
        with (3 * Z.to_nat (j * image_width c' + i) + 2)%nat by lia.
      now rewrite (paint_lookup E c') by (assumption || lia).
  - intros Honce.
    destruct (Hpix Honce) as [[(n & Hn & Hle & Hbuf) _] _].
    assert (Hfields : buffer st = buffer st_loop
                      /\ completed_pixels st = completed_pixels st_loop)
      by (now subst st).
    destruct Hfields as [-> ->].
    rewrite Hbuf, Hn.
    intros i j Hi Hj Hdone count g sum average byte.
    assert (Hk : (Z.to_nat (j * image_width c' + i) < n)%nat) by lia.
    assert (Hpixel :
      fst (render_pixel c' world i j g)
      = (byte (Vec3.x average), byte (Vec3.y average), byte (Vec3.z average))).
    { unfold render_pixel, byte, average, sum, count.
      change (sample_count c')
        with (if enable_antialiasing c' then samples_per_pixel c' else 1).
      now destruct (sample_sum _ c' world i j black g). }
    assert (Hlookup : forall ch : nat, (ch < 3)%nat ->
      partial_image n c' world g0 !! (3 * Z.to_nat (j * image_width c' + i) + ch)%nat
      = [byte (Vec3.x average); byte (Vec3.y average); byte (Vec3.z average)] !! ch).
    { intros ch Hch. unfold partial_image.
      rewrite lookup_app_l by (rewrite frame_length; lia).
      rewrite (frame_lookup c' world g0 i j n) by lia.
      fold g. now rewrite Hpixel. }
    assert (Hnn : 0 <= j * image_width c' + i) by nia.
    split; [| split].
    + replace (Z.to_nat (3 * (j * image_width c' + i)))
        with (3 * Z.to_nat (j * image_width c' + i) + 0)%nat by lia.
      now rewrite Hlookup by lia.
    + replace (Z.to_nat (3 * (j * image_width c' + i) + 1))
        with (3 * Z.to_nat (j * image_width c' + i) + 1)%nat by lia.
      now rewrite Hlookup by lia.
    + replace (Z.to_nat (3 * (j * image_width c' + i) + 2))
        with (3 * Z.to_nat (j * image_width c' + i) + 2)%nat by lia.
      now rewrite Hlookup by lia.
Qed.

Lemma never_set_once (E : environment) :
  (forall n : nat, should_stop E n = false) -> set_once E.
Proof. intros Hnever m n _ Hm. now rewrite Hnever in Hm. Qed.

(** A call during which the flag is never set writes the whole image. *)
Lemma render_complete (E : environment) (c : camera) (world : H)
  (buffer0 : list Z) (progress0 : spec_float) (texture0 : bool) (g0 : G)
  (c' : camera) (st : @state G) :
  (forall n : nat, should_stop E n = false) ->
  render_to_buffer_with_progress tan E c world buffer0 progress0 texture0 g0
  = Returned c' st ->
  c' = initialize tan c /\
  completed_pixels st = total_pixels c' /\
  buffer st = fst (frame (Z.to_nat (total_pixels c')) c' world g0) /\
  rng st = snd (frame (Z.to_nat (total_pixels c')) c' world g0) /\
  live (log st).
Proof.
  intros Hnever Hret.
  pose proof (render_consistent _ _ _ _ _ _ _ _ _ Hret) as Hco.
  apply render_returned in Hret as (Hc' & Hw & st_loop & Hst & _ & _ & Hpix).
  destruct (Hpix (never_set_once E Hnever)) as [[(n & Hn & Hle & Hbuf) _] Hat].
  assert (Hlive : ~ stopped E st_loop).
  { intros (m & _ & Hm). now rewrite Hnever in Hm. }
  destruct (Hat Hlive) as (_ & Hdone & Hrng).
  assert (Hfields : buffer st = buffer st_loop
                    /\ completed_pixels st = completed_pixels st_loop
                    /\ rng st = rng st_loop)
    by (now subst st).
  destruct Hfields as (Hb & Hc & Hg).
  assert (Htotal : image_height c' * image_width c' + 0 = total_pixels c')
    by (unfold total_pixels; ring).
  rewrite Htotal in *.
  split; [assumption |]. split; [congruence |]. split; [| split].
  - rewrite Hb, Hbuf. unfold partial_image.
    replace n with (Z.to_nat (total_pixels c')) by lia.
    now rewrite Nat.sub_diag, app_nil_r.
  - congruence.
  - intros site Hin.
    apply (poll_seen E c') in Hin as (m & _ & Hm); [| now apply (log_wf _ _ _ _ Hco)].
    now rewrite Hnever in Hm.
Qed.

Lemma render_loops (E : environment) (c : camera) (world : H)
  (buffer0 : list Z) (progress0 : spec_float) (texture0 : bool) (g0 : G)
  (c' : camera) (st : @state G) :
  render_to_buffer_with_progress tan E c world buffer0 progress0 texture0 g0
  = Returned c' st ->
  c' = initialize tan c /\
  exists st0 : @state G,
    log st0 = [EvNow (steady_clock_now E 0)] /\
    st = snd (load_should_stop E AtExit
                (row_loop (S (Z.to_nat (image_height c'))) E c' world 0 st0)).
Proof.
  unfold render_to_buffer_with_progress.
  destruct (_ <? 0); [discriminate |]. cbn zeta.
  set (st0 := before_loops E _ buffer0 progress0 texture0 g0).
  set (st_loop := row_loop _ E _ world 0 st0).
  intros Hret.
  assert (Hc : c' = initialize tan c) by congruence.
  assert (Hst : st = snd (load_should_stop E AtExit st_loop)) by congruence.
  split; [exact Hc |]. exists st0. split; [reflexivity |].
  rewrite Hst, Hc. reflexivity.
Qed.

Lemma render_threw (E : environment) (c : camera) (world : H)
  (buffer0 : list Z) (progress0 : spec_float) (texture0 : bool) (g0 : G) :
  render_to_buffer_with_progress tan E c world buffer0 progress0 texture0 g0 = Threw
  <-> image_width (initialize tan c) * image_height (initialize tan c) * 3 < 0.
Proof.
  unfold render_to_buffer_with_progress.
  destruct (Z.ltb_spec (image_width (initialize tan c)
                        * image_height (initialize tan c) * 3) 0);
    split; try easy; lia.
Qed.

Lemma get_ray_through_centre (c : camera) (i j : Z) (g g' : G) :
  enable_antialiasing c = false ->
  PrimFloat.leb (defocus_angle c) 0 = true ->
  get_ray c i j g = (fst (get_ray c i j g'), g).
Proof. intros Haa Hdefocus. unfold get_ray. now rewrite Haa, Hdefocus. Qed.

Lemma ray_color_shallow (c : camera) (world : H) (r : ray) (depth : Z) (g g' : G) :
  steady_materials -> depth <= 1 ->
  fst (ray_color c world r depth g) = fst (ray_color c world r depth g').
Proof.
  intros Hsteady Hdepth.
  destruct (Z_le_gt_dec depth 0) as [Hle | Hgt].
  - now rewrite !ray_color_exhausted.
  - rewrite !ray_color_step by lia.
    destruct (hit world r _) as [rec |]; [| reflexivity].
    destruct (enable_shadows c); [| reflexivity].
    specialize (Hsteady (mat rec) r rec g g').
    destruct (scatter (mat rec) r rec g) as [[[attenuation scattered] |] g1];
      destruct (scatter (mat rec) r rec g') as [[[attenuation' scattered'] |] g1'];
      cbn in Hsteady; try discriminate; [| reflexivity].
    injection Hsteady as <-.
    destruct (enable_reflections c || enable_refractions c); [| reflexivity].
    now rewrite !ray_color_exhausted by lia.
Qed.

Lemma sample_sum_steady (c : camera) (world : H) (i j : Z) (n : nat) :
  steady_materials -> max_depth c <= 1 ->
  enable_antialiasing c = false ->
  PrimFloat.leb (defocus_angle c) 0 = true ->
  forall (pixel_color : color) (g g' : G),
    fst (sample_sum n c world i j pixel_color g)
    = fst (sample_sum n c world i j pixel_color g').
Proof.
  intros Hsteady Hdepth Haa Hdefocus.
  induction n as [| n IH]; intros pixel_color g g'; [reflexivity |].
  cbn [sample_sum].
  pose proof (get_ray_through_centre c i j g g Haa Hdefocus) as Hray.
  pose proof (get_ray_through_centre c i j g' g Haa Hdefocus) as Hray'.
  set (r := fst (get_ray c i j g)) in *.
  rewrite Hray, Hray'.
  pose proof (ray_color_shallow c world r (max_depth c) g g' Hsteady Hdepth) as Hsame.
  destruct (ray_color c world r (max_depth c) g) as [s1 g2].
  destruct (ray_color c world r (max_depth c) g') as [s2 g2'].
  cbn [fst] in Hsame. subst s2. apply IH.
Qed.

Lemma frame_steady (c : camera) (world : H) (n : nat) (g0 g0' : G) :
  steady_materials -> max_depth c <= 1 ->
  enable_antialiasing c = false ->
  PrimFloat.leb (defocus_angle c) 0 = true ->
  fst (frame n c world g0) = fst (frame n c world g0').
Proof.
  intros Hsteady Hdepth Haa Hdefocus.
  induction n as [| n IH]; [reflexivity |].
  cbn [frame].
  destruct (frame n c world g0) as [done g].
  destruct (frame n c world g0') as [done' g'].
  cbn [fst] in IH. subst done'.
  unfold render_pixel.
  pose proof (sample_sum_steady c world (Z.of_nat n mod image_width c)
                (Z.of_nat n / image_width c) (Z.to_nat (sample_count c))
                Hsteady Hdepth Haa Hdefocus black g g') as Hsame.
  destruct (sample_sum _ c world _ _ black g) as [colour g1].
  destruct (sample_sum _ c world _ _ black g') as [colour' g1'].
  cbn [fst] in Hsame. subst colour'.
  now destruct (pixel_bytes colour (sample_count c)) as [[r_byte g_byte] b_byte].
Qed.

(** C9: the pixel buffer a render produces is a function of the
    configuration, the scene and the state of the generator at the call
    alone: two runs that start from the same three and are not cancelled
    end with byte-for-byte identical buffers, whatever the clock shows and
    whatever the buffer, the progress value and the update flag held
    before.  In the scenario's configuration (antialiasing disabled, no
    defocus blur, [max_depth = 1]) and with materials that scatter as the
    diffuse one does, the buffer does not even depend on the state of the
    generator: the camera rays draw nothing from it and the one bounce is
    multiplied by black. *)
Theorem render_is_deterministic (c : camera) (world : H) (g0 : G)
  (E1 E2 : environment) (buffer1 buffer2 : list Z) (progress1 progress2 : spec_float)
  (texture1 texture2 : bool) :
  (forall n : nat, should_stop E1 n = false) ->
  (forall n : nat, should_stop E2 n = false) ->
  match
    render_to_buffer_with_progress tan E1 c world buffer1 progress1 texture1 g0,
    render_to_buffer_with_progress tan E2 c world buffer2 progress2 texture2 g0
  with
  | Returned c1 st1, Returned c2 st2 =>
      c1 = c2 /\ buffer st1 = buffer st2 /\ rng st1 = rng st2 /\
      buffer st1 = fst (frame (Z.to_nat (total_pixels c1)) c1 world g0)
  | Threw, Threw => True
  | _, _ => False
  end /\
  (enable_antialiasing c = false ->
   PrimFloat.leb (defocus_angle c) 0 = true ->
   max_depth c <= 1 ->
   steady_materials ->
   forall g0' : G,
     match
       render_to_buffer_with_progress tan E1 c world buffer1 progress1 texture1 g0,
       render_to_buffer_with_progress tan E2 c world buffer2 progress2 texture2 g0'
     with
     | Returned c1 st1, Returned c2 st2 => c1 = c2 /\ buffer st1 = buffer st2
     | Threw, Threw => True
     | _, _ => False
     end).
Proof.
  intros Hnever1 Hnever2. split.
  - destruct (render_to_buffer_with_progress tan E1 c world buffer1 progress1 texture1 g0)
      as [| c1 st1] eqn:Hrun1;
    destruct (render_to_buffer_with_progress tan E2 c world buffer2 progress2 texture2 g0)
      as [| c2 st2] eqn:Hrun2.
    + exact I.
    + apply render_threw in Hrun1.
      assert (Hno : render_to_buffer_with_progress tan E2 c world buffer2 progress2
                      texture2 g0 = Threw) by (now apply render_threw).
      congruence.
    + apply render_threw in Hrun2.
      assert (Hno : render_to_buffer_with_progress tan E1 c world buffer1 progress1
                      texture1 g0 = Threw) by (now apply render_threw).
      congruence.
    + apply render_complete in Hrun1 as (-> & _ & Hb1 & Hg1 & _); [| assumption].
      apply render_complete in Hrun2 as (-> & _ & Hb2 & Hg2 & _); [| assumption].
      repeat split; congruence.
  - intros Haa Hdefocus Hdepth Hsteady g0'.
    destruct (render_to_buffer_with_progress tan E1 c world buffer1 progress1 texture1 g0)
      as [| c1 st1] eqn:Hrun1;
    destruct (render_to_buffer_with_progress tan E2 c world buffer2 progress2 texture2 g0')
      as [| c2 st2] eqn:Hrun2.
    + exact I.
    + apply render_threw in Hrun1.
      assert (Hno : render_to_buffer_with_progress tan E2 c world buffer2 progress2
                      texture2 g0' = Threw) by (now apply render_threw).
      congruence.
    + apply render_threw in Hrun2.
      assert (Hno : render_to_buffer_with_progress tan E1 c world buffer1 progress1
                      texture1 g0 = Threw) by (now apply render_threw).
      congruence.
    + apply render_complete in Hrun1 as (-> & _ & Hb1 & _); [| assumption].
      apply render_complete in Hrun2 as (-> & _ & Hb2 & _); [| assumption].
      split; [reflexivity |]. rewrite Hb1, Hb2.
      now apply frame_steady.
Qed.


(** C4 (amended): during one call the update flag is raised at two places
    only.  After a pixel it is raised only when the clock reading taken
    after that pixel is at least 100 ms past the reading of the previous
    after-pixel raise (of the start of the call, when there was none), or
    at least [max(1, total_pixels / 100)] pixels were completed since the
    previous after-pixel raise, or all pixels are completed.  At the end of
    a row it is raised only when [j % max(1, image_height / 20) == 0], and
    it is raised there for every such row [j] the worker entered (the poll
    at the start of the row found the stop flag clear), whatever the time
    and the pixel counts are; when the stop flag is never set, these are
    all the rows of the image. *)
Theorem raises_come_from_two_places (E : environment) (c : camera) (world : H)
  (buffer0 : list Z) (progress0 : spec_float) (texture0 : bool) (g0 : G)
  (c' : camera) (st : @state G) :
  render_to_buffer_with_progress tan E c world buffer0 progress0 texture0 g0
  = Returned c' st ->
  (forall (after before : list event) (site : raise_site),
     log st = after ++ EvRaise site :: before ->
     match site with
     | AfterPixel =>
         update_interval <= last_reading before - throttle_time before \/
         update_frequency c' <= pixels_since_raise before \/
         pixels_done before = total_pixels c'
     | RowEnd j =>
         Z.rem j (Z.max 1 (Z.quot (image_height c') 20)) = 0
     end) /\
  (forall j : Z,
     In (EvPoll (AtRow j) false) (log st) ->
     Z.rem j (Z.max 1 (Z.quot (image_height c') 20)) = 0 ->
     In (EvRaise (RowEnd j)) (log st)) /\
  ((forall n : nat, should_stop E n = false) ->
   forall j : Z,
     0 <= j < image_height c' ->
     In (EvPoll (AtRow j) false) (log st) /\
     (Z.rem j (Z.max 1 (Z.quot (image_height c') 20)) = 0 ->
      In (EvRaise (RowEnd j)) (log st))).
Proof.
  intros Hret.
  destruct (render_loops _ _ _ _ _ _ _ _ _ Hret) as (Hc' & st0 & Hlog0 & Hst).
  set (st_loop := row_loop _ E c' world 0 st0) in Hst.
  assert (Hlog : log st = EvPoll AtExit (should_stop E (loads st_loop)) :: log st_loop)
    by (now rewrite Hst).
  assert (Hrows : rows_raised c' (log st)).
  { assert (Hloop : rows_raised c' (log st_loop)).
    { apply row_loop_raises. intros j Hin _. rewrite Hlog0 in Hin.
      destruct Hin as [Heq | []]. discriminate. }
    intros j Hin Hrem. rewrite Hlog in Hin |- *.
    destruct Hin as [Heq | Hin]; [discriminate |]. right. now apply Hloop. }
  split; [| split].
  - intros after before site Hsplit.
    apply render_consistent in Hret. apply log_wf in Hret.
    rewrite Hsplit in Hret. apply wf_log_split in Hret as [Hok _].
    exact Hok.
  - exact Hrows.
  - intros Hnever j Hj.
    assert (Hin : In (EvPoll (AtRow j) false) (log st)).
    { rewrite Hlog. right. apply row_loop_enters; [assumption | lia | lia]. }
    split; [exact Hin |]. intros Hrem. now apply Hrows.
Qed.


End RenderStatements.

(** ** The bytes of a black pixel *)

Section Black.

Context {G M H : Type@{scene}}.
Context `{RandomSource G} `{Material M G} `{Hittable H M}.

Variable tan : float -> float.

Lemma mul_zero_not_positive (s : float) : PrimFloat.ltb 0 (s * 0) = false.
Proof.
  rewrite ltb_spec, mul_spec.
  destruct (Prim2SF s) as [sg | sg | | sg m e]; try destruct sg; reflexivity.
Qed.

Lemma pixel_bytes_black (count : Z) : pixel_bytes black count = (0, 0, 0).
Proof.
  unfold pixel_bytes, black, Vec3.scale, Rt.linear_to_gamma. cbn [Vec3.x Vec3.y Vec3.z].
  rewrite mul_zero_not_positive. reflexivity.
Qed.

Lemma frame_black (c : camera) (world : H) (g0 : G) (n : nat) :
  (forall (i j : Z) (g : G),
     fst (sample_sum (Z.to_nat (sample_count c)) c world i j black g) = black) ->
  fst (frame n c world g0) = replicate (3 * n) 0.
Proof.
  intros Hblack. induction n as [| n IH]; [reflexivity |].
  cbn [frame]. destruct (frame n c world g0) as [done g]. cbn [fst] in IH.
  unfold render_pixel.
  specialize (Hblack (Z.of_nat n mod image_width c) (Z.of_nat n / image_width c) g).
  destruct (sample_sum _ c world _ _ black g) as [pixel_color g'].
  cbn [fst] in Hblack. subst pixel_color. rewrite pixel_bytes_black. cbn [fst].
  rewrite IH. replace (3 * S n)%nat with (3 * n + 3)%nat by lia.
  now rewrite replicate_add.
Qed.

End Black.

(** ** The update flag and its throttle *)

Section Refresh.

Context {G M H : Type@{scene}}.
Context `{RandomSource G} `{Material M G} `{Hittable H M}.

Variable E : environment.
Variable c : camera.
Variable world : H.
Variable texture0 : bool.

Local Abbreviation up_to_date := (@refreshing G c texture0).

Lemma update_frequency_positive : 1 <= update_frequency c.
Proof. unfold update_frequency. lia. Qed.

Lemma refreshing_poll (site : poll_site) (st : @state G) :
  up_to_date st -> up_to_date (snd (load_should_stop E site st)).
Proof.
  intros [Hflag Hpending Hbound Hgaps].
  constructor; cbn; try assumption. split; [lia | assumption].
Qed.

Lemma refreshing_sample (i j sample : Z) (pixel_color : color) (st : @state G) :
  up_to_date st -> up_to_date (snd (take_sample c world i j sample pixel_color st)).
Proof.
  intros [Hflag Hpending Hbound Hgaps]. unfold take_sample.
  destruct (get_ray c i j (rng st)) as [r g1].
  destruct (ray_color c world r (max_depth c) g1) as [sampled g2].
  constructor; cbn; try assumption. split; [lia | assumption].
Qed.

Lemma refreshing_row_end (j : Z) (st : @state G) :
  up_to_date st -> up_to_date (row_end c j st).
Proof.
  intros Hst. unfold row_end.
  destruct (Z.rem j (Z.max 1 (Z.quot (image_height c) 20)) =? 0); [| assumption].
  destruct Hst as [Hflag Hpending Hbound Hgaps].
  constructor; cbn; try assumption.
  - now rewrite orb_true_r.
  - split; [lia | assumption].
Qed.

Lemma refreshing_pixel (i j : Z) (bytes : Z * Z * Z) (st : @state G) :
  up_to_date st -> up_to_date (after_pixel E c (store_pixel c i j bytes st)).
Proof.
  intros [Hflag Hpending Hbound Hgaps].
  pose proof update_frequency_positive as Hone.
  destruct bytes as [[r_byte g_byte] b_byte].
  unfold after_pixel. cbn.
  destruct (Z.leb_spec (update_frequency c) (pixels_since_update st + 1)) as [Hfull | Hroom];
    [rewrite orb_true_r | rewrite orb_false_r]; cbn;
    try match goal with |- context [if ?b then _ else _] => destruct b end;
    (constructor; cbn;
     [rewrite ?orb_true_r; try reflexivity; assumption
     | try reflexivity; try assumption; lia
     | lia
     | repeat split; try assumption; lia]).
Qed.

Lemma sample_loop_refreshing (i j : Z) (fuel : nat) :
  forall (sample : Z) (pixel_color : color) (st : @state G),
    up_to_date st -> up_to_date (snd (sample_loop fuel E c world i j sample pixel_color st)).
Proof.
  induction fuel as [| fuel IH]; intros sample pixel_color st Hst;
    cbn [sample_loop]; [assumption |].
  destruct (sample <? sample_count c); [| assumption].
  pose proof (refreshing_poll (AtSample j i sample) st Hst) as Hst1.
  destruct (load_should_stop E (AtSample j i sample) st) as [stop st1].
  cbn [snd] in Hst1. destruct stop; [assumption |].
  pose proof (refreshing_sample i j sample pixel_color st1 Hst1) as Hst2.
  destruct (take_sample c world i j sample pixel_color st1) as [color2 st2].
  now apply IH.
Qed.

Lemma pixel_body_refreshing (i j : Z) (st : @state G) :
  up_to_date st -> up_to_date (snd (pixel_body E c world i j st)).
Proof.
  intros Hst. unfold pixel_body.
  pose proof (sample_loop_refreshing i j (S (Z.to_nat (sample_count c))) 0 black st Hst)
    as Hst1.
  destruct (sample_loop _ E c world i j 0 black st) as [pixel_color st1].
  cbn [snd] in Hst1.
  pose proof (refreshing_poll (AfterSamples j i) st1 Hst1) as Hst2.
  destruct (load_should_stop E (AfterSamples j i) st1) as [stop st2].
  cbn [snd] in Hst2. destruct stop; [assumption |].
  now apply refreshing_pixel.
Qed.

Lemma pixel_loop_refreshing (j : Z) (fuel : nat) :
  forall (i : Z) (st : @state G),
    up_to_date st -> up_to_date (pixel_loop fuel E c world i j st).
Proof.
  induction fuel as [| fuel IH]; intros i st Hst; cbn [pixel_loop]; [assumption |].
  destruct (i <? image_width c); [| assumption].
  pose proof (refreshing_poll (AtPixel j i) st Hst) as Hst1.
  destruct (load_should_stop E (AtPixel j i) st) as [stop st1].
  cbn [snd] in Hst1. destruct stop; [assumption |].
  pose proof (pixel_body_refreshing i j st1 Hst1) as Hst2.
  destruct (pixel_body E c world i j st1) as [broke st2].
  cbn [snd] in Hst2. destruct broke; [assumption |].
  now apply IH.
Qed.

Lemma row_loop_refreshing (fuel : nat) :
  forall (j : Z) (st : @state G),
    up_to_date st -> up_to_date (row_loop fuel E c world j st).
Proof.
  induction fuel as [| fuel IH]; intros j st Hst; cbn [row_loop]; [assumption |].
  destruct (j <? image_height c); [| assumption].
  pose proof (refreshing_poll (AtRow j) st Hst) as Hst1.
  destruct (load_should_stop E (AtRow j) st) as [stop st1].
  cbn [snd] in Hst1. destruct stop; [assumption |].
  apply IH. apply refreshing_row_end. now apply pixel_loop_refreshing.
Qed.

End Refresh.

(** ** After the stop flag is seen *)

Section WindDown.

Context {G M H : Type@{scene}}.
Context `{RandomSource G} `{Material M G} `{Hittable H M}.

Variable E : environment.
Variable c : camera.
Variable world : H.

Hypothesis flag_set_once : set_once E.

Lemma agree_live (st : @state G) : agree E st -> ~ stopped E st -> live (log st).
Proof. intros Hagree Hlive site Hin. apply Hlive, Hagree. now exists site. Qed.

Lemma halted_stopped (k r : nat) (st : @state G) :
  agree E st -> halted k r (log st) -> stopped E st.
Proof.
  intros Hagree (after & site & before & Hlog & _). apply Hagree.
  exists site. rewrite Hlog. apply in_or_app. right. now left.
Qed.

Lemma halted_more (k k' r r' : nat) (l : list event) :
  (k <= k')%nat -> (r <= r')%nat -> halted k r l -> halted k' r' l.
Proof.
  intros Hk Hr (after & site & before & Hlog & Hlive & Hwind & Hpolls & Hlen).
  exists after, site, before. repeat split; try assumption; lia.
Qed.

Lemma halted_now (site : poll_site) (l : list event) :
  live l -> halted 0 0 (EvPoll site true :: l).
Proof.
  intros Hlive. exists [], site, l. repeat split; try assumption; try constructor.
Qed.

Lemma halted_poll (k r : nat) (site : poll_site) (l : list event) :
  halted k r l -> halted (S k) r (EvPoll site true :: l).
Proof.
  intros (after & site' & before & -> & Hlive & Hwind & Hpolls & Hlen).
  exists (EvPoll site true :: after), site', before.
  repeat split; try assumption; [now constructor | cbn; lia | cbn; lia].
Qed.

Lemma agree_poll (site : poll_site) (st : @state G) :
  agree E st -> agree E (snd (load_should_stop E site st)).
Proof.
  intros Hagree. unfold agree. rewrite stopped_load.
  change (log (snd (load_should_stop E site st)))
    with (EvPoll site (should_stop E (loads st)) :: log st).
  split.
  - intros [Hs | Hv].
    + apply Hagree in Hs as [site' Hin]. exists site'. now right.
    + exists site. left. now rewrite Hv.
  - intros [site' [Heq | Hin]].
    + right. now injection Heq.
    + left. apply Hagree. now exists site'.
Qed.

Lemma agree_same (st st' : @state G) (newer : list event) :
  agree E st -> loads st' = loads st -> log st' = newer ++ log st ->
  (forall site v, ~ In (EvPoll site v) newer) ->
  agree E st'.
Proof.
  intros Hagree Hloads Hlog Hnone. unfold agree, stopped. rewrite Hloads, Hlog.
  split.
  - intros Hs. apply Hagree in Hs as [site Hin]. exists site.
    apply in_or_app. now right.
  - intros [site Hin]. apply in_app_or in Hin as [Hin | Hin].
    + now apply Hnone in Hin.
    + apply Hagree. now exists site.
Qed.

Lemma agree_sample (i j sample : Z) (pixel_color : color) (st : @state G) :
  agree E st -> agree E (snd (take_sample c world i j sample pixel_color st)).
Proof.
  intros Hagree. unfold take_sample.
  destruct (get_ray c i j (rng st)) as [r g1].
  destruct (ray_color c world r (max_depth c) g1) as [sampled g2].
  apply (agree_same st _ [EvSample j i sample sampled]); try assumption; try reflexivity.
  intros site v [Heq | []]. discriminate.
Qed.

Lemma stopped_sample (i j sample : Z) (pixel_color : color) (st : @state G) :
  stopped E (snd (take_sample c world i j sample pixel_color st)) <-> stopped E st.
Proof.
  unfold take_sample.
  destruct (get_ray c i j (rng st)) as [r g1].
  now destruct (ray_color c world r (max_depth c) g1) as [sampled g2].
Qed.

Lemma agree_pixel (i j : Z) (bytes : Z * Z * Z) (st : @state G) :
  agree E st -> agree E (after_pixel E c (store_pixel c i j bytes st)).
Proof.
  intros Hagree. destruct bytes as [[r_byte g_byte] b_byte].
  unfold after_pixel. cbn.
  match goal with |- context [if ?b then _ else _] => destruct b end.
  - eapply (agree_same st _ [_; _; _; _]); try assumption; try reflexivity.
    intros site v Hin. repeat (destruct Hin as [Heq | Hin]; [discriminate |]). destruct Hin.
  - eapply (agree_same st _ [_; _; _]); try assumption; try reflexivity.
    intros site v Hin. repeat (destruct Hin as [Heq | Hin]; [discriminate |]). destruct Hin.
Qed.

Lemma stopped_pixel (i j : Z) (bytes : Z * Z * Z) (st : @state G) :
  stopped E (after_pixel E c (store_pixel c i j bytes st)) <-> stopped E st.
Proof.
  destruct bytes as [[r_byte g_byte] b_byte]. unfold after_pixel. cbn.
  now match goal with |- context [if ?b then _ else _] => destruct b end.
Qed.

Lemma agree_row_end (j : Z) (st : @state G) : agree E st -> agree E (row_end c j st).
Proof.
  intros Hagree. unfold row_end.
  destruct (Z.rem j (Z.max 1 (Z.quot (image_height c) 20)) =? 0); [| assumption].
  apply (agree_same st _ [EvRaise (RowEnd j)]); try assumption; try reflexivity.
  intros site v [Heq | []]. discriminate.
Qed.

Lemma stopped_row_end (j : Z) (st : @state G) :
  stopped E (row_end c j st) <-> stopped E st.
Proof.
  unfold row_end.
  destruct (Z.rem j (Z.max 1 (Z.quot (image_height c) 20)) =? 0); reflexivity.
Qed.

Lemma halted_row_end (k : nat) (j : Z) (st : @state G) :
  halted k 0 (log st) -> halted k 1 (log (row_end c j st)).
Proof.
  intros Hhalted. unfold row_end.
  destruct (Z.rem j (Z.max 1 (Z.quot (image_height c) 20)) =? 0);
    [| apply (halted_more k k 0 1); [lia | lia | assumption]].
  destruct Hhalted as (after & site & before & Hlog & Hlive & Hwind & Hpolls & Hlen).
  exists (EvRaise (RowEnd j) :: after), site, before. cbn [log raise_update].
  rewrite Hlog. repeat split; try assumption; [now constructor | cbn; lia].
Qed.

(** One read of the flag, from a state in which none has found it set. *)
Lemma poll_live (site : poll_site) (st : @state G) :
  agree E st -> ~ stopped E st ->
  agree E (snd (load_should_stop E site st))
  /\ (if fst (load_should_stop E site st)
      then halted 0 0 (log (snd (load_should_stop E site st)))
      else ~ stopped E (snd (load_should_stop E site st))).
Proof.
  intros Hagree Hlive. split; [now apply agree_poll |].
  change (fst (load_should_stop E site st)) with (should_stop E (loads st)).
  destruct (should_stop E (loads st)) eqn:Hv.
  - change (log (snd (load_should_stop E site st)))
      with (EvPoll site (should_stop E (loads st)) :: log st).
    rewrite Hv. apply halted_now. now apply agree_live.
  - rewrite stopped_load. intros [Hs | Hs]; [contradiction | congruence].
Qed.

(** One read of the flag after a read that found it set. *)
Lemma poll_halted (k r : nat) (site : poll_site) (st : @state G) :
  agree E st -> halted k r (log st) ->
  fst (load_should_stop E site st) = true
  /\ agree E (snd (load_should_stop E site st))
  /\ halted (S k) r (log (snd (load_should_stop E site st))).
Proof.
  intros Hagree Hhalted.
  pose proof (halted_stopped k r st Hagree Hhalted) as Hs.
  apply (stopped_next_poll E flag_set_once) in Hs.
  split; [exact Hs |]. split; [now apply agree_poll |].
  change (log (snd (load_should_stop E site st)))
    with (EvPoll site (should_stop E (loads st)) :: log st).
  rewrite Hs. now apply halted_poll.
Qed.

Lemma sample_loop_winds_down (i j : Z) (fuel : nat) :
  forall (sample : Z) (pixel_color : color) (st : @state G),
    agree E st -> ~ stopped E st ->
    agree E (snd (sample_loop fuel E c world i j sample pixel_color st))
    /\ (~ stopped E (snd (sample_loop fuel E c world i j sample pixel_color st))
        \/ halted 0 0 (log (snd (sample_loop fuel E c world i j sample pixel_color st)))).
Proof.
  induction fuel as [| fuel IH]; intros sample pixel_color st Hagree Hlive;
    cbn [sample_loop]; [now split; [| left] |].
  destruct (sample <? sample_count c); [| now split; [| left]].
  destruct (poll_live (AtSample j i sample) st Hagree Hlive) as [Hagree1 Hpoll].
  destruct (load_should_stop E (AtSample j i sample) st) as [stop st1].
  cbn [fst snd] in Hagree1, Hpoll. destruct stop; [now split; [| right] |].
  pose proof (agree_sample i j sample pixel_color st1 Hagree1) as Hagree2.
  pose proof (stopped_sample i j sample pixel_color st1) as Hsame.
  destruct (take_sample c world i j sample pixel_color st1) as [color2 st2].
  cbn [snd] in Hagree2, Hsame. apply IH; [assumption | now rewrite Hsame].
Qed.

Lemma pixel_body_winds_down (i j : Z) (st : @state G) :
  agree E st -> ~ stopped E st ->
  agree E (snd (pixel_body E c world i j st))
  /\ (if fst (pixel_body E c world i j st)
      then halted 1 0 (log (snd (pixel_body E c world i j st)))
      else ~ stopped E (snd (pixel_body E c world i j st))).
Proof.
  intros Hagree Hlive. unfold pixel_body.
  destruct (sample_loop_winds_down i j (S (Z.to_nat (sample_count c))) 0 black st
              Hagree Hlive) as [Hagree1 Hloop].
  destruct (sample_loop _ E c world i j 0 black st) as [pixel_color st1].
  cbn [snd] in Hagree1, Hloop.
  destruct Hloop as [Hlive1 | Hhalted1].
  - destruct (poll_live (AfterSamples j i) st1 Hagree1 Hlive1) as [Hagree2 Hpoll].
    destruct (load_should_stop E (AfterSamples j i) st1) as [stop st2].
    cbn [fst snd] in Hagree2, Hpoll. destruct stop; cbn [fst snd].
    + split; [assumption |]. apply (halted_more 0 1 0 0); [lia | lia | assumption].
    + split; [now apply agree_pixel | now rewrite stopped_pixel].
  - destruct (poll_halted 0 0 (AfterSamples j i) st1 Hagree1 Hhalted1)
      as (Hstop & Hagree2 & Hhalted2).
    destruct (load_should_stop E (AfterSamples j i) st1) as [stop st2].
    cbn [fst snd] in Hstop, Hagree2, Hhalted2. subst stop. now split.
Qed.

Lemma pixel_loop_winds_down (j : Z) (fuel : nat) :
  forall (i : Z) (st : @state G),
    agree E st -> ~ stopped E st ->
    agree E (pixel_loop fuel E c world i j st)
    /\ (~ stopped E (pixel_loop fuel E c world i j st)
        \/ halted 1 0 (log (pixel_loop fuel E c world i j st))).
Proof.
  induction fuel as [| fuel IH]; intros i st Hagree Hlive;
    cbn [pixel_loop]; [now split; [| left] |].
  destruct (i <? image_width c); [| now split; [| left]].
  destruct (poll_live (AtPixel j i) st Hagree Hlive) as [Hagree1 Hpoll].
  destruct (load_should_stop E (AtPixel j i) st) as [stop st1].
  cbn [fst snd] in Hagree1, Hpoll.
  destruct stop; [split; [assumption | right; apply (halted_more 0 1 0 0); [lia | lia | assumption]] |].
  destruct (pixel_body_winds_down i j st1 Hagree1 Hpoll) as [Hagree2 Hbody].
  destruct (pixel_body E c world i j st1) as [broke st2].
  cbn [fst snd] in Hagree2, Hbody. destruct broke; [now split; [| right] |].
  now apply IH.
Qed.

Lemma row_loop_halted (k r : nat) (fuel : nat) (j : Z) (st : @state G) :
  agree E st -> halted k r (log st) ->
  agree E (row_loop fuel E c world j st)
  /\ halted (S k) r (log (row_loop fuel E c world j st)).
Proof.
  intros Hagree Hhalted.
  assert (Hkeep : halted (S k) r (log st)) by (apply (halted_more k (S k) r r); [lia | lia | assumption]).
  destruct fuel as [| fuel]; cbn [row_loop]; [now split |].
  destruct (j <? image_height c); [| now split].
  destruct (poll_halted k r (AtRow j) st Hagree Hhalted) as (Hstop & Hagree1 & Hhalted1).
  destruct (load_should_stop E (AtRow j) st) as [stop st1].
  cbn [fst snd] in Hstop, Hagree1, Hhalted1. subst stop. now split.
Qed.

Lemma row_loop_winds_down (fuel : nat) :
  forall (j : Z) (st : @state G),
    agree E st -> ~ stopped E st ->
    agree E (row_loop fuel E c world j st)
    /\ (~ stopped E (row_loop fuel E c world j st)
        \/ halted 2 1 (log (row_loop fuel E c world j st))).
Proof.
  induction fuel as [| fuel IH]; intros j st Hagree Hlive;
    cbn [row_loop]; [now split; [| left] |].
  destruct (j <? image_height c); [| now split; [| left]].
  destruct (poll_live (AtRow j) st Hagree Hlive) as [Hagree1 Hpoll].
  destruct (load_should_stop E (AtRow j) st) as [stop st1].
  cbn [fst snd] in Hagree1, Hpoll.
  destruct stop; [split; [assumption | right; apply (halted_more 0 2 0 1); [lia | lia | assumption]] |].
  destruct (pixel_loop_winds_down j (S (Z.to_nat (image_width c))) 0 st1 Hagree1 Hpoll)
    as [Hagree2 [Hlive2 | Hhalted2]].
  - apply IH; [now apply agree_row_end | now rewrite stopped_row_end].
  - apply (halted_row_end 1 j) in Hhalted2.
    destruct (row_loop_halted 1 1 fuel (j + 1) (row_end c j _)
                (agree_row_end j _ Hagree2) Hhalted2) as [Hagree3 Hhalted3].
    split; [assumption | now right].
Qed.

End WindDown.

Lemma first_stop_unique (after1 after2 before1 before2 : list event)
  (site1 site2 : poll_site) :
  after1 ++ EvPoll site1 true :: before1 = after2 ++ EvPoll site2 true :: before2 ->
  live before1 -> live before2 ->
  after1 = after2 /\ site1 = site2 /\ before1 = before2.
Proof.
  revert after2. induction after1 as [| e after1 IH]; intros [| e' after2] Heq Hl1 Hl2.
  - injection Heq as <- <-. now repeat split.
  - injection Heq as <- ->. exfalso. apply (Hl1 site2).
    apply in_or_app. right. now left.
  - injection Heq as -> <-. exfalso. apply (Hl2 site1).
    apply in_or_app. right. now left.
  - injection Heq as <- Heq. destruct (IH after2 Heq Hl1 Hl2) as (-> & -> & ->).
    now repeat split.
Qed.

(** ** Reading back what [export_ppm] writes *)

Module TextFacts.

Import Stdlib.Strings.Ascii Stdlib.Strings.String.
Import Text.
Local Open Scope string_scope.

Lemma append_assoc (s1 s2 s3 : string) : (s1 ++ s2) ++ s3 = s1 ++ (s2 ++ s3).
Proof. induction s1 as [| a s1 IH]; cbn; [reflexivity | now rewrite IH]. Qed.

Lemma append_nil_r (s : string) : s ++ "" = s.
Proof. induction s as [| a s IH]; cbn; [reflexivity | now rewrite IH]. Qed.

Lemma solid_uint (d : Decimal.uint) : solid (DecimalString.NilEmpty.string_of_uint d) = true.
Proof. induction d; cbn; try assumption; reflexivity. Qed.

Lemma solid_dec (n : Z) : solid (dec n) = true.
Proof.
  unfold dec. destruct (Z.to_int n) as [d | d]; cbn.
  - destruct d; try reflexivity; apply (solid_uint (_ d)).
  - destruct d; try reflexivity; apply (solid_uint (_ d)).
Qed.

Lemma dec_nonempty (n : Z) : dec n <> "".
Proof.
  unfold dec. destruct (Z.to_int n) as [d | d]; cbn; [| discriminate].
  destruct d; discriminate.
Qed.

Lemma read_dec (n : Z) : read_int (dec n) = Some n.
Proof.
  unfold read_int, dec. rewrite DecimalString.NilZero.isi.
  - cbn. now rewrite DecimalZ.of_to.
  - destruct n; cbn; try discriminate.
    intros [= Hnil]. now apply DecimalPos.Unsigned.to_uint_nonnil in Hnil.
  - destruct n; cbn; try discriminate.
    intros [= Hnil]. now apply DecimalPos.Unsigned.to_uint_nonnil in Hnil.
Qed.

Lemma split_word (token rest : string) (sep : ascii) :
  solid token = true -> blank sep = true ->
  forall word : string,
    word ++ token <> "" ->
    split (token ++ String sep rest) word = (word ++ token) :: split rest "".
Proof.
  intros Hsolid Hsep. induction token as [| a token IH]; intros word Hne.
  - cbn [append split]. rewrite Hsep. rewrite append_nil_r in *.
    destruct word; [contradiction | reflexivity].
  - cbn in Hsolid. apply andb_true_iff in Hsolid as [Ha Hsolid].
    apply negb_true_iff in Ha. cbn [append split]. rewrite Ha.
    rewrite (IH Hsolid).
    + now rewrite append_assoc.
    + rewrite append_assoc. cbn. destruct word; discriminate.
Qed.

Lemma words_cons (token rest : string) (sep : ascii) :
  solid token = true -> blank sep = true -> token <> "" ->
  words (token ++ String sep rest) = token :: words rest.
Proof.
  intros Hsolid Hsep Hne. unfold words.
  now rewrite (split_word token rest sep Hsolid Hsep "" Hne).
Qed.

Lemma append_char (a : ascii) (s : string) : String a "" ++ s = String a s.
Proof. reflexivity. Qed.

Lemma lines_of_app (n : nat) :
  forall l l' : list Z,
    List.length l = (3 * n)%nat -> lines_of (l ++ l') = lines_of l ++ lines_of l'.
Proof.
  induction n as [| n IH]; intros l l' Hlen.
  - destruct l; [reflexivity | discriminate].
  - destruct l as [| r [| g [| b l]]]; try (cbn in Hlen; lia).
    cbn [lines_of app]. rewrite (IH l l') by (cbn in Hlen; lia).
    now rewrite !append_assoc.
Qed.

Lemma words_lines (n : nat) :
  forall l : list Z, List.length l = (3 * n)%nat -> words (lines_of l) = map dec l.
Proof.
  induction n as [| n IH]; intros l Hlen.
  - destruct l; [reflexivity | discriminate].
  - destruct l as [| r [| g [| b l]]]; try (cbn in Hlen; lia).
    cbn [lines_of map]. unfold pixel_line, newline.
    rewrite !append_assoc, !append_char.
    rewrite (words_cons (dec r)) by (apply solid_dec || reflexivity || apply dec_nonempty).
    rewrite (words_cons (dec g)) by (apply solid_dec || reflexivity || apply dec_nonempty).
    rewrite (words_cons (dec b)) by (apply solid_dec || reflexivity || apply dec_nonempty).
    rewrite IH by (cbn in Hlen; lia). reflexivity.
Qed.

Lemma read_samples (l : list Z) : mapM read_int (map dec l) = Some l.
Proof.
  induction l as [| n l IH]; [reflexivity |].
  cbn. rewrite read_dec. cbn. rewrite IH. reflexivity.
Qed.

Lemma read_header (width height : Z) (n : nat) (l : list Z) :
  List.length l = (3 * n)%nat ->
  read_ppm (header width height ++ lines_of l) = Some (width, height, 255, l).
Proof.
  intros Hlen. unfold read_ppm, header, newline.
  rewrite !append_assoc, !append_char.
  rewrite (words_cons "P3") by (reflexivity || discriminate).
  rewrite (words_cons (dec width)) by (apply solid_dec || reflexivity || apply dec_nonempty).
  rewrite (words_cons (dec height)) by (apply solid_dec || reflexivity || apply dec_nonempty).
  rewrite (words_cons "255") by (reflexivity || discriminate).
  rewrite (words_lines n l Hlen).
  cbn [String.eqb Ascii.eqb Bool.eqb].
  rewrite !read_dec, read_samples. reflexivity.
Qed.

End TextFacts.

(** ** The loops of [export_ppm] *)

Section ExportLoops.

Variable image_buffer : list Z.
Variable width : Z.
Variable base : String.string.

Hypothesis width_positive : 0 < width.

Lemma take_three (k : nat) (r g b : Z) :
  image_buffer !! (3 * k)%nat = Some r ->
  image_buffer !! (3 * k + 1)%nat = Some g ->
  image_buffer !! (3 * k + 2)%nat = Some b ->
  take (3 * S k) image_buffer = take (3 * k) image_buffer ++ [r; g; b].
Proof.
  intros Hr Hg Hb.
  replace (3 * S k)%nat with (S (S (S (3 * k)))) by lia.
  rewrite (take_S_r _ (S (S (3 * k))) b) by (rewrite <- Hb; f_equal; lia).
  rewrite (take_S_r _ (S (3 * k)) g) by (rewrite <- Hg; f_equal; lia).
  rewrite (take_S_r _ (3 * k) r) by assumption.
  now rewrite <- !app_assoc.
Qed.

(** The text written once the first [k] pixels are out. *)
Definition written (k : Z) : String.string :=
  String.append base (Text.lines_of (take (3 * Z.to_nat k) image_buffer)).

Lemma put_pixel_written (i j : Z) :
  0 <= i -> 0 <= j ->
  App.put_pixel image_buffer width i j (written (j * width + i))
  = if (3 * (j * width + i) + 3 <=? Z.of_nat (length image_buffer))
    then Some (written (j * width + i + 1)) else None.
Proof.
  intros Hi Hj. unfold App.put_pixel.
  assert (Hk : 0 <= j * width + i) by nia.
  set (k := j * width + i) in *.
  replace (Z.to_nat (k * 3)) with (3 * Z.to_nat k)%nat by lia.
  replace (Z.to_nat (k * 3 + 1)) with (3 * Z.to_nat k + 1)%nat by lia.
  replace (Z.to_nat (k * 3 + 2)) with (3 * Z.to_nat k + 2)%nat by lia.
  destruct (Z.leb_spec (3 * k + 3) (Z.of_nat (length image_buffer))) as [Hfits | Hshort].
  - destruct (lookup_lt_is_Some_2 image_buffer (3 * Z.to_nat k)) as [r Hr]; [lia |].
    destruct (lookup_lt_is_Some_2 image_buffer (3 * Z.to_nat k + 1)) as [g Hg]; [lia |].
    destruct (lookup_lt_is_Some_2 image_buffer (3 * Z.to_nat k + 2)) as [b Hb]; [lia |].
    rewrite Hr, Hg, Hb. f_equal. unfold written.
    replace (Z.to_nat (k + 1)) with (S (Z.to_nat k)) by lia.
    rewrite (take_three _ r g b Hr Hg Hb).
    rewrite (TextFacts.lines_of_app (Z.to_nat k)) by (rewrite length_take; lia).
    cbn [Text.lines_of]. now rewrite TextFacts.append_nil_r, TextFacts.append_assoc.
  - assert (Hnone : image_buffer !! (3 * Z.to_nat k + 2)%nat = None)
      by (apply lookup_ge_None_2; lia).
    rewrite Hnone.
    destruct (image_buffer !! (3 * Z.to_nat k)%nat); [| reflexivity].
    now destruct (image_buffer !! (3 * Z.to_nat k + 1)%nat).
Qed.

Lemma export_row_written (j : Z) (fuel : nat) :
  0 <= j ->
  forall i : Z,
    0 <= i <= width -> (Z.to_nat (width - i) < fuel)%nat ->
    App.export_row fuel image_buffer width i j (written (j * width + i))
    = if (i <? width) && negb (3 * (j * width + width) <=? Z.of_nat (length image_buffer))
      then None else Some (written (j * width + width)).
Proof.
  intros Hj. induction fuel as [| fuel IH]; intros i Hi Hfuel; [lia |].
  cbn [App.export_row].
  destruct (Z.ltb_spec i width) as [Hlt | Hge]; cbn [andb];
    [| replace i with width by lia; reflexivity].
  rewrite put_pixel_written by lia.
  destruct (Z.leb_spec (3 * (j * width + i) + 3) (Z.of_nat (length image_buffer)))
    as [Hfits | Hshort].
  - replace (j * width + i + 1) with (j * width + (i + 1)) by lia.
    rewrite IH by lia.
    destruct (Z.ltb_spec (i + 1) width) as [Hlt' | Hge']; cbn [andb]; [reflexivity |].
    replace (3 * (j * width + width) <=? Z.of_nat (length image_buffer)) with true;
      [reflexivity |].
    symmetry. apply Z.leb_le. nia.
  - replace (3 * (j * width + width) <=? Z.of_nat (length image_buffer)) with false;
      [reflexivity |].
    symmetry. apply Z.leb_gt. nia.
Qed.

Lemma export_rows_written (height : Z) (fuel : nat) :
  forall j : Z,
    0 <= j <= height -> (Z.to_nat (height - j) < fuel)%nat ->
    App.export_rows fuel image_buffer width height j (written (j * width))
    = if (j <? height) && negb (3 * (height * width) <=? Z.of_nat (length image_buffer))
      then None else Some (written (height * width)).
Proof.
  induction fuel as [| fuel IH]; intros j Hj Hfuel; [lia |].
  cbn [App.export_rows].
  destruct (Z.ltb_spec j height) as [Hlt | Hge]; cbn [andb];
    [| replace j with height by lia; reflexivity].
  replace (j * width) with (j * width + 0) at 1 by lia.
  rewrite export_row_written by lia.
  replace (0 <? width) with true by (symmetry; apply Z.ltb_lt; lia). cbn [andb].
  destruct (Z.leb_spec (3 * (j * width + width)) (Z.of_nat (length image_buffer)))
    as [Hfits | Hshort]; cbn [negb].
  - replace (j * width + width) with ((j + 1) * width) by lia.
    rewrite IH by lia.
    destruct (Z.ltb_spec (j + 1) height) as [Hlt' | Hge']; cbn [andb]; [reflexivity |].
    replace (3 * (height * width) <=? Z.of_nat (length image_buffer)) with true;
      [reflexivity |].
    symmetry. apply Z.leb_le. nia.
  - replace (3 * (height * width) <=? Z.of_nat (length image_buffer)) with false;
      [reflexivity |].
    symmetry. apply Z.leb_gt. nia.
Qed.

End ExportLoops.

Lemma export_row_empty (image_buffer : list Z) (width j : Z) (file : String.string)
  (fuel : nat) :
  width <= 0 -> App.export_row fuel image_buffer width 0 j file = Some file.
Proof.
  intros Hw. destruct fuel as [| fuel]; [reflexivity |]. cbn [App.export_row].
  now destruct (Z.ltb_spec 0 width); [lia |].
Qed.

Lemma export_rows_empty (image_buffer : list Z) (width height : Z)
  (file : String.string) (fuel : nat) :
  width <= 0 ->
  forall j : Z, App.export_rows fuel image_buffer width height j file = Some file.
Proof.
  intros Hw. induction fuel as [| fuel IH]; intros j; [reflexivity |].
  cbn [App.export_rows]. destruct (j <? height); [| reflexivity].
  rewrite export_row_empty by assumption. apply IH.
Qed.

(** What [export_ppm] does with a buffer that is not empty and a file that
    opens. *)
Lemma export_ppm_written (a : App.app) :
  App.image_buffer a <> [] ->
  let width := App.current_image_width a in
  let height := App.current_image_height a in
  App.export_ppm true a
  = if (0 <? width) && (0 <? height)
       && negb (3 * (height * width) <=? Z.of_nat (length (App.image_buffer a)))
    then App.OutOfBounds
    else App.Written
           (String.append (Text.header width height)
              (Text.lines_of
                 (take (3 * Z.to_nat (Z.max 0 height * Z.max 0 width)) (App.image_buffer a)))).
Proof.
  intros Hne width height. unfold App.export_ppm. fold width height.
  destruct (App.image_buffer a) as [| byte rest] eqn:Hbuffer; [contradiction |].
  rewrite <- Hbuffer. clear Hne.
  destruct (Z.ltb_spec 0 width) as [Hw | Hw]; cbn [andb].
  - pose proof (export_rows_written (App.image_buffer a) width (Text.header width height)
                  Hw height (S (Z.to_nat height)) 0) as Hrows.
    unfold written in Hrows. cbn [Z.mul Z.to_nat Nat.mul take Text.lines_of] in Hrows.
    rewrite TextFacts.append_nil_r in Hrows.
    destruct (Z.ltb_spec 0 height) as [Hh | Hh]; cbn [andb].
    + rewrite Hrows by lia.
      replace (0 <? height) with true by (symmetry; apply Z.ltb_lt; lia). cbn [andb].
      destruct (3 * (height * width) <=? Z.of_nat (length (App.image_buffer a)));
        cbn [negb]; [| reflexivity].
      now replace (Z.max 0 height * Z.max 0 width) with (height * width) by lia.
    + cbn [App.export_rows].
      replace (0 <? height) with false by (symmetry; apply Z.ltb_ge; lia).
      replace (Z.max 0 height) with 0 by lia.
      cbn [Z.mul Z.to_nat Nat.mul take Text.lines_of].
      now rewrite TextFacts.append_nil_r.
  - rewrite export_rows_empty by assumption.
    replace (Z.max 0 width) with 0 by lia. rewrite Z.mul_0_r.
    cbn [Z.to_nat Nat.mul take Text.lines_of].
    now rewrite TextFacts.append_nil_r.
Qed.

(** * More of the render *)

Section MoreOfTheRender.

Context {G M H : Type@{scene}}.
Context `{RandomSource G} `{Material M G} `{Hittable H M}.

Variable tan : float -> float.

(** A call that returns, spelled out. *)
Lemma render_run (E : environment) (c : camera) (world : H)
  (buffer0 : list Z) (progress0 : spec_float) (texture0 : bool) (g0 : G)
  (c' : camera) (st : @state G) :
  render_to_buffer_with_progress tan E c world buffer0 progress0 texture0 g0
  = Returned c' st ->
  c' = initialize tan c /\
  st = snd (load_should_stop E AtExit
              (row_loop (S (Z.to_nat (image_height (initialize tan c)))) E
                 (initialize tan c) world 0
                 (before_loops E
                    (Z.to_nat (image_width (initialize tan c)
                               * image_height (initialize tan c) * 3))
                    buffer0 progress0 texture0 g0))).
Proof.
  unfold render_to_buffer_with_progress.
  set (ci := initialize tan c).
  destruct (image_width ci * image_height ci * 3 <? 0); [discriminate |].
  set (st0 := before_loops E _ buffer0 progress0 texture0 g0).
  cbn zeta. intros Hret. injection Hret as <- <-. now split.
Qed.

Lemma frame_unsampled (c : camera) (world : H) (g0 : G) (n : nat) :
  sample_count c <= 0 -> frame n c world g0 = (replicate (3 * n) 0, g0).
Proof.
  intros Hcount. induction n as [| n IH]; [reflexivity |].
  cbn [frame]. rewrite IH. unfold render_pixel.
  replace (Z.to_nat (sample_count c)) with O by lia. cbn [sample_sum].
  rewrite pixel_bytes_black.
  replace (3 * S n)%nat with (3 * n + 3)%nat by lia.
  now rewrite replicate_add.
Qed.

Lemma sample_sum_exhausted (c : camera) (world : H) (i j : Z) (n : nat) :
  max_depth c <= 0 ->
  forall g : G, fst (sample_sum n c world i j black g) = black.
Proof.
  intros Hdepth. induction n as [| n IH]; intros g; [reflexivity |].
  cbn [sample_sum]. destruct (get_ray c i j g) as [r g1].
  rewrite ray_color_exhausted by assumption.
  change (Vec3.add black black) with black. apply IH.
Qed.

Lemma image_size (c : camera) :
  0 <= image_width c ->
  (3 * Z.to_nat (total_pixels (initialize tan c)))%nat
  = Z.to_nat (3 * image_width (initialize tan c) * image_height (initialize tan c)).
Proof.
  intros Hw. pose proof (initialize_height tan c) as Hh. unfold total_pixels.
  change (image_width (initialize tan c)) with (image_width c). nia.
Qed.

(** X1: with antialiasing on and [samples_per_pixel] zero or negative the
    sample loop of a pixel never runs.  A render that is not stopped then
    writes every pixel, every byte of the buffer is 0 (the empty sum scaled
    by [1.0 / count] has no positive component, whatever [count] is, an
    infinite scale included), and no random number is drawn. *)
Theorem unsampled_pixels_are_black (E : environment) (c : camera) (world : H)
  (buffer0 : list Z) (progress0 : spec_float) (texture0 : bool) (g0 : G)
  (c' : camera) (st : @state G) :
  (forall n : nat, should_stop E n = false) ->
  enable_antialiasing c = true ->
  samples_per_pixel c <= 0 ->
  render_to_buffer_with_progress tan E c world buffer0 progress0 texture0 g0
  = Returned c' st ->
  (forall count : Z, pixel_bytes black count = (0, 0, 0)) /\
  completed_pixels st = total_pixels c' /\
  buffer st = replicate (Z.to_nat (3 * image_width c' * image_height c')) 0 /\
  rng st = g0.
Proof.
  intros Hnever Haa Hspp Hret.
  split; [exact pixel_bytes_black |].
  pose proof Hret as Hw. apply render_returned in Hw as (_ & Hw & _).
  apply render_complete in Hret as (-> & Hdone & Hbuffer & Hrng & _); [| assumption].
  assert (Hcount : sample_count (initialize tan c) <= 0).
  { unfold sample_count. change (enable_antialiasing (initialize tan c))
      with (enable_antialiasing c). rewrite Haa. exact Hspp. }
  rewrite frame_unsampled in Hbuffer, Hrng by assumption.
  split; [assumption |]. split; [| assumption].
  rewrite Hbuffer. cbn [fst]. f_equal. now apply image_size.
Qed.

(** X2: with [max_depth] zero or negative every ray is exhausted before
    it is traced, so a render that is not stopped completes every pixel and
    leaves a buffer of zeros. *)
Theorem zero_depth_renders_black (E : environment) (c : camera) (world : H)
  (buffer0 : list Z) (progress0 : spec_float) (texture0 : bool) (g0 : G)
  (c' : camera) (st : @state G) :
  (forall n : nat, should_stop E n = false) ->
  max_depth c <= 0 ->
  render_to_buffer_with_progress tan E c world buffer0 progress0 texture0 g0
  = Returned c' st ->
  completed_pixels st = total_pixels c' /\
  buffer st = replicate (Z.to_nat (3 * image_width c' * image_height c')) 0.
Proof.
  intros Hnever Hdepth Hret.
  pose proof Hret as Hw. apply render_returned in Hw as (_ & Hw & _).
  apply render_complete in Hret as (-> & Hdone & Hbuffer & _); [| assumption].
  split; [assumption |].
  rewrite Hbuffer, frame_black.
  - f_equal. now apply image_size.
  - intros i j g. now apply sample_sum_exhausted.
Qed.

(** X3: with shadows off, or with reflections and refractions both off,
    [ray_color] never follows a scattered ray, so the colour it returns and
    the generator it leaves are the same for every positive depth. *)
Theorem depth_is_irrelevant_without_bounces (c : camera) (world : H) (r : ray)
  (depth depth' : Z) (g : G) :
  enable_shadows c = false
  \/ (enable_reflections c = false /\ enable_refractions c = false) ->
  0 < depth -> 0 < depth' ->
  ray_color c world r depth g = ray_color c world r depth' g.
Proof.
  intros Htoggles Hd Hd'. rewrite !ray_color_step by assumption.
  destruct (hit world r _) as [rec |]; [| reflexivity].
  destruct Htoggles as [-> | [-> ->]]; [reflexivity |].
  destruct (enable_shadows c); [| reflexivity].
  now destruct (scatter (mat rec) r rec g) as [[[attenuation scattered] |] g1].
Qed.

Lemma ray_color_keeps_generator (c : camera) (world : H) (r : ray) (depth : Z) (g : G) :
  enable_shadows c = false -> snd (ray_color c world r depth g) = g.
Proof.
  intros Hshadows. destruct (Z_le_gt_dec depth 0) as [Hle | Hgt].
  - now rewrite ray_color_exhausted.
  - rewrite ray_color_step by lia. rewrite Hshadows.
    now destruct (hit world r _).
Qed.

Section NoDraw.

Variable E : environment.
Variable c : camera.
Variable world : H.

Hypothesis antialiasing_off : enable_antialiasing c = false.
Hypothesis no_defocus : PrimFloat.leb (defocus_angle c) 0 = true.
Hypothesis shadows_off : enable_shadows c = false.

Lemma take_sample_keeps_generator (i j sample : Z) (pixel_color : color)
  (st : @state G) :
  rng (snd (take_sample c world i j sample pixel_color st)) = rng st.
Proof.
  unfold take_sample.
  rewrite (get_ray_through_centre c i j (rng st) (rng st)) by assumption.
  pose proof (ray_color_keeps_generator c world (fst (get_ray c i j (rng st)))
                (max_depth c) (rng st) shadows_off) as Hsame.
  now destruct (ray_color c world _ (max_depth c) (rng st)) as [sampled g2].
Qed.

Lemma poll_keeps_generator (site : poll_site) (st : @state G) :
  rng (snd (load_should_stop E site st)) = rng st.
Proof. reflexivity. Qed.

Lemma sample_loop_keeps_generator (i j : Z) (fuel : nat) :
  forall (sample : Z) (pixel_color : color) (st : @state G),
    rng (snd (sample_loop fuel E c world i j sample pixel_color st)) = rng st.
Proof.
  induction fuel as [| fuel IH]; intros sample pixel_color st;
    cbn [sample_loop]; [reflexivity |].
  destruct (sample <? sample_count c); [| reflexivity].
  pose proof (poll_keeps_generator (AtSample j i sample) st) as Hpoll.
  destruct (load_should_stop E (AtSample j i sample) st) as [stop st1].
  cbn [snd] in Hpoll. destruct stop; [exact Hpoll |].
  pose proof (take_sample_keeps_generator i j sample pixel_color st1) as Hsample.
  destruct (take_sample c world i j sample pixel_color st1) as [color2 st2].
  cbn [snd] in Hsample. rewrite IH. congruence.
Qed.

Lemma pixel_body_keeps_generator (i j : Z) (st : @state G) :
  rng (snd (pixel_body E c world i j st)) = rng st.
Proof.
  unfold pixel_body.
  pose proof (sample_loop_keeps_generator i j (S (Z.to_nat (sample_count c))) 0 black st)
    as Hloop.
  destruct (sample_loop _ E c world i j 0 black st) as [pixel_color st1].
  cbn [snd] in Hloop.
  pose proof (poll_keeps_generator (AfterSamples j i) st1) as Hpoll.
  destruct (load_should_stop E (AfterSamples j i) st1) as [stop st2].
  cbn [snd] in Hpoll. destruct stop; cbn [snd]; [congruence |].
  rewrite <- Hloop, <- Hpoll.
  destruct (pixel_bytes pixel_color (sample_count c)) as [[r_byte g_byte] b_byte].
  unfold after_pixel. cbn.
  now match goal with |- context [if ?b then _ else _] => destruct b end.
Qed.

Lemma pixel_loop_keeps_generator (j : Z) (fuel : nat) :
  forall (i : Z) (st : @state G), rng (pixel_loop fuel E c world i j st) = rng st.
Proof.
  induction fuel as [| fuel IH]; intros i st; cbn [pixel_loop]; [reflexivity |].
  destruct (i <? image_width c); [| reflexivity].
  pose proof (poll_keeps_generator (AtPixel j i) st) as Hpoll.
  destruct (load_should_stop E (AtPixel j i) st) as [stop st1].
  cbn [snd] in Hpoll. destruct stop; [exact Hpoll |].
  pose proof (pixel_body_keeps_generator i j st1) as Hbody.
  destruct (pixel_body E c world i j st1) as [broke st2].
  cbn [snd] in Hbody. destruct broke; [congruence |]. rewrite IH. congruence.
Qed.

Lemma row_loop_keeps_generator (fuel : nat) :
  forall (j : Z) (st : @state G), rng (row_loop fuel E c world j st) = rng st.
Proof.
  induction fuel as [| fuel IH]; intros j st; cbn [row_loop]; [reflexivity |].
  destruct (j <? image_height c); [| reflexivity].
  pose proof (poll_keeps_generator (AtRow j) st) as Hpoll.
  destruct (load_should_stop E (AtRow j) st) as [stop st1].
  cbn [snd] in Hpoll. destruct stop; [exact Hpoll |].
  rewrite IH, <- Hpoll, <- (pixel_loop_keeps_generator j (S (Z.to_nat (image_width c))) 0 st1).
  unfold row_end. now destruct (Z.rem j _ =? 0).
Qed.

End NoDraw.

(** X4: without antialiasing, without defocus blur (an angle of zero or
    less) and without shadows a render draws no random number: whenever and
    wherever it is stopped, it leaves the generator as it found it. *)
Theorem render_draws_no_random_number (E : environment) (c : camera) (world : H)
  (buffer0 : list Z) (progress0 : spec_float) (texture0 : bool) (g0 : G)
  (c' : camera) (st : @state G) :
  enable_antialiasing c = false ->
  PrimFloat.leb (defocus_angle c) 0 = true ->
  enable_shadows c = false ->
  render_to_buffer_with_progress tan E c world buffer0 progress0 texture0 g0
  = Returned c' st ->
  rng st = g0.
Proof.
  intros Haa Hdefocus Hshadows.
  intros Hret. apply render_run in Hret as (-> & ->).
  rewrite poll_keeps_generator.
  now rewrite row_loop_keeps_generator by assumption.
Qed.

Lemma paint_unwritten (E : environment) (c : camera) (l : list event) (i j : Z) :
  wf_log E c l ->
  0 <= i < image_width c -> 0 <= j < image_height c ->
  (forall r_byte g_byte b_byte : Z, ~ In (EvPixel j i r_byte g_byte b_byte) l) ->
  forall ch : nat, (ch < 3)%nat ->
    paint c l !! (3 * Z.to_nat (j * image_width c + i) + ch)%nat = Some 0.
Proof.
  intros Hwf Hi Hj Hnone ch Hch.
  assert (Hk : 0 <= j * image_width c + i) by nia.
  induction l as [| e l IH].
  - cbn [paint]. apply lookup_replicate_2. nia.
  - destruct Hwf as [Hok Hwf].
    assert (Hrest : forall r_byte g_byte b_byte : Z,
               ~ In (EvPixel j i r_byte g_byte b_byte) l).
    { intros r_byte g_byte b_byte Hin. apply (Hnone r_byte g_byte b_byte). now right. }
    specialize (IH Hwf Hrest).
    destruct e as [| | j' i' r' g' b' | | |]; cbn [paint]; try exact IH.
    destruct Hok as (_ & Hi' & Hj' & _).
    assert (Hother : j' * image_width c + i' <> j * image_width c + i).
    { intros Hsame.
      assert (j' = j) by nia. subst j'. assert (i' = i) by lia. subst i'.
      apply (Hnone r' g' b'). now left. }
    rewrite !list_lookup_insert_ne by nia. exact IH.
Qed.

(** X5: when the render has returned, stopped or not, a pixel of the
    image that it did not write holds three zero bytes: nothing of what the
    buffer held before the call is left in it. *)
Theorem unwritten_pixels_are_cleared (E : environment) (c : camera) (world : H)
  (buffer0 : list Z) (progress0 : spec_float) (texture0 : bool) (g0 : G)
  (c' : camera) (st : @state G) :
  render_to_buffer_with_progress tan E c world buffer0 progress0 texture0 g0
  = Returned c' st ->
  forall i j : Z,
    0 <= i < image_width c' -> 0 <= j < image_height c' ->
    (forall r_byte g_byte b_byte : Z,
       ~ In (EvPixel j i r_byte g_byte b_byte) (log st)) ->
    buffer st !! Z.to_nat (3 * (j * image_width c' + i)) = Some 0 /\
    buffer st !! Z.to_nat (3 * (j * image_width c' + i) + 1) = Some 0 /\
    buffer st !! Z.to_nat (3 * (j * image_width c' + i) + 2) = Some 0.
Proof.
  intros Hret i j Hi Hj Hnone.
  apply render_consistent in Hret.
  pose proof (log_wf _ _ _ _ Hret) as Hwf.
  rewrite (buffer_log _ _ _ _ Hret).
  assert (Hk : 0 <= j * image_width c' + i) by nia.
  pose proof (paint_unwritten E c' (log st) i j Hwf Hi Hj Hnone) as Hzero.
  split; [| split].
  - replace (Z.to_nat (3 * (j * image_width c' + i)))
      with (3 * Z.to_nat (j * image_width c' + i) + 0)%nat by lia.
    apply Hzero. lia.
  - replace (Z.to_nat (3 * (j * image_width c' + i) + 1))
      with (3 * Z.to_nat (j * image_width c' + i) + 1)%nat by lia.
    apply Hzero. lia.
  - replace (Z.to_nat (3 * (j * image_width c' + i) + 2))
      with (3 * Z.to_nat (j * image_width c' + i) + 2)%nat by lia.
    apply Hzero. lia.
Qed.

End MoreOfTheRender.


Section RenderExtras.

Context {G M H : Type@{scene}}.
Context `{RandomSource G} `{Material M G} `{Hittable H M}.

Variable tan : float -> float.

Lemma before_loops_refreshing (E : environment) (c : camera) (size : nat)
  (buffer0 : list Z) (progress0 : spec_float) (texture0 : bool) (g0 : G) :
  refreshing c texture0 (before_loops E size buffer0 progress0 texture0 g0).
Proof.
  pose proof (update_frequency_positive c) as Hone.
  constructor; cbn; try reflexivity; try lia.
  now rewrite orb_false_r.
Qed.

Lemma render_refreshing (E : environment) (c : camera) (world : H)
  (buffer0 : list Z) (progress0 : spec_float) (texture0 : bool) (g0 : G)
  (c' : camera) (st : @state G) :
  render_to_buffer_with_progress tan E c world buffer0 progress0 texture0 g0
  = Returned c' st ->
  refreshing c' texture0 st.
Proof.
  intros Hret. apply render_run in Hret as (-> & ->).
  apply refreshing_poll, row_loop_refreshing, before_loops_refreshing.
Qed.

Lemma gaps_bounded_suffix (n : Z) (after before : list event) :
  0 <= n -> gaps_bounded n (after ++ before) -> pixels_since_raise before <= n.
Proof.
  intros Hn. induction after as [| e after IH]; cbn [app].
  - destruct before as [| e before]; [cbn; lia | now intros [Hle _]].
  - intros [_ Hrest]. now apply IH.
Qed.

(** X6: at no moment of a render have more pixels been written since the
    latest raise of the update flag after a pixel than
    [max(1, image_width * image_height / 100)], however slowly the clock
    advances. *)
Theorem updates_are_never_overdue (E : environment) (c : camera) (world : H)
  (buffer0 : list Z) (progress0 : spec_float) (texture0 : bool) (g0 : G)
  (c' : camera) (st : @state G) :
  render_to_buffer_with_progress tan E c world buffer0 progress0 texture0 g0
  = Returned c' st ->
  forall after before : list event,
    log st = after ++ before ->
    pixels_since_raise before
    <= Z.max 1 (Z.quot (image_width c' * image_height c') 100).
Proof.
  intros Hret after before Hlog.
  apply render_refreshing in Hret. apply gaps_log in Hret.
  rewrite Hlog in Hret. apply gaps_bounded_suffix in Hret; [exact Hret | unfold update_frequency; lia].
Qed.

Lemma raised_app (l l' : list event) : raised (l ++ l') = raised l || raised l'.
Proof. apply existsb_app. Qed.

Lemma first_row_raises (E : environment) (c : camera) (world : H) (fuel : nat)
  (st : @state G) :
  0 < image_height c -> should_stop E (loads st) = false ->
  In (EvRaise (RowEnd 0)) (log (row_loop (S fuel) E c world 0 st)).
Proof.
  intros Hh Hclear. cbn [row_loop].
  replace (0 <? image_height c) with true by (symmetry; now apply Z.ltb_lt).
  pose proof (load_fst E (AtRow 0) st) as Hstop.
  destruct (load_should_stop E (AtRow 0) st) as [stop st1].
  cbn [fst] in Hstop. rewrite Hclear in Hstop. subst stop.
  destruct (row_loop_extends E c world fuel (0 + 1)
              (row_end c 0 (pixel_loop (S (Z.to_nat (image_width c))) E c world 0 0 st1)))
    as [newer Hnewer].
  rewrite Hnewer. apply in_or_app. right. now left.
Qed.

Lemma first_row_stopped (E : environment) (c : camera) (world : H) (fuel : nat)
  (st : @state G) :
  0 < image_height c -> should_stop E (loads st) = true ->
  row_loop (S fuel) E c world 0 st = snd (load_should_stop E (AtRow 0) st).
Proof.
  intros Hh Hset. cbn [row_loop].
  replace (0 <? image_height c) with true by (symmetry; now apply Z.ltb_lt).
  pose proof (load_fst E (AtRow 0) st) as Hstop.
  destruct (load_should_stop E (AtRow 0) st) as [stop st1].
  cbn [fst] in Hstop. rewrite Hset in Hstop. now subst stop.
Qed.

(** X7: the update flag after a render is the flag before it, or'ed with
    whether the worker raised it.  When the first poll finds the stop flag
    clear, the end of row 0 is reached and raises the flag, whatever happens
    before; when the first poll finds it set, the flag is never raised, no
    pixel is completed and the progress is left as it was. *)
Theorem every_run_requests_an_update (E : environment) (c : camera) (world : H)
  (buffer0 : list Z) (progress0 : spec_float) (texture0 : bool) (g0 : G)
  (c' : camera) (st : @state G) :
  render_to_buffer_with_progress tan E c world buffer0 progress0 texture0 g0
  = Returned c' st ->
  texture_needs_update st = texture0 || raised (log st) /\
  (should_stop E 0 = false ->
   In (EvRaise (RowEnd 0)) (log st) /\ texture_needs_update st = true) /\
  (should_stop E 0 = true ->
   raised (log st) = false /\ completed_pixels st = 0 /\ progress st = progress0).
Proof.
  intros Hret.
  pose proof (flag_log _ _ _ (render_refreshing _ _ _ _ _ _ _ _ _ Hret)) as Hflag.
  split; [exact Hflag |].
  apply render_run in Hret as (-> & Hst).
  assert (Hh : 0 < image_height (initialize tan c))
    by (rewrite initialize_height; lia).
  split.
  - intros Hclear.
    assert (Hin : In (EvRaise (RowEnd 0)) (log st)).
    { rewrite Hst. right. now apply first_row_raises. }
    split; [assumption |].
    rewrite Hflag. apply orb_true_iff. right.
    apply existsb_exists. exists (EvRaise (RowEnd 0)). split; [assumption | reflexivity].
  - intros Hset. rewrite first_row_stopped in Hst by assumption.
    subst st. now repeat split.
Qed.

Lemma before_loops_agree (E : environment) (size : nat)
  (buffer0 : list Z) (progress0 : spec_float) (texture0 : bool) (g0 : G) :
  agree E (before_loops E size buffer0 progress0 texture0 g0)
  /\ ~ stopped E (before_loops E size buffer0 progress0 texture0 g0).
Proof.
  assert (Hlive : ~ stopped E (before_loops E size buffer0 progress0 texture0 g0)).
  { intros (m & Hm & _). cbn in Hm. lia. }
  split; [| assumption]. split; [contradiction |].
  intros [site [Hin | []]]. discriminate.
Qed.

Lemma render_winds_down (E : environment) (c : camera) (world : H)
  (buffer0 : list Z) (progress0 : spec_float) (texture0 : bool) (g0 : G)
  (c' : camera) (st : @state G) :
  set_once E ->
  render_to_buffer_with_progress tan E c world buffer0 progress0 texture0 g0
  = Returned c' st ->
  live (log st) \/ halted 3 1 (log st).
Proof.
  intros Honce Hret. apply render_run in Hret as (-> & ->).
  destruct (before_loops_agree E
              (Z.to_nat (image_width (initialize tan c)
                         * image_height (initialize tan c) * 3))
              buffer0 progress0 texture0 g0) as [Hagree0 Hlive0].
  destruct (row_loop_winds_down E (initialize tan c) world Honce
              (S (Z.to_nat (image_height (initialize tan c)))) 0 _ Hagree0 Hlive0)
    as [Hagree [Hlive | Hhalted]].
  - destruct (poll_live E AtExit _ Hagree Hlive) as [Hagree' Hpoll].
    destruct (fst (load_should_stop E AtExit _)).
    + right. apply (halted_more 0 3 0 1); [lia | lia | assumption].
    + left. now apply (agree_live E).
  - right. now apply (poll_halted E Honce 2 1 AtExit _ Hagree Hhalted).
Qed.

(** X8: when the stop flag stays set once it is set, the worker winds
    down at once.  After the first poll that finds the flag set, the render
    traces no ray and writes no pixel; it only reads the flag again, at
    most three times, and passes the end of the current row: four events at
    most. *)
Theorem cancellation_is_prompt (E : environment) (c : camera) (world : H)
  (buffer0 : list Z) (progress0 : spec_float) (texture0 : bool) (g0 : G)
  (c' : camera) (st : @state G) :
  set_once E ->
  render_to_buffer_with_progress tan E c world buffer0 progress0 texture0 g0
  = Returned c' st ->
  forall (after : list event) (site : poll_site) (before : list event),
    log st = after ++ EvPoll site true :: before ->
    live before ->
    Forall winding_down after /\ (polls after <= 3)%nat /\ (length after <= 4)%nat.
Proof.
  intros Honce Hret after site before Hlog Hlive.
  destruct (render_winds_down E c world buffer0 progress0 texture0 g0 c' st Honce Hret)
    as [Hnone | (after' & site' & before' & Hlog' & Hlive' & Hwind & Hpolls & Hlen)].
  - exfalso. apply (Hnone site). rewrite Hlog. apply in_or_app. right. now left.
  - rewrite Hlog in Hlog'.
    destruct (first_stop_unique _ _ _ _ _ _ Hlog' Hlive Hlive') as (-> & _ & _).
    repeat split; try assumption; lia.
Qed.

End RenderExtras.

(** * The application *)

Lemma heights_exact_on_the_slider :
  forallb heights_exact (map (fun k : nat => 100 + Z.of_nat k) (seq 0 1501)) = true.
Proof. vm_compute. reflexivity. Qed.

(** On the slider the height of [setup_camera] is the exact quotient, and
    the size of the buffer is an [int]. *)
Lemma slider_height (a : App.app) :
  100 <= App.image_width a <= 1600 ->
  App.current_image_height (App.setup_camera a) = App.image_width a * 9 / 16.
Proof.
  intros Hrange.
  pose proof heights_exact_on_the_slider as Hall.
  rewrite forallb_forall in Hall.
  specialize (Hall (App.image_width a)).
  assert (Hin : In (App.image_width a)
                  (map (fun k : nat => 100 + Z.of_nat k) (seq 0 1501))).
  { apply in_map_iff. exists (Z.to_nat (App.image_width a - 100)).
    split; [lia |]. apply in_seq. lia. }
  apply Hall in Hin. unfold heights_exact in Hin.
  apply andb_true_iff in Hin as [_ Hactual].
  apply Z.eqb_eq in Hactual.
  unfold App.setup_camera. cbn [App.current_image_height App.set_current_image].
  cbn [aspect_ratio App.assign].
  rewrite Hactual.
  destruct (Z.ltb_spec (App.image_width a * 9 / 16) 1) as [Hsmall |]; [| reflexivity].
  assert (56 <= App.image_width a * 9 / 16) by (apply Z.div_le_lower_bound; lia). lia.
Qed.

Lemma slider_size (a : App.app) :
  100 <= App.image_width a <= 1600 -> App.int_sized (App.setup_camera a).
Proof.
  intros Hrange. unfold App.int_sized. rewrite (slider_height a Hrange).
  change (App.current_image_width (App.setup_camera a)) with (App.image_width a).
  assert (Hlow : 56 <= App.image_width a * 9 / 16)
    by (apply Z.div_le_lower_bound; lia).
  assert (Hhigh : App.image_width a * 9 / 16 <= 900)
    by (apply Z.div_le_upper_bound; lia).
  revert Hlow Hhigh. generalize (App.image_width a * 9 / 16). intros height Hlow Hhigh.
  unfold Num.INT_MIN, Num.INT_MAX. nia.
Qed.

Section Application.

Context {G M H : Type@{scene}}.
Context `{RandomSource G} `{Material M G} `{Hittable H M}.

Variable tan : float -> float.
Variable world : H.

Lemma to_int_range (x : float) : Num.INT_MIN <= Num.to_int x <= Num.INT_MAX.
Proof.
  unfold Num.to_int, Num.INT_MIN, Num.INT_MAX.
  destruct (Num.trunc x) as [z |]; [| lia].
  destruct (Z.leb_spec (- 2 ^ 31) z); destruct (Z.leb_spec z (2 ^ 31 - 1)); cbn [andb]; lia.
Qed.

Lemma setup_camera_size (a : App.app) :
  in_step tan (App.setup_camera a) /\
  App.current_image_width (App.setup_camera a) = App.image_width a /\
  1 <= App.current_image_height (App.setup_camera a) <= Num.INT_MAX.
Proof.
  split; [now split |]. split; [reflexivity |].
  unfold App.setup_camera. cbn.
  match goal with |- context [Num.to_int ?x] => pose proof (to_int_range x) as Hrange end.
  unfold Num.INT_MIN, Num.INT_MAX in *.
  destruct (_ <? 1) eqn:Hsmall; [lia | apply Z.ltb_ge in Hsmall; lia].
Qed.

(** X9: [setup_camera] leaves the application and its camera agreeing on
    the image: the displayed width is the width of the camera, and the
    displayed height, at least 1 and an [int], is the height that
    [initialize] will compute at the next render.  The four toggles of the
    camera are not touched. *)
Theorem gui_and_camera_agree_on_the_size (a : App.app) :
  in_step tan (App.setup_camera a) /\
  App.current_image_width (App.setup_camera a) = App.image_width a /\
  1 <= App.current_image_height (App.setup_camera a) <= Num.INT_MAX /\
  enable_antialiasing (App.cam (App.setup_camera a)) = enable_antialiasing (App.cam a) /\
  enable_shadows (App.cam (App.setup_camera a)) = enable_shadows (App.cam a) /\
  enable_reflections (App.cam (App.setup_camera a)) = enable_reflections (App.cam a) /\
  enable_refractions (App.cam (App.setup_camera a)) = enable_refractions (App.cam a).
Proof.
  destruct (setup_camera_size a) as (Hstep & Hwidth & Hheight).
  split; [exact Hstep |]. split; [exact Hwidth |]. split; [exact Hheight |].
  now repeat split.
Qed.

Lemma length_resize (n : nat) (l : list Z) : length (resize n l) = n.
Proof. unfold resize. rewrite length_app, length_take, length_replicate. lia. Qed.

Lemma texture_size_sign (a : App.app) :
  App.current_image_width (App.setup_camera a)
  * App.current_image_height (App.setup_camera a) * 3 < 0
  <-> App.image_width a < 0.
Proof.
  pose proof (setup_camera_size a) as (_ & Hw & Hh). revert Hw Hh.
  generalize (App.current_image_width (App.setup_camera a)).
  generalize (App.current_image_height (App.setup_camera a)). intros; nia.
Qed.

Lemma start_render_idle (a : App.app) :
  App.is_rendering a = false -> 0 <= App.image_width a ->
  exists a' : App.app,
    App.start_render a = Some a' /\
    App.sized a' /\ in_step tan a' /\
    App.image_buffer a'
    = resize (Z.to_nat (App.current_image_width a' * App.current_image_height a' * 3))
        (App.image_buffer a) /\
    App.is_rendering a' = true /\
    App.should_stop_render a' = false /\
    App.texture_needs_update a' = false /\
    App.render_progress a' = Binary32.zero /\
    App.render_thread a' = true.
Proof.
  unfold App.start_render. intros -> Hwidth.
  pose proof (setup_camera_size a) as (Hstep & Hw & Hh).
  pose proof (texture_size_sign a) as Hsign.
  unfold App.update_texture_size.
  assert (Hcw : 0 <= App.current_image_width (App.setup_camera a))
    by now rewrite Hw.
  assert (Hch : 0 <= App.current_image_height (App.setup_camera a))
    by (apply Z.le_trans with 1; [easy | apply Hh]).
  apply Z.le_ngt in Hwidth. rewrite <- Hsign in Hwidth.
  apply Z.ltb_nlt in Hwidth. rewrite Hwidth.
  eexists. split; [reflexivity |].
  unfold App.cleanup_render_thread.
  destruct (App.render_thread _); cbn -[App.setup_camera resize];
    (split; [split; [exact Hcw | split; [exact Hch | apply length_resize]] |]);
    (split; [exact Hstep |]); now repeat split.
Qed.

(** X10: [start_render] does nothing while a render is running.
    Otherwise, when the size [width * height * 3] of the buffer is an
    [int], as it is for every width of the slider (100 to 1600): it ends
    with the exception of [resize] when the width is negative; with any
    other width it leaves a buffer of exactly [width * height * 3] bytes
    that keeps its old contents and is padded with zeros, an image size on
    which the application and the camera agree, the stop and update flags
    cleared, the progress at 0, and the application rendering with a thread
    to join. *)
Theorem start_render_prepares_the_buffer (a : App.app) :
  (App.is_rendering a = true -> App.start_render a = Some a) /\
  (App.is_rendering a = false -> App.int_sized (App.setup_camera a) ->
   App.image_width a < 0 -> App.start_render a = None) /\
  (App.is_rendering a = false -> App.int_sized (App.setup_camera a) ->
   0 <= App.image_width a ->
   exists a' : App.app,
     App.start_render a = Some a' /\
     App.sized a' /\ in_step tan a' /\
     App.image_buffer a'
     = resize (Z.to_nat (App.current_image_width a' * App.current_image_height a' * 3))
         (App.image_buffer a) /\
     App.is_rendering a' = true /\
     App.should_stop_render a' = false /\
     App.texture_needs_update a' = false /\
     App.render_progress a' = Binary32.zero /\
     App.render_thread a' = true) /\
  (100 <= App.image_width a <= 1600 -> App.int_sized (App.setup_camera a)).
Proof.
  split; [unfold App.start_render; now intros -> |].
  split; [| split; [intros Hidle _; now apply start_render_idle | apply slider_size]].
  unfold App.start_render, App.update_texture_size. intros -> _ Hwidth.
  apply texture_size_sign, Z.ltb_lt in Hwidth. now rewrite Hwidth.
Qed.

Lemma render_sized (E : environment) (c : camera) (buffer0 : list Z)
  (progress0 : spec_float) (texture0 : bool) (g0 : G) (c' : camera) (st : @state G) :
  render_to_buffer_with_progress tan E c world buffer0 progress0 texture0 g0
  = Returned c' st ->
  c' = initialize tan c /\
  0 <= image_width c' /\ 1 <= image_height c' /\
  length (buffer st) = Z.to_nat (image_width c' * image_height c' * 3).
Proof.
  intros Hret.
  pose proof (render_consistent _ _ _ _ _ _ _ _ _ _ Hret) as Hco.
  apply render_returned in Hret as (-> & Hw & _).
  split; [reflexivity |]. split; [assumption |].
  split; [rewrite initialize_height; lia |].
  rewrite (buffer_log _ _ _ _ Hco). apply paint_length.
Qed.

Lemma render_returns (E : environment) (c : camera) (buffer0 : list Z)
  (progress0 : spec_float) (texture0 : bool) (g0 : G) :
  0 <= image_width c ->
  exists st : @state G,
    render_to_buffer_with_progress tan E c world buffer0 progress0 texture0 g0
    = Returned (initialize tan c) st.
Proof.
  intros Hw.
  destruct (render_to_buffer_with_progress tan E c world buffer0 progress0 texture0 g0)
    as [| c' st] eqn:Hrun.
  - apply render_threw in Hrun.
    pose proof (initialize_height tan c) as Hh.
    change (image_width (initialize tan c)) with (image_width c) in Hrun. nia.
  - pose proof Hrun as Hc. apply render_sized in Hc as (-> & _). now exists st.
Qed.

Lemma worker_keeps_size (E : environment) (g0 : G) (a : App.app) :
  0 <= image_width (App.cam a) -> in_step tan a ->
  App.sized (fst (App.render_thread_body tan world E g0 a)) /\
  in_step tan (fst (App.render_thread_body tan world E g0 a)).
Proof.
  intros Hwidth [Hcw Hch].
  destruct (render_returns E (App.cam a) (App.image_buffer a) (App.render_progress a)
              (App.texture_needs_update a) g0 Hwidth) as [st Hrun].
  unfold App.render_thread_body. rewrite Hrun.
  apply render_sized in Hrun as (_ & Hw & Hh & Hlen).
  change (image_width (initialize tan (App.cam a))) with (image_width (App.cam a)) in *.
  destruct (should_stop E (loads st)); cbn; (split; [| now split]);
    unfold App.sized; cbn; rewrite Hcw, Hch; (split; [lia |]; split; [lia |]);
    exact Hlen.
Qed.

(** X11: when the size [image_width * image_height * 3] of the buffer is
    an [int], the worker thread clears [is_rendering] and leaves the camera
    initialized however it ends.  When the render throws, which it does
    when the width is negative, the buffer, the progress, the update flag
    and the generator are as before; when the width is not negative and the
    application agreed with its camera on the image, it still does
    afterwards and the buffer has the size of the image. *)
Theorem worker_ends_cleanly (E : environment) (g0 : G) (a : App.app) :
  int_sized (initialize tan (App.cam a)) ->
  App.is_rendering (fst (App.render_thread_body tan world E g0 a)) = false /\
  App.cam (fst (App.render_thread_body tan world E g0 a)) = initialize tan (App.cam a) /\
  (image_width (App.cam a) < 0 ->
   render_to_buffer_with_progress tan E (App.cam a) world (App.image_buffer a)
     (App.render_progress a) (App.texture_needs_update a) g0 = Threw /\
   App.image_buffer (fst (App.render_thread_body tan world E g0 a)) = App.image_buffer a /\
   App.render_progress (fst (App.render_thread_body tan world E g0 a))
   = App.render_progress a /\
   App.texture_needs_update (fst (App.render_thread_body tan world E g0 a))
   = App.texture_needs_update a /\
   snd (App.render_thread_body tan world E g0 a) = g0) /\
  (0 <= image_width (App.cam a) -> in_step tan a ->
   App.sized (fst (App.render_thread_body tan world E g0 a)) /\
   in_step tan (fst (App.render_thread_body tan world E g0 a))).
Proof.
  intros _. unfold App.render_thread_body.
  destruct (render_to_buffer_with_progress tan E (App.cam a) world (App.image_buffer a)
              (App.render_progress a) (App.texture_needs_update a) g0)
    as [| c' st] eqn:Hrun.
  - apply render_threw in Hrun.
    pose proof (initialize_height tan (App.cam a)) as Hh.
    change (image_width (initialize tan (App.cam a))) with (image_width (App.cam a)) in Hrun.
    split; [reflexivity |]. split; [reflexivity |]. split; [now repeat split | nia].
  - apply render_sized in Hrun as (-> & Hw & Hh & Hlen).
    change (image_width (initialize tan (App.cam a))) with (image_width (App.cam a)) in *.
    destruct (should_stop E (loads st)); cbn;
      (split; [reflexivity |]; split; [reflexivity |]; split; [lia |]);
      intros _ [Hcw Hch]; (split; [| now split]);
      unfold App.sized; cbn; rewrite Hcw, Hch; (split; [lia |]; split; [lia |]);
      exact Hlen.
Qed.

Lemma render_uncancelled (E : environment) (c : camera) (buffer0 : list Z)
  (progress0 : spec_float) (texture0 : bool) (g0 : G) (c' : camera) (st : @state G) :
  set_once E ->
  render_to_buffer_with_progress tan E c world buffer0 progress0 texture0 g0
  = Returned c' st ->
  should_stop E (loads st) = false ->
  completed_pixels st = total_pixels c' /\
  buffer st = fst (frame (Z.to_nat (total_pixels c')) c' world g0) /\
  rng st = snd (frame (Z.to_nat (total_pixels c')) c' world g0).
Proof.
  intros Honce Hret Hclear.
  apply render_returned in Hret as (_ & Hw & st_loop & -> & _ & _ & Hpix).
  destruct (Hpix Honce) as [[(n & Hn & Hle & Hbuf) _] Hat].
  assert (Hlive : ~ stopped E st_loop).
  { intros (m & Hm & Hset). cbn [load_should_stop snd loads] in Hclear.
    apply (Honce m (S (loads st_loop))) in Hset; [congruence | lia]. }
  destruct (Hat Hlive) as (_ & Hdone & Hrng).
  assert (Htotal : image_height c' * image_width c' + 0 = total_pixels c')
    by (unfold total_pixels; ring).
  rewrite Htotal in *. cbn [load_should_stop snd completed_pixels buffer rng].
  split; [assumption |]. split; [| assumption].
  rewrite Hbuf. unfold partial_image.
  replace n with (Z.to_nat (total_pixels c')) by lia.
  now rewrite Nat.sub_diag, app_nil_r.
Qed.

Lemma worker_completes (E : environment) (g0 : G) (a : App.app)
  (c' : camera) (st : @state G) :
  set_once E ->
  render_to_buffer_with_progress tan E (App.cam a) world (App.image_buffer a)
    (App.render_progress a) (App.texture_needs_update a) g0
  = Returned c' st ->
  should_stop E (loads st) = false ->
  App.render_progress (fst (App.render_thread_body tan world E g0 a)) = Binary32.one /\
  App.texture_needs_update (fst (App.render_thread_body tan world E g0 a)) = true /\
  App.image_buffer (fst (App.render_thread_body tan world E g0 a))
  = fst (frame (Z.to_nat (total_pixels c')) c' world g0).
Proof.
  intros Honce Hret Hclear.
  destruct (render_uncancelled E _ _ _ _ _ _ _ Honce Hret Hclear) as (_ & Hbuf & _).
  unfold App.render_thread_body. rewrite Hret, Hclear. cbn.
  now repeat split.
Qed.

(** X12: when the stop flag stays set once it is set and the worker finds
    it clear after the render, the render was complete: the worker leaves
    the progress at 1, the update flag set and the whole frame in the
    buffer, and it has drawn exactly the random numbers of the frame. *)
Theorem uncancelled_worker_completes (E : environment) (g0 : G) (a : App.app)
  (c' : camera) (st : @state G) :
  set_once E ->
  render_to_buffer_with_progress tan E (App.cam a) world (App.image_buffer a)
    (App.render_progress a) (App.texture_needs_update a) g0
  = Returned c' st ->
  should_stop E (loads st) = false ->
  App.render_progress (fst (App.render_thread_body tan world E g0 a)) = Binary32.one /\
  App.texture_needs_update (fst (App.render_thread_body tan world E g0 a)) = true /\
  App.image_buffer (fst (App.render_thread_body tan world E g0 a))
  = fst (frame (Z.to_nat (total_pixels c')) c' world g0) /\
  completed_pixels st = total_pixels c' /\
  snd (App.render_thread_body tan world E g0 a)
  = snd (frame (Z.to_nat (total_pixels c')) c' world g0).
Proof.
  intros Honce Hret Hclear.
  destruct (render_uncancelled E _ _ _ _ _ _ _ Honce Hret Hclear) as (Hdone & Hbuf & Hrng).
  unfold App.render_thread_body. rewrite Hret, Hclear. cbn.
  now repeat split.
Qed.

End Application.

Lemma export_ppm_sized (a : App.app) :
  App.image_buffer a <> [] ->
  0 <= App.current_image_width a -> 0 <= App.current_image_height a ->
  (Z.to_nat (App.current_image_width a * App.current_image_height a * 3)
   <= length (App.image_buffer a))%nat ->
  App.export_ppm true a
  = App.Written
      (String.append (Text.header (App.current_image_width a) (App.current_image_height a))
         (Text.lines_of
            (take (Z.to_nat (App.current_image_width a * App.current_image_height a * 3))
               (App.image_buffer a)))).
Proof.
  intros Hne Hw Hh Hlen.
  rewrite (export_ppm_written a Hne). cbv zeta.
  replace (3 * (App.current_image_height a * App.current_image_width a)
           <=? Z.of_nat (length (App.image_buffer a))) with true
    by (symmetry; apply Z.leb_le; nia).
  rewrite andb_false_r.
  replace (3 * Z.to_nat (Z.max 0 (App.current_image_height a)
                         * Z.max 0 (App.current_image_width a)))%nat
    with (Z.to_nat (App.current_image_width a * App.current_image_height a * 3));
    [reflexivity |].
  rewrite !Z.max_r by assumption.
  apply Nat2Z.inj. rewrite Nat2Z.inj_mul, !Z2Nat.id by nia.
  change (Z.of_nat 3) with 3. ring.
Qed.

Lemma read_written (width height : Z) (image_buffer : list Z) :
  0 <= width -> 0 <= height ->
  (Z.to_nat (width * height * 3) <= length image_buffer)%nat ->
  Text.read_ppm
    (String.append (Text.header width height)
       (Text.lines_of (take (Z.to_nat (width * height * 3)) image_buffer)))
  = Some (width, height, 255, take (Z.to_nat (width * height * 3)) image_buffer).
Proof.
  intros Hw Hh Hlen.
  apply (TextFacts.read_header _ _ (Z.to_nat (width * height))).
  rewrite length_take. nia.
Qed.

(** X13: what [export_ppm] writes can be read back.  When the buffer is
    not empty and holds at least [width * height * 3] bytes, the file is
    plain PPM whose header gives the displayed width and height and 255,
    and whose samples are the first [width * height * 3] bytes of the
    buffer, in order. *)
Theorem export_reads_back (a : App.app) :
  App.image_buffer a <> [] ->
  0 <= App.current_image_width a -> 0 <= App.current_image_height a ->
  (Z.to_nat (App.current_image_width a * App.current_image_height a * 3)
   <= length (App.image_buffer a))%nat ->
  exists content : String.string,
    App.export_ppm true a = App.Written content /\
    Text.read_ppm content
    = Some (App.current_image_width a, App.current_image_height a, 255,
            take (Z.to_nat (App.current_image_width a * App.current_image_height a * 3))
              (App.image_buffer a)).
Proof.
  intros Hne Hw Hh Hlen. eexists.
  split; [now apply export_ppm_sized | now apply read_written].
Qed.

(** X14: [export_ppm] writes nothing when the buffer is empty and nothing
    when the file cannot be opened.  Otherwise it reads the buffer past its
    end exactly when the image is not empty and has more bytes than the
    buffer; it never does so when the buffer has the size of the image. *)
Theorem export_reads_within_bounds (a : App.app) :
  (App.image_buffer a = [] -> forall opens : bool, App.export_ppm opens a = App.NoImage) /\
  (App.image_buffer a <> [] -> App.export_ppm false a = App.OpenFailed) /\
  (App.image_buffer a <> [] ->
   (App.export_ppm true a = App.OutOfBounds
    <-> 0 < App.current_image_width a /\ 0 < App.current_image_height a /\
        Z.of_nat (length (App.image_buffer a))
        < 3 * App.current_image_width a * App.current_image_height a)) /\
  (App.sized a -> App.export_ppm true a <> App.OutOfBounds).
Proof.
  assert (Hbounds : App.image_buffer a <> [] ->
    (App.export_ppm true a = App.OutOfBounds
     <-> 0 < App.current_image_width a /\ 0 < App.current_image_height a /\
         Z.of_nat (length (App.image_buffer a))
         < 3 * App.current_image_width a * App.current_image_height a)).
  { intros Hne. rewrite (export_ppm_written a Hne). cbv zeta.
    destruct (Z.ltb_spec 0 (App.current_image_width a)) as [Hw | Hw];
      destruct (Z.ltb_spec 0 (App.current_image_height a)) as [Hh | Hh];
      destruct (Z.leb_spec (3 * (App.current_image_height a * App.current_image_width a))
                  (Z.of_nat (length (App.image_buffer a)))) as [Hfits | Hshort];
      cbn [andb negb]; (split; [try discriminate | try reflexivity]);
      try (intros (? & ? & ?)); try lia; try nia. }
  split; [| split; [| split; [exact Hbounds |]]].
  - intros Hempty opens. unfold App.export_ppm. now rewrite Hempty.
  - intros Hne. unfold App.export_ppm.
    destruct (App.image_buffer a); [contradiction | reflexivity].
  - intros (Hw & Hh & Hlen) Hout.
    assert (Hne : App.image_buffer a <> []).
    { intros Hempty. unfold App.export_ppm in Hout. now rewrite Hempty in Hout. }
    apply (Hbounds Hne) in Hout. nia.
Qed.

Section Display.

Context {G M H : Type@{scene}}.
Context `{RandomSource G} `{Material M G} `{Hittable H M}.

Variable tan : float -> float.
Variable world : H.

(** X15: a render that is started from an idle application with a
    positive width, the size [width * height * 3] of its buffer being an
    [int], and that is never stopped ends with the frame of the camera in
    the buffer, the progress at 1, [is_rendering] cleared and an update
    requested.  The next [update_texture] displays that frame and clears the
    request, and an export then writes a file that reads back as the frame
    with the displayed width and height. *)
Theorem finished_render_is_displayed (E : environment) (g0 : G) (a a' : App.app) :
  (forall n : nat, should_stop E n = false) ->
  App.is_rendering a = false ->
  0 < App.image_width a ->
  App.int_sized (App.setup_camera a) ->
  App.start_render a = Some a' ->
  let done := fst (App.render_thread_body tan world E g0 a') in
  let shown := App.update_texture done in
  let image :=
    fst (frame (Z.to_nat (App.current_image_width a' * App.current_image_height a'))
           (initialize tan (App.cam a')) world g0) in
  App.image_buffer done = image /\
  App.render_progress done = Binary32.one /\
  App.is_rendering done = false /\
  App.texture_needs_update done = true /\
  App.texture shown = image /\
  App.texture_needs_update shown = false /\
  exists content : String.string,
    App.export_ppm true shown = App.Written content /\
    Text.read_ppm content
    = Some (App.current_image_width a', App.current_image_height a', 255, image).
Proof.
  intros Hnever Hidle Hwidth Hfits Hstart done shown image.
  destruct (start_render_idle tan a Hidle ltac:(lia))
    as (a1 & Hstart1 & Hsized & Hstep & _).
  rewrite Hstart in Hstart1. injection Hstart1 as <-.
  pose proof (setup_camera_size tan a) as (_ & Hcw & Hch).
  destruct Hstep as [Hw Hh].
  assert (Hsame : (App.current_image_width a' = App.image_width a
                   /\ 1 <= App.current_image_height a' <= Num.INT_MAX)
                  /\ App.current_image_width a' * App.current_image_height a' * 3
                     <= Num.INT_MAX).
  { unfold App.int_sized in Hfits. destruct Hfits as [_ Hfits].
    unfold App.start_render in Hstart. rewrite Hidle in Hstart.
    destruct (App.update_texture_size (App.setup_camera a)) as [a2 |] eqn:Hsize;
      [| discriminate].
    unfold App.update_texture_size in Hsize.
    destruct (_ <? 0); [discriminate |]. injection Hsize as <-.
    injection Hstart as <-. unfold App.cleanup_render_thread.
    now destruct (App.render_thread _). }
  destruct Hsame as [[Hcw' Hch'] Hsize].
  destruct (render_returns tan world E (App.cam a') (App.image_buffer a')
              (App.render_progress a') (App.texture_needs_update a') g0)
    as [st Hrun]; [rewrite <- Hw; lia |].
  destruct (worker_completes tan world E g0 a' _ st
              (never_set_once E Hnever) Hrun (Hnever _))
    as (Hprogress & Hflag & Hbuffer).
  assert (Hidle' : App.is_rendering done = false).
  { unfold done, App.render_thread_body. rewrite Hrun.
    now destruct (should_stop E (loads st)). }
  destruct (worker_keeps_size tan world E g0 a' ltac:(rewrite <- Hw; lia) (conj Hw Hh))
    as [Hsized' [Hw' Hh']].
  fold done in Hprogress, Hflag, Hbuffer, Hsized', Hw', Hh'.
  assert (Hdims : App.current_image_width done = App.current_image_width a'
                  /\ App.current_image_height done = App.current_image_height a').
  { unfold done, App.render_thread_body. rewrite Hrun.
    now destruct (should_stop E (loads st)). }
  destruct Hdims as [Hdw Hdh].
  assert (Himage : App.image_buffer done = image).
  { rewrite Hbuffer. unfold image, total_pixels.
    change (image_width (initialize tan (App.cam a'))) with (image_width (App.cam a')).
    now rewrite <- Hw, <- Hh. }
  destruct Hsized' as (Hnw & Hnh & Hlen).
  assert (Hne : App.image_buffer done <> []).
  { intros Hempty. rewrite Hempty, Hdw, Hdh in Hlen. cbn in Hlen. nia. }
  assert (Hshown : shown
                   = App.set_texture_needs_update false
                       (App.set_texture (App.image_buffer done) done)).
  { unfold shown, App.update_texture, App.uploadable. rewrite Hflag.
    replace (bool_decide (App.image_buffer done = [])) with false
      by (symmetry; now apply bool_decide_eq_false).
    unfold App.to_size_t.
    rewrite Z.mod_small
      by (rewrite Hdw, Hdh; unfold Num.INT_MAX in *; nia).
    replace (_ <=? _) with true by (symmetry; apply Z.leb_le; lia).
    reflexivity. }
  split; [assumption |]. split; [assumption |]. split; [assumption |].
  split; [assumption |].
  rewrite Hshown. cbn [App.texture App.set_texture App.set_texture_needs_update
                       App.texture_needs_update].
  split; [assumption |]. split; [reflexivity |].
  eexists. split.
  { apply export_ppm_sized; cbn; try assumption; lia. }
  cbn [App.current_image_width App.current_image_height App.image_buffer
       App.set_texture App.set_texture_needs_update].
  rewrite read_written by (try assumption; lia).
  rewrite Hdw, Hdh. do 2 f_equal.
  rewrite <- Himage. apply firstn_all2. rewrite Hlen, Hdw, Hdh. lia.
Qed.

End Display.

(** X16: on the whole range of the width slider, 100 to 1600, the height
    that the control panel announces and the height that [setup_camera]
    computes are both the exact [width * 9 / 16], rounded down: the two
    binary64 computations never differ. *)
Theorem estimated_height_is_exact (a : App.app) :
  100 <= App.image_width a <= 1600 ->
  App.estimated_height a = App.image_width a * 9 / 16 /\
  App.current_image_height (App.setup_camera a) = App.image_width a * 9 / 16.
Proof.
  intros Hrange.
  pose proof heights_exact_on_the_slider as Hall.
  rewrite forallb_forall in Hall.
  specialize (Hall (App.image_width a)).
  assert (Hin : In (App.image_width a)
                  (map (fun k : nat => 100 + Z.of_nat k) (seq 0 1501))).
  { apply in_map_iff. exists (Z.to_nat (App.image_width a - 100)).
    split; [lia |]. apply in_seq. lia. }
  apply Hall in Hin. unfold heights_exact in Hin.
  apply andb_true_iff in Hin as [Hestimate Hactual].
  apply Z.eqb_eq in Hestimate, Hactual.
  split; [exact Hestimate |].
  unfold App.setup_camera. cbn [App.current_image_height App.set_current_image].
  cbn [aspect_ratio App.assign].
  rewrite Hactual.
  destruct (Z.ltb_spec (App.image_width a * 9 / 16) 1) as [Hsmall |]; [| reflexivity].
  assert (56 <= App.image_width a * 9 / 16) by (apply Z.div_le_lower_bound; lia). lia.
Qed.

(** * The worker and the display *)

Section Protocol.

Import Threads.

Variable width : Z.

Lemma step_in_sync (acts acts' : list action) (ph ph' : phase) (a a' : App.app) :
  step width (acts, ph, a) (acts', ph', a') ->
  settled acts -> in_sync acts ph a ->
  settled acts' /\ in_sync acts' ph' a'
  /\ (acts' = acts /\ App.image_buffer a' = App.image_buffer a
      \/ exists act : action,
           acts = act :: acts'
           /\ App.image_buffer a' = write width act (App.image_buffer a))
  /\ App.current_image_width a' = App.current_image_width a
  /\ App.current_image_height a' = App.current_image_height a.
Proof.
  intros Hstep Hsettled Hsync.
  inversion Hstep as [act rest ph0 a0 Hmutex | rest a0 Hflag | rest a0 Hok
                      | rest a0 Hno | rest a0]; subst.
  - destruct Hsettled as [Hraise Hsettled]. split; [assumption |].
    split; [| split; [right; exists act; split; [reflexivity |] |]];
      try (now destruct act).
    destruct act; cbn [needs_mutex] in *.
    + specialize (Hraise eq_refl).
      destruct ph'; [| | now contradiction Hmutex]; now do 2 right.
    + specialize (Hraise eq_refl).
      destruct ph'; [| | now contradiction Hmutex]; now do 2 right.
    + destruct ph'; [right; now left | right; now left | exact Hsync].
    + destruct ph'; [| | exact Hsync];
        (destruct Hsync as [Hs | [Hs | [Hs | Hs]]];
         [now left | right; now left | discriminate | now do 2 right]).
  - split; [assumption |]. split; [exact Hsync |]. split; [now left | now split].
  - split; [assumption |]. split; [reflexivity |]. split; [now left | now split].
  - split; [assumption |]. split; [exact Hsync |]. split; [now left | now split].
  - split; [assumption |]. split; [left; exact Hsync |]. split; [now left | now split].
Qed.

Lemma runs_in_sync (s s' : list action * phase * App.app) :
  runs width s s' ->
  settled (fst (fst s)) -> in_sync (fst (fst s)) (snd (fst s)) (snd s) ->
  fst (fst s') = [] ->
  in_sync [] (snd (fst s')) (snd s')
  /\ App.image_buffer (snd s')
     = fold_left (fun buffer act => write width act buffer) (fst (fst s))
         (App.image_buffer (snd s))
  /\ App.current_image_width (snd s') = App.current_image_width (snd s)
  /\ App.current_image_height (snd s') = App.current_image_height (snd s).
Proof.
  induction 1 as [[[acts ph] a] | [[acts1 ph1] a1] [[acts2 ph2] a2] s3 Hstep Hruns IH];
    cbn [fst snd] in *.
  - intros _ Hsync ->. now repeat split.
  - intros Hsettled Hsync Hend.
    destruct (step_in_sync _ _ _ _ _ _ Hstep Hsettled Hsync)
      as (Hsettled2 & Hsync2 & Hbuffer & Hw & Hh).
    destruct (IH Hsettled2 Hsync2 Hend) as (Hsync3 & Hbuffer3 & Hw3 & Hh3).
    split; [assumption |]. split; [| split; congruence].
    rewrite Hbuffer3.
    destruct Hbuffer as [[-> ->] | (act & -> & ->)]; reflexivity.
Qed.

Lemma play_one_step (m : move) (s s' : list action * phase * App.app) :
  play_one width m s = Some s' -> step width s s'.
Proof.
  destruct s as [[acts ph] a]. unfold play_one.
  destruct m, ph; try discriminate;
    try (destruct acts as [| act rest]; try discriminate).
  all: try match goal with
           | |- context [if ?b then _ else _] => destruct b eqn:Htest
           end;
       try discriminate; intros Hplay; injection Hplay as <-.
  all: try (now constructor).
  constructor. intros Hmutex. congruence.
Qed.

Lemma play_runs (schedule : list move) :
  forall s s' : list action * phase * App.app,
    play width schedule s = Some s' -> runs width s s'.
Proof.
  induction schedule as [| m schedule IH]; intros s s'; cbn [play].
  - intros Hplay. injection Hplay as <-. constructor.
  - destruct (play_one width m s) as [s1 |] eqn:Hone; [| discriminate].
    intros Hplay. apply runs_on with s1; [now apply (play_one_step m) | now apply IH].
Qed.

Lemma settled_worker (size : nat) (l : list event) : settled (worker_actions size l).
Proof.
  unfold worker_actions.
  assert (Hany : forall acts : list action, settled (acts ++ [Flag])).
  { induction acts as [| act acts IH]; cbn; [split; [discriminate | exact I] |].
    split; [| assumption]. intros _. apply in_or_app. right. now left. }
  split; [| apply Hany]. intros _. apply in_or_app. right. now left.
Qed.

Lemma written_log (c : camera) (l : list event) :
  image_width c = width ->
  fold_left (fun buffer act => write width act buffer) (map action_of (rev l))
    (replicate (Z.to_nat (image_width c * image_height c * 3)) 0)
  = paint c l.
Proof.
  intros <-. induction l as [| e l IH]; [reflexivity |].
  cbn [rev]. rewrite map_app, fold_left_app, IH.
  now destruct e.
Qed.

End Protocol.

Section ProtocolStatements.

Import Threads.

Context {G M H : Type@{scene}}.
Context `{RandomSource G} `{Material M G} `{Hittable H M}.

Variable tan : float -> float.
Variable world : H.

(** The worker alone, with [update_texture] not running. *)
Lemma worker_alone (width : Z) (acts : list action) :
  forall a : App.app,
    runs width (acts, Idle, a)
      ([], Idle, fold_left (fun a act => perform width act a) acts a).
Proof.
  induction acts as [| act acts IH]; intros a; cbn [fold_left]; [constructor |].
  eapply runs_on; [| apply IH]. now constructor.
Qed.

(** X17: no update of the display is lost.  Let the worker of a render
    that is never stopped run to the end of its thread, interleaved in any
    way that the mutex allows with any number of calls of [update_texture].
    When both have come to rest the buffer holds the frame, and the display
    shows the buffer or an update is still requested, in which case the next
    [update_texture] that passes its size test displays the buffer. *)
Theorem no_update_is_lost (E : environment) (g0 : G) (a0 a : App.app)
  (c' : camera) (st : @state G) :
  (forall n : nat, should_stop E n = false) ->
  render_to_buffer_with_progress tan E (App.cam a0) world (App.image_buffer a0)
    (App.render_progress a0) (App.texture_needs_update a0) g0
  = Returned c' st ->
  runs (image_width c')
    (worker_actions (Z.to_nat (image_width c' * image_height c' * 3)) (log st), Idle, a0)
    ([], Idle, a) ->
  App.image_buffer a = fst (frame (Z.to_nat (total_pixels c')) c' world g0) /\
  (App.texture a = App.image_buffer a \/ App.texture_needs_update a = true) /\
  (App.uploadable a = true -> App.texture (App.update_texture a) = App.image_buffer a).
Proof.
  intros Hnever Hret Hruns.
  pose proof (render_consistent _ _ _ _ _ _ _ _ _ _ Hret) as Hco.
  apply render_complete in Hret as (_ & _ & Hbuffer & _); [| assumption].
  apply runs_in_sync in Hruns; cbn [fst snd] in *;
    [| apply settled_worker | | reflexivity].
  - destruct Hruns as (Hsync & Hpainted & _).
    assert (Himage : App.image_buffer a
                     = fst (frame (Z.to_nat (total_pixels c')) c' world g0)).
    { rewrite Hpainted, <- Hbuffer, (buffer_log _ _ _ _ Hco).
      unfold worker_actions. cbn [fold_left write].
      rewrite fold_left_app. cbn [fold_left write].
      rewrite resize_fill. now apply written_log. }
    assert (Hshown : App.texture a = App.image_buffer a
                     \/ App.texture_needs_update a = true).
    { destruct Hsync as [Hs | [Hs | []]]; [now left | now right]. }
    split; [assumption |]. split; [assumption |].
    intros Hok. unfold App.update_texture.
    destruct (App.texture_needs_update a) eqn:Hflag.
    + now rewrite Hok.
    + destruct Hshown as [Hs | Hs]; [exact Hs | discriminate].
  - do 2 right. unfold worker_actions. right. apply in_or_app. right. now left.
Qed.

End ProtocolStatements.

(** * Runs of the small scene *)

Section Runs.

Import Demo.

Lemma stop_from_set_once (n : nat) (clock : nat -> Z) :
  set_once (mk_environment (stop_from n) clock).
Proof.
  intros m k Hle Hm. cbn in *. unfold stop_from in *.
  apply Nat.leb_le. apply Nat.leb_le in Hm. lia.
Qed.

Example ray_color_recursive_value :
  ray_color (initialize Demo.tan (cam 1 2 3)) meadow downward 3 1
  = (Vec3.mk 0.25001202195717198 0.35000721317430317 0.5, 1103527590).
Proof. vm_compute. reflexivity. Qed.

Example ray_color_depth_one_is_black :
  fst (ray_color (initialize Demo.tan (cam 1 2 1)) meadow downward 1 1) = black.
Proof. vm_compute. reflexivity. Qed.

Lemma ray_color_on_hit_witness :
  let c := initialize Demo.tan (cam 1 2 3) in
  let g1 := lcg_next 1 in
  let scattered :=
    mk_ray (p landing)
      (Vec3.add (normal landing) (Vec3.mk (fst (lcg_double 1) - 0.5) 0 0)) in
  0 < 3 /\
  hit meadow downward (mk_interval 0.001 infinity) = Some landing /\
  ray_color c meadow downward 3 1
  = (Vec3.mul grey (fst (ray_color c meadow scattered (3 - 1) g1)),
     snd (ray_color c meadow scattered (3 - 1) g1)).
Proof.
  cbv zeta.
  assert (Hdepth : 0 < 3) by lia.
  assert (Hhit : hit meadow downward (mk_interval 0.001 infinity) = Some landing)
    by (vm_compute; reflexivity).
  split; [exact Hdepth |]. split; [exact Hhit |].
  apply (ray_color_on_hit (initialize Demo.tan (cam 1 2 3)) meadow downward 3 1
           landing Hdepth Hhit); reflexivity.
Defined.

(** C5, as first stated, has the gradient white at the horizon: a ray along
    the horizon that misses everything is coloured (0.75, 0.85, 1), not
    white. *)
Lemma horizon_is_not_white :
  let c := initialize Demo.tan (cam 1 2 3) in
  hit Sky level (mk_interval 0.001 infinity) = None /\
  Vec3.y (Vec3.unit_vector (direction level)) = 0%float /\
  Vec3.x (fst (ray_color c Sky level 1 1)) = 0.75%float /\
  fst (ray_color c Sky level 1 1) <> Vec3.mk 1 1 1.
Proof.
  cbv zeta. split; [reflexivity |]. split; [vm_compute; reflexivity |].
  split; [vm_compute; reflexivity |].
  intros Hwhite.
  apply (f_equal (fun colour => PrimFloat.ltb (Vec3.x colour) 1)) in Hwhite.
  vm_compute in Hwhite. discriminate.
Qed.

Lemma ray_color_on_miss_witness :
  let c := initialize Demo.tan (cam 1 2 3) in
  0 < 1 /\
  hit Sky level (mk_interval 0.001 infinity) = None /\
  ray_color c Sky level 1 1
  = (Vec3.add (Vec3.scale (1.0 - 0.5 * (0 + 1.0)) (Vec3.mk 1.0 1.0 1.0))
              (Vec3.scale (0.5 * (0 + 1.0)) (Vec3.mk 0.5 0.7 1.0)), 1).
Proof.
  cbv zeta.
  assert (Hdepth : 0 < 1) by lia.
  assert (Hmiss : hit Sky level (mk_interval 0.001 infinity) = None) by reflexivity.
  split; [exact Hdepth |]. split; [exact Hmiss |].
  exact (proj1 (ray_color_on_miss (initialize Demo.tan (cam 1 2 3)) Sky level 1 1
                  Hdepth Hmiss)).
Defined.

Lemma ray_color_terminates_witness :
  let c := initialize Demo.tan (cam 1 2 3) in
  (Z.to_nat 3 < 4)%nat /\
  ray_color_fuel 4 c meadow downward 3 1 = Some (ray_color c meadow downward 3 1) /\
  ray_color_fuel 1 c meadow downward 0 1 = Some (black, 1).
Proof.
  cbv zeta.
  assert (Hfuel : (Z.to_nat 3 < 4)%nat) by (cbn; lia).
  split; [exact Hfuel |]. split.
  - exact (proj1 (ray_color_terminates (initialize Demo.tan (cam 1 2 3)) meadow
                    downward 3 1) 4%nat Hfuel).
  - apply (ray_color_terminates (initialize Demo.tan (cam 1 2 3)) meadow downward 0 1).
    lia.
Defined.

(** Splits a call of the worker that returned into its camera and its
    final state, keeping the equation of the call. *)
Ltac returned Hrun c' st :=
  match goal with
  | |- context [render_to_buffer_with_progress ?tan ?E ?c ?world ?b ?p ?t ?g] =>
      destruct (render_to_buffer_with_progress tan E c world b p t g)
        as [| c' st] eqn:Hrun;
      [vm_compute in Hrun; discriminate |];
      let Hval := fresh "Hval" in
      pose proof Hrun as Hval; vm_compute in Hval;
      injection Hval as ? ?
  end.

Ltac in_list := repeat (first [left; reflexivity | right]).

(** C2, as first stated, has the progress value below 1 after every
    cancellation.  A call that finds the flag set at its first poll leaves
    the progress value as it found it, here at 1; a call that finds the
    flag set only at its last read, after the loops, has stored 4/4 for the
    last of its four pixels; and on an image of 4097 x 4097 pixels the
    quotient stored after pixel 16785407, two pixels before the last, is
    already 1.0 in binary32, so a call stopped there leaves 1.0 as well. *)
Lemma stop_can_leave_progress_at_one :
  match
    render_to_buffer_with_progress Demo.tan (mk_environment (stop_from 0) frozen)
      (cam 1 2 3) Sky [] Binary32.one false 1
  with
  | Threw => False
  | Returned c' st =>
      set_once (mk_environment (stop_from 0) frozen) /\
      rev (log st) = [EvNow 0; EvPoll (AtRow 0) true; EvPoll AtExit true] /\
      cancelled (log st) /\
      progress st = Binary32.one /\
      SFltb (progress st) Binary32.one = false
  end /\
  match
    render_to_buffer_with_progress Demo.tan (mk_environment (stop_from 18) frozen)
      (cam 1 2 3) Sky [] Binary32.zero false 1
  with
  | Threw => False
  | Returned c' st =>
      set_once (mk_environment (stop_from 18) frozen) /\
      head (log st) = Some (EvPoll AtExit true) /\
      completed_pixels st = total_pixels c' /\
      progress st = Binary32.one /\
      SFltb (progress st) Binary32.one = false
  end /\
  (let c := initialize Demo.tan (cam 1 4097 3) in
   int_sized c /\ 16785407 < total_pixels c /\
   float_div 16785407 (total_pixels c) = Binary32.one /\
   SFltb (float_div 16785407 (total_pixels c)) Binary32.one = false).
Proof.
  split; [| split].
  - returned Hrun c' st. subst c' st.
    split; [apply stop_from_set_once |]. split; [reflexivity |].
    split; [exists (AtRow 0); split; [reflexivity | in_list] |].
    split; reflexivity.
  - returned Hrun c' st. subst c' st.
    split; [apply stop_from_set_once |]. split; [reflexivity |].
    split; [reflexivity |]. split; reflexivity.
  - cbv zeta. split; [vm_compute; split; discriminate |].
    split; [vm_compute; reflexivity |]. split; vm_compute; reflexivity.
Qed.

Lemma cancellation_is_cooperative_witness :
  let E := mk_environment (stop_from 9) ticking in
  match render_to_buffer_with_progress Demo.tan E (cam 1 2 3) meadow [] Binary32.zero false 1 with
  | Threw => False
  | Returned c' st =>
      set_once E /\
      cancelled (log st) /\
      buffer st = [203; 226; 255; 201; 225; 255; 0; 0; 0; 0; 0; 0] /\
      completed_pixels st = 2 /\
      progress st = float_div 2 4 /\
      int_sized c' /\ total_pixels c' <= 2 ^ 24 /\
      SFltb Binary32.zero Binary32.one = true /\
      SFltb (progress st) Binary32.one = true
  end.
Proof.
  cbv zeta. returned Hrun c' st.
  pose proof (stop_from_set_once 9 ticking) as Honce.
  assert (Hcancelled : cancelled (log st)).
  { subst st. exists (AtRow 1). split; [reflexivity |]. in_list. }
  assert (Hsized : int_sized c') by (subst c'; vm_compute; split; discriminate).
  assert (Hsmall : total_pixels c' <= 2 ^ 24) by (subst c'; vm_compute; discriminate).
  assert (Hzero : SFltb Binary32.zero Binary32.one = true) by reflexivity.
  destruct (cancellation_is_cooperative Demo.tan _ _ _ _ _ _ _ _ _ Honce Hrun)
    as (_ & _ & _ & Hafter & _).
  destruct (Hafter Hcancelled) as (n & _ & _ & _ & _ & Hvalue & Hbelow).
  split; [exact Honce |]. split; [exact Hcancelled |].
  split; [subst st; reflexivity |]. split; [subst st; reflexivity |].
  split; [rewrite Hvalue; subst c' st; reflexivity |].
  split; [exact Hsized |]. split; [exact Hsmall |]. split; [exact Hzero |].
  exact (Hbelow Hsized Hsmall Hzero).
Defined.

(** C3, as first stated, has the sum of the samples divided by
    [sample_count].  Line 74 takes the reciprocal [1.0 / sample_count]
    first and line 75 multiplies by it, and the reciprocal of 10 is not a
    binary64 number.  In this render of a 2 x 2 image with 10 samples per
    pixel every sample of pixel (0, 1) is the shaded ground; the square
    root of their sum times the rounded 0.1 is [76/256] in binary64 and the
    worker writes 76, while the sum divided by 10 is the next number below,
    with a square root below [76/256], and gives 75. *)
Lemma average_is_not_the_quotient :
  let E := mk_environment never_stop frozen in
  let c := with_toggles (with_samples (cam 1 2 3) 10) true true false false in
  match render_to_buffer_with_progress Demo.tan E c dusk [] Binary32.zero false 1 with
  | Threw => False
  | Returned c' st =>
      let sum := sampled_sum 1 0 (log st) in
      image_width c' = 2 /\ image_height c' = 2 /\ sample_count c' = 10 /\
      In (EvPixel 1 0 76 76 76) (log st) /\
      buffer st !! Z.to_nat (3 * (1 * image_width c' + 0)) = Some 76 /\
      Vec3.x sum = 0.88134765624999978%float /\
      (1.0 / Num.of_int 10 * Vec3.x sum = 0.088134765624999986)%float /\
      (Vec3.x sum / Num.of_int 10 = 0.088134765624999972)%float /\
      (256 * PrimFloat.sqrt 0.088134765624999986 = 76)%float /\
      (256 * PrimFloat.sqrt 0.088134765624999972 = 75.999999999999986)%float /\
      pixel_bytes sum (sample_count c') = (76, 76, 76) /\
      pixel_bytes_by_division sum (sample_count c') = (75, 75, 75) /\
      buffer st !! Z.to_nat (3 * (1 * image_width c' + 0))
      <> Some (fst (fst (pixel_bytes_by_division sum (sample_count c'))))
  end.
Proof.
  cbv zeta. returned Hrun c' st. subst c' st.
  do 3 (split; [reflexivity |]).
  split; [cbn [log]; in_list |].
  split; [reflexivity |].
  do 7 (split; [vm_compute; reflexivity |]).
  vm_compute. discriminate.
Qed.

Lemma completed_pixels_hold_their_bytes_witness :
  let E := mk_environment (stop_from 9) ticking in
  match render_to_buffer_with_progress Demo.tan E (cam 1 2 3) meadow [] Binary32.zero false 1 with
  | Threw => False
  | Returned c' st =>
      In (EvPixel 0 1 201 225 255) (log st) /\
      length (buffer st) = 12%nat /\
      buffer st !! Z.to_nat (3 * (0 * image_width c' + 1) + 2) = Some 255
  end.
Proof.
  cbv zeta. returned Hrun c' st.
  destruct (completed_pixels_hold_their_bytes Demo.tan _ _ _ _ _ _ _ _ _ Hrun)
    as (Hlength & _ & Hbytes & _).
  assert (Hwritten : In (EvPixel 0 1 201 225 255) (log st))
    by (subst st; cbn [log]; in_list).
  destruct (Hbytes 0 1 201 225 255 Hwritten) as (_ & _ & _ & _ & Hblue).
  subst c' st.
  split; [assumption |]. split; [exact Hlength | exact Hblue].
Defined.

(** C4, as first stated, lets the flag be raised under its three conditions
    only.  In this run of a 2 x 2 image the clock stands still, so no
    100 ms ever pass; the raise at the end of row 0 comes right after an
    after-pixel raise, with no pixel completed in between, and with two of
    the four pixels still to do. *)
Lemma row_end_raise_ignores_the_throttle :
  let E := mk_environment never_stop frozen in
  match render_to_buffer_with_progress Demo.tan E (cam 1 2 3) Sky [] Binary32.zero false 1 with
  | Threw => False
  | Returned c' st =>
      let before := drop 24 (log st) in
      log st = take 23 (log st) ++ EvRaise (RowEnd 0) :: before /\
      ~ (update_interval <= last_reading before - reading_at_any_raise before \/
         total_pixels c' <= 100 * pixels_since_any_raise before \/
         pixels_done before = total_pixels c')
  end.
Proof.
  cbv zeta. returned Hrun c' st. subst c' st.
  split; [vm_compute; reflexivity |].
  set (before := drop 24 _).
  assert (Helapsed : last_reading before - reading_at_any_raise before = 0)
    by (vm_compute; reflexivity).
  assert (Hsince : pixels_since_any_raise before = 0) by (vm_compute; reflexivity).
  assert (Hdone : pixels_done before = 2) by (vm_compute; reflexivity).
  rewrite Helapsed, Hsince, Hdone.
  change (total_pixels _) with 4. unfold update_interval. lia.
Qed.

(** The pixel count of the throttle is [total_pixels / 100] rounded down: in
    this run of a 15 x 10 image it is 1, and the second pixel raises the
    flag one pixel (less than 1% of 150) after the first one did, with the
    clock standing still and 148 pixels to go. *)
Example one_percent_is_rounded_down :
  let E := mk_environment never_stop frozen in
  let c := with_toggles (cam 1.5 15 1) false true true true in
  match render_to_buffer_with_progress Demo.tan E c Sky [] Binary32.zero false 1 with
  | Threw => False
  | Returned c' st =>
      let before := drop 1205 (log st) in
      log st = take 1204 (log st) ++ EvRaise AfterPixel :: before /\
      update_frequency c' = 1 /\
      ~ (update_interval <= last_reading before - reading_at_any_raise before \/
         total_pixels c' <= 100 * pixels_since_any_raise before \/
         pixels_done before = total_pixels c')
  end.
Proof.
  cbv zeta. returned Hrun c' st. subst c' st.
  split; [vm_compute; reflexivity |]. split; [reflexivity |].
  set (before := drop 1205 _).
  assert (Helapsed : last_reading before - reading_at_any_raise before = 0)
    by (vm_compute; reflexivity).
  assert (Hsince : pixels_since_any_raise before = 1) by (vm_compute; reflexivity).
  assert (Hdone : pixels_done before = 2) by (vm_compute; reflexivity).
  rewrite Helapsed, Hsince, Hdone.
  change (total_pixels _) with 150. unfold update_interval. lia.
Qed.

Lemma raises_come_from_two_places_witness :
  let E := mk_environment never_stop frozen in
  match render_to_buffer_with_progress Demo.tan E (cam 1 2 3) Sky [] Binary32.zero false 1 with
  | Threw => False
  | Returned c' st =>
      log st = take 24 (log st) ++ EvRaise AfterPixel :: drop 25 (log st) /\
      (update_interval <= last_reading (drop 25 (log st)) - throttle_time (drop 25 (log st)) \/
       update_frequency c' <= pixels_since_raise (drop 25 (log st)) \/
       pixels_done (drop 25 (log st)) = total_pixels c') /\
      0 <= 1 < image_height c' /\
      Z.rem 1 (Z.max 1 (Z.quot (image_height c') 20)) = 0 /\
      In (EvPoll (AtRow 1) false) (log st) /\
      In (EvRaise (RowEnd 1)) (log st)
  end.
Proof.
  cbv zeta. returned Hrun c' st.
  assert (Hlog : log st = take 24 (log st) ++ EvRaise AfterPixel :: drop 25 (log st))
    by (subst st; vm_compute; reflexivity).
  assert (Hrow : 0 <= 1 < image_height c') by (subst c'; cbn; lia).
  assert (Hrem : Z.rem 1 (Z.max 1 (Z.quot (image_height c') 20)) = 0)
    by (subst c'; reflexivity).
  destruct (raises_come_from_two_places Demo.tan _ _ _ _ _ _ _ _ _ Hrun)
    as (Honly & _ & Hall).
  destruct (Hall (fun _ => eq_refl) 1 Hrow) as [Hentered Hraised].
  split; [exact Hlog |].
  split; [exact (Honly _ _ AfterPixel Hlog) |].
  split; [exact Hrow |]. split; [exact Hrem |].
  split; [exact Hentered | exact (Hraised Hrem)].
Defined.

(** C6, as first stated, has the progress value reach 1.0 exactly when the
    last pixel completes, and equal to [k / total_pixels] after pixel [k].
    The quotient is taken in binary32: on an image of 4097 x 4097 pixels,
    both 16785407 and 16785409 become 16785408 when they are converted, so
    the value stored after pixel 16785407, two pixels before the last, is
    1.0. *)
Lemma progress_is_one_before_the_last_pixel :
  let c := initialize Demo.tan (cam 1 4097 3) in
  image_width c = 4097 /\ image_height c = 4097 /\
  total_pixels c = 16785409 /\ int_sized c /\
  Binary32.of_int 16785407 = Binary32.of_int 16785408 /\
  Binary32.of_int (total_pixels c) = Binary32.of_int 16785408 /\
  float_div 16785407 (total_pixels c) = Binary32.one /\
  16785407 < total_pixels c /\
  float_div 16785407 (total_pixels c) = float_div (total_pixels c) (total_pixels c).
Proof.
  cbv zeta. do 3 (split; [vm_compute; reflexivity |]).
  split; [vm_compute; split; discriminate |].
  do 3 (split; [vm_compute; reflexivity |]).
  split; vm_compute; reflexivity.
Qed.

Lemma progress_counts_pixels_witness :
  let E := mk_environment never_stop ticking in
  match render_to_buffer_with_progress Demo.tan E (cam 1 2 3) meadow [] Binary32.zero false 1 with
  | Threw => False
  | Returned c' st =>
      int_sized c' /\
      rev (progress_stores (log st))
      = [float_div 1 4; float_div 2 4; float_div 3 4; float_div 4 4] /\
      rev (progress_stores (log st))
      = [S754_finite false 8388608 (-25); S754_finite false 8388608 (-24);
         S754_finite false 12582912 (-24); S754_finite false 8388608 (-23)] /\
      completed_pixels st = 4 /\ progress st = Binary32.one
  end.
Proof.
  cbv zeta. returned Hrun c' st.
  assert (Hsized : int_sized c') by (subst c'; vm_compute; split; discriminate).
  destruct (progress_counts_pixels Demo.tan _ _ _ _ _ _ _ _ _ Hrun Hsized)
    as (Hstores & _ & _ & _ & Hlast & _).
  assert (Hdone : completed_pixels st = 4) by (subst st; reflexivity).
  split; [exact Hsized |].
  split; [rewrite Hstores; subst c' st; reflexivity |].
  split; [rewrite Hstores; subst c' st; vm_compute; reflexivity |].
  split; [exact Hdone |].
  apply Hlast; [lia |]. rewrite Hdone. subst c'. reflexivity.
Defined.



Example height_of_sixteen_by_nine :
  Num.floor (Num.of_int 400 / (16.0 / 9.0))%float = Some 225 /\
  image_height (initialize Demo.tan (cam (16.0 / 9.0) 400 10)) = 225.
Proof. split; vm_compute; reflexivity. Qed.

Lemma demo_materials_steady : steady_materials (M := surface) (G := Z).
Proof. intros [albedo |] r rec g g'; reflexivity. Qed.

Lemma render_is_deterministic_witness :
  let E1 := mk_environment never_stop ticking in
  let E2 := mk_environment never_stop frozen in
  let c := with_toggles (cam 1 2 1) false true true true in
  (forall n : nat, should_stop E1 n = false) /\
  (forall n : nat, should_stop E2 n = false) /\
  match
    render_to_buffer_with_progress Demo.tan E1 c meadow [] Binary32.zero false 1,
    render_to_buffer_with_progress Demo.tan E2 c meadow [7; 7; 7] Binary32.one true 1
  with
  | Returned c1 st1, Returned c2 st2 =>
      c1 = c2 /\ buffer st1 = buffer st2 /\ rng st1 = rng st2 /\
      buffer st1 = fst (frame (Z.to_nat (total_pixels c1)) c1 meadow 1)
  | Threw, Threw => True
  | _, _ => False
  end /\
  enable_antialiasing c = false /\
  PrimFloat.leb (defocus_angle c) 0 = true /\
  max_depth c <= 1 /\
  match
    render_to_buffer_with_progress Demo.tan E1 c meadow [] Binary32.zero false 1,
    render_to_buffer_with_progress Demo.tan E2 c meadow [7; 7; 7] Binary32.one true 99
  with
  | Returned c1 st1, Returned c2 st2 => c1 = c2 /\ buffer st1 = buffer st2
  | Threw, Threw => True
  | _, _ => False
  end.
Proof.
  cbv zeta.
  pose proof (render_is_deterministic Demo.tan
                (with_toggles (cam 1 2 1) false true true true) meadow 1
                (mk_environment never_stop ticking) (mk_environment never_stop frozen)
                [] [7; 7; 7] Binary32.zero Binary32.one false true
                (fun _ => eq_refl) (fun _ => eq_refl)) as [Hsame Hseedless].
  assert (Hdepth : max_depth (with_toggles (cam 1 2 1) false true true true) <= 1)
    by (cbn; lia).
  split; [reflexivity |]. split; [reflexivity |]. split; [exact Hsame |].
  split; [reflexivity |]. split; [reflexivity |]. split; [exact Hdepth |].
  exact (Hseedless eq_refl eq_refl Hdepth demo_materials_steady 99).
Defined.

Example deterministic_run_buffer :
  match
    render_to_buffer_with_progress Demo.tan (mk_environment never_stop frozen)
      (with_toggles (cam 1 2 1) false true true true) meadow [7; 7; 7] Binary32.one true 1
  with
  | Returned _ st => buffer st = [206; 227; 255; 206; 227; 255; 0; 0; 0; 0; 0; 0]
  | Threw => False
  end.
Proof. vm_compute. reflexivity. Qed.



(** ** Runs of the application and of more of the render *)

Lemma unsampled_pixels_are_black_witness :
  let c := App.cam (App.setup_camera (Studio.panel 2 0 3)) in
  (forall n : nat, should_stop Studio.untouched n = false) /\
  enable_antialiasing c = true /\ samples_per_pixel c <= 0 /\
  match
    render_to_buffer_with_progress Demo.tan Studio.untouched c meadow [7; 7] Binary32.zero false 1
  with
  | Threw => False
  | Returned c' st => buffer st = [0; 0; 0; 0; 0; 0] /\ rng st = 1
  end.
Proof.
  cbv zeta.
  assert (Hnever : forall n : nat, should_stop Studio.untouched n = false)
    by reflexivity.
  assert (Hon : enable_antialiasing (App.cam (App.setup_camera (Studio.panel 2 0 3)))
                = true) by reflexivity.
  assert (Hnone : samples_per_pixel (App.cam (App.setup_camera (Studio.panel 2 0 3))) <= 0)
    by (cbn; lia).
  split; [exact Hnever |]. split; [exact Hon |]. split; [exact Hnone |].
  returned Hrun c' st.
  destruct (unsampled_pixels_are_black Demo.tan _ _ _ _ _ _ _ _ _ Hnever Hon Hnone Hrun)
    as (_ & _ & Hbuffer & Hrng).
  split; [| exact Hrng]. rewrite Hbuffer. subst c'. reflexivity.
Defined.

Lemma zero_depth_renders_black_witness :
  (forall n : nat, should_stop Studio.untouched n = false) /\
  max_depth (cam 1 2 0) <= 0 /\
  match
    render_to_buffer_with_progress Demo.tan Studio.untouched (cam 1 2 0) meadow [] Binary32.zero false 1
  with
  | Threw => False
  | Returned c' st =>
      completed_pixels st = 4 /\ buffer st = [0; 0; 0; 0; 0; 0; 0; 0; 0; 0; 0; 0]
  end.
Proof.
  assert (Hnever : forall n : nat, should_stop Studio.untouched n = false)
    by reflexivity.
  assert (Hdepth : max_depth (cam 1 2 0) <= 0) by (cbn; lia).
  split; [exact Hnever |]. split; [exact Hdepth |].
  returned Hrun c' st.
  destruct (zero_depth_renders_black Demo.tan _ _ _ _ _ _ _ _ _ Hnever Hdepth Hrun)
    as (Hdone & Hbuffer).
  rewrite Hdone, Hbuffer. subst c'. split; reflexivity.
Defined.

Lemma depth_is_irrelevant_without_bounces_witness :
  let c := initialize Demo.tan (with_toggles (cam 1 2 3) true false true true) in
  (enable_shadows c = false
   \/ (enable_reflections c = false /\ enable_refractions c = false)) /\
  0 < 1 /\ 0 < 3 /\
  ray_color c meadow downward 1 1 = ray_color c meadow downward 3 1.
Proof.
  cbv zeta.
  split; [left; reflexivity |]. split; [lia |]. split; [lia |].
  apply depth_is_irrelevant_without_bounces; [left; reflexivity | lia | lia].
Defined.

Lemma render_draws_no_random_number_witness :
  let E := mk_environment (stop_from 9) ticking in
  let c := with_toggles (cam 1 2 3) false false true true in
  enable_antialiasing c = false /\
  PrimFloat.leb (defocus_angle c) 0 = true /\
  enable_shadows c = false /\
  match render_to_buffer_with_progress Demo.tan E c meadow [] Binary32.zero false 1 with
  | Threw => False
  | Returned c' st => rng st = 1
  end.
Proof.
  cbv zeta.
  assert (Hoff : enable_antialiasing (with_toggles (cam 1 2 3) false false true true)
                 = false) by reflexivity.
  assert (Hsharp : PrimFloat.leb
                     (defocus_angle (with_toggles (cam 1 2 3) false false true true)) 0
                   = true) by reflexivity.
  assert (Hflat : enable_shadows (with_toggles (cam 1 2 3) false false true true)
                  = false) by reflexivity.
  split; [exact Hoff |]. split; [exact Hsharp |]. split; [exact Hflat |].
  returned Hrun c' st.
  exact (render_draws_no_random_number Demo.tan _ _ _ _ _ _ _ _ _
           Hoff Hsharp Hflat Hrun).
Defined.

Lemma unwritten_pixels_are_cleared_witness :
  let E := mk_environment (stop_from 9) ticking in
  match
    render_to_buffer_with_progress Demo.tan E (cam 1 2 3) meadow
      [9; 9; 9; 9; 9; 9; 9; 9; 9; 9; 9; 9] Binary32.zero false 1
  with
  | Threw => False
  | Returned c' st =>
      0 <= 1 < image_width c' /\ 0 <= 1 < image_height c' /\
      (forall r_byte g_byte b_byte : Z, ~ In (EvPixel 1 1 r_byte g_byte b_byte) (log st)) /\
      buffer st !! Z.to_nat (3 * (1 * image_width c' + 1)) = Some 0 /\
      buffer st !! Z.to_nat (3 * (1 * image_width c' + 1) + 1) = Some 0 /\
      buffer st !! Z.to_nat (3 * (1 * image_width c' + 1) + 2) = Some 0
  end.
Proof.
  cbv zeta. returned Hrun c' st.
  assert (Hi : 0 <= 1 < image_width c') by (subst c'; cbn; lia).
  assert (Hj : 0 <= 1 < image_height c') by (subst c'; cbn; lia).
  assert (Hunwritten : forall r_byte g_byte b_byte : Z,
             ~ In (EvPixel 1 1 r_byte g_byte b_byte) (log st)).
  { subst st. cbn [log]. intros r_byte g_byte b_byte Hin.
    repeat (destruct Hin as [Hin | Hin]; [discriminate Hin |]). exact Hin. }
  split; [exact Hi |]. split; [exact Hj |]. split; [exact Hunwritten |].
  exact (unwritten_pixels_are_cleared Demo.tan _ _ _ _ _ _ _ _ _ Hrun 1 1 Hi Hj Hunwritten).
Defined.

Lemma updates_are_never_overdue_witness :
  let E := mk_environment (stop_from 9) frozen in
  match render_to_buffer_with_progress Demo.tan E (cam 1 2 3) meadow [] Binary32.zero false 1 with
  | Threw => False
  | Returned c' st =>
      log st = take 3 (log st) ++ drop 3 (log st) /\
      pixels_since_raise (drop 3 (log st)) <= 1
  end.
Proof.
  cbv zeta. returned Hrun c' st.
  assert (Hsplit : log st = take 3 (log st) ++ drop 3 (log st))
    by (symmetry; apply take_drop).
  split; [exact Hsplit |].
  pose proof (updates_are_never_overdue Demo.tan _ _ _ _ _ _ _ _ _ Hrun _ _ Hsplit)
    as Hbound.
  subst c'. exact Hbound.
Defined.

Lemma every_run_requests_an_update_witness :
  let E := mk_environment (stop_from 2) frozen in
  match render_to_buffer_with_progress Demo.tan E (cam 1 2 3) meadow [] Binary32.zero false 1 with
  | Threw => False
  | Returned c' st =>
      should_stop E 0 = false /\
      In (EvRaise (RowEnd 0)) (log st) /\ texture_needs_update st = true /\
      completed_pixels st = 0
  end.
Proof.
  cbv zeta. returned Hrun c' st.
  destruct (every_run_requests_an_update Demo.tan _ _ _ _ _ _ _ _ _ Hrun)
    as (_ & Hclear & _).
  destruct (Hclear eq_refl) as [Hraise Hflag].
  split; [reflexivity |]. split; [exact Hraise |]. split; [exact Hflag |].
  subst st. reflexivity.
Defined.

Lemma cancellation_is_prompt_witness :
  let E := mk_environment (stop_from 2) ticking in
  match render_to_buffer_with_progress Demo.tan E (cam 1 2 3) meadow [] Binary32.zero false 1 with
  | Threw => False
  | Returned c' st =>
      set_once E /\
      log st = take 4 (log st) ++ EvPoll (AtSample 0 0 0) true :: drop 5 (log st) /\
      live (drop 5 (log st)) /\
      take 4 (log st)
      = [EvPoll AtExit true; EvPoll (AtRow 1) true; EvRaise (RowEnd 0);
         EvPoll (AfterSamples 0 0) true] /\
      Forall winding_down (take 4 (log st)) /\
      (polls (take 4 (log st)) <= 3)%nat /\ (length (take 4 (log st)) <= 4)%nat
  end.
Proof.
  cbv zeta. returned Hrun c' st.
  pose proof (stop_from_set_once 2 ticking) as Honce.
  assert (Hsplit : log st
                   = take 4 (log st) ++ EvPoll (AtSample 0 0 0) true :: drop 5 (log st))
    by (subst st; reflexivity).
  assert (Hlive : live (drop 5 (log st))).
  { subst st. cbn [log drop]. intros site Hin.
    repeat (destruct Hin as [Hin | Hin]; [discriminate Hin |]). exact Hin. }
  split; [exact Honce |]. split; [exact Hsplit |]. split; [exact Hlive |].
  split; [subst st; reflexivity |].
  exact (cancellation_is_prompt Demo.tan _ _ _ _ _ _ _ _ _ Honce Hrun _ _ _ Hsplit Hlive).
Defined.

Lemma worker_ends_cleanly_witness :
  let a := App.setup_camera (Studio.panel 4 1 2) in
  let ended := fst (App.render_thread_body Demo.tan meadow Studio.untouched 1 a) in
  int_sized (initialize Demo.tan (App.cam a)) /\
  0 <= image_width (App.cam a) /\ in_step Demo.tan a /\
  App.is_rendering ended = false /\
  App.sized ended /\ in_step Demo.tan ended /\
  length (App.image_buffer ended) = 24%nat.
Proof.
  cbv zeta.
  assert (Hsized : int_sized (initialize Demo.tan
                                (App.cam (App.setup_camera (Studio.panel 4 1 2)))))
    by (vm_compute; split; discriminate).
  assert (Hwidth : 0 <= image_width (App.cam (App.setup_camera (Studio.panel 4 1 2))))
    by (cbn; lia).
  assert (Hstep : in_step Demo.tan (App.setup_camera (Studio.panel 4 1 2)))
    by (split; vm_compute; reflexivity).
  destruct (worker_ends_cleanly Demo.tan meadow Studio.untouched 1
              (App.setup_camera (Studio.panel 4 1 2)) Hsized)
    as (Hidle & _ & _ & Hkeeps).
  destruct (Hkeeps Hwidth Hstep) as [Hbuffer Hagree].
  split; [exact Hsized |]. split; [exact Hwidth |]. split; [exact Hstep |].
  split; [exact Hidle |]. split; [exact Hbuffer |]. split; [exact Hagree |].
  destruct Hbuffer as (_ & _ & Hlength). rewrite Hlength. vm_compute. reflexivity.
Defined.

Lemma uncancelled_worker_completes_witness :
  let a := App.setup_camera (Studio.panel 4 1 2) in
  set_once Studio.untouched /\
  match
    render_to_buffer_with_progress Demo.tan Studio.untouched (App.cam a) meadow
      (App.image_buffer a) (App.render_progress a) (App.texture_needs_update a) 1
  with
  | Threw => False
  | Returned c' st =>
      should_stop Studio.untouched (loads st) = false /\
      App.render_progress (fst (App.render_thread_body Demo.tan meadow Studio.untouched 1 a))
      = Binary32.one /\
      App.texture_needs_update
        (fst (App.render_thread_body Demo.tan meadow Studio.untouched 1 a)) = true /\
      completed_pixels st = 8
  end.
Proof.
  cbv zeta.
  assert (Honce : set_once Studio.untouched) by (intros m k _ Hm; discriminate Hm).
  split; [exact Honce |].
  returned Hrun c' st.
  destruct (uncancelled_worker_completes Demo.tan meadow Studio.untouched 1
              (App.setup_camera (Studio.panel 4 1 2)) c' st Honce Hrun eq_refl)
    as (Hprogress & Hflag & _ & Hdone & _).
  split; [reflexivity |]. split; [exact Hprogress |]. split; [exact Hflag |].
  rewrite Hdone. subst c'. reflexivity.
Defined.

Lemma export_reads_back_witness :
  let a :=
    App.set_image_buffer [255; 0; 0; 0; 128; 255; 7]
      (App.set_current_image 2 1 (Studio.panel 2 1 2)) in
  App.image_buffer a <> [] /\
  0 <= App.current_image_width a /\ 0 <= App.current_image_height a /\
  (Z.to_nat (App.current_image_width a * App.current_image_height a * 3)
   <= length (App.image_buffer a))%nat /\
  exists content : String.string,
    App.export_ppm true a = App.Written content /\
    Text.read_ppm content = Some (2, 1, 255, [255; 0; 0; 0; 128; 255]).
Proof.
  cbv zeta.
  split; [discriminate |]. split; [cbn; lia |]. split; [cbn; lia |].
  split; [cbn; lia |].
  apply (export_reads_back
           (App.set_image_buffer [255; 0; 0; 0; 128; 255; 7]
              (App.set_current_image 2 1 (Studio.panel 2 1 2))));
    [discriminate | cbn; lia | cbn; lia | cbn; lia].
Defined.

Lemma finished_render_is_displayed_witness :
  let a := Studio.panel 4 1 2 in
  (forall n : nat, should_stop Studio.untouched n = false) /\
  App.is_rendering a = false /\
  0 < App.image_width a /\
  App.int_sized (App.setup_camera a) /\
  match App.start_render a with
  | None => False
  | Some a' =>
      let done := fst (App.render_thread_body Demo.tan meadow Studio.untouched 1 a') in
      length (App.image_buffer done) = 24%nat /\
      App.texture_needs_update done = true /\
      App.texture (App.update_texture done) = App.image_buffer done /\
      App.texture_needs_update (App.update_texture done) = false
  end.
Proof.
  cbv zeta.
  assert (Hnever : forall n : nat, should_stop Studio.untouched n = false)
    by reflexivity.
  assert (Hidle : App.is_rendering (Studio.panel 4 1 2) = false) by reflexivity.
  assert (Hwidth : 0 < App.image_width (Studio.panel 4 1 2)) by (cbn; lia).
  assert (Hfits : App.int_sized (App.setup_camera (Studio.panel 4 1 2)))
    by (vm_compute; split; discriminate).
  split; [exact Hnever |]. split; [exact Hidle |]. split; [exact Hwidth |].
  split; [exact Hfits |].
  destruct (App.start_render (Studio.panel 4 1 2)) as [a' |] eqn:Hstart;
    [| vm_compute in Hstart; discriminate].
  destruct (finished_render_is_displayed Demo.tan meadow Studio.untouched 1 _ a'
              Hnever Hidle Hwidth Hfits Hstart)
    as (Hbuffer & _ & _ & Hflag & Hshown & Hcleared & _).
  rewrite Hshown, Hbuffer.
  split; [| split; [exact Hflag | split; [reflexivity | exact Hcleared]]].
  rewrite frame_length.
  vm_compute in Hstart. injection Hstart as <-. reflexivity.
Defined.

Lemma estimated_height_is_exact_witness :
  let a := Studio.panel 400 10 10 in
  100 <= App.image_width a <= 1600 /\
  App.estimated_height a = 225 /\
  App.current_image_height (App.setup_camera a) = 225.
Proof.
  cbv zeta.
  assert (Hrange : 100 <= App.image_width (Studio.panel 400 10 10) <= 1600)
    by (cbn; lia).
  split; [exact Hrange |].
  exact (estimated_height_is_exact (Studio.panel 400 10 10) Hrange).
Defined.

(** The worker of a 4 x 2 render and two calls of [update_texture], side by
    side.  The first call tests the flag after the first pixel; the worker
    writes the second pixel before the call takes the mutex and uploads, and
    raises the flag for it before the call clears the flag: that raise is
    cleared with the first one, and the display has the second pixel all
    the same.  The second call comes when the worker has ended. *)
Lemma no_update_is_lost_witness :
  let a0 := App.setup_camera (Studio.panel 4 1 2) in
  let schedule :=
    replicate 11 Threads.Work ++ [Threads.Probe] ++
    replicate 5 Threads.Work ++ [Threads.Upload] ++
    replicate 3 Threads.Work ++ [Threads.Release] ++
    replicate 53 Threads.Work ++ [Threads.Probe; Threads.Upload; Threads.Release] in
  (forall n : nat, should_stop Studio.untouched n = false) /\
  match
    render_to_buffer_with_progress Demo.tan Studio.untouched (App.cam a0) meadow
      (App.image_buffer a0) (App.render_progress a0) (App.texture_needs_update a0) 1
  with
  | Threw => False
  | Returned c' st =>
      let acts :=
        Threads.worker_actions (Z.to_nat (image_width c' * image_height c' * 3)) (log st) in
      match Threads.play (image_width c') schedule (acts, Threads.Idle, a0) with
      | None => False
      | Some (rest, ph, a) =>
          rest = [] /\ ph = Threads.Idle /\
          Threads.runs (image_width c') (acts, Threads.Idle, a0) ([], Threads.Idle, a) /\
          App.image_buffer a = fst (frame (Z.to_nat (total_pixels c')) c' meadow 1) /\
          (App.texture a = App.image_buffer a \/ App.texture_needs_update a = true) /\
          App.texture a = App.image_buffer a /\ App.texture_needs_update a = false
      end
  end.
Proof.
  cbv zeta.
  assert (Hnever : forall n : nat, should_stop Studio.untouched n = false)
    by reflexivity.
  split; [exact Hnever |].
  destruct (render_to_buffer_with_progress Demo.tan Studio.untouched
              (App.cam (App.setup_camera (Studio.panel 4 1 2))) meadow
              (App.image_buffer (App.setup_camera (Studio.panel 4 1 2)))
              (App.render_progress (App.setup_camera (Studio.panel 4 1 2)))
              (App.texture_needs_update (App.setup_camera (Studio.panel 4 1 2))) 1)
    as [| c' st] eqn:Hrun; [vm_compute in Hrun; discriminate |].
  match goal with
  | |- match ?played with _ => _ end =>
      destruct played as [[[rest ph] a] |] eqn:Hplay
  end.
  - assert (Hend : rest = [] /\ ph = Threads.Idle
                   /\ App.texture a = App.image_buffer a
                   /\ App.texture_needs_update a = false).
    { pose proof Hrun as Hval. vm_compute in Hval. injection Hval as Hc Hst.
      rewrite <- Hc, <- Hst in Hplay. vm_compute in Hplay.
      injection Hplay as <- <- <-. now repeat split. }
    destruct Hend as (-> & -> & Hshows & Hcleared).
    apply play_runs in Hplay.
    destruct (no_update_is_lost Demo.tan meadow Studio.untouched 1 _ _ c' st
                Hnever Hrun Hplay) as (Himage & Hshown & _).
    split; [reflexivity |]. split; [reflexivity |]. split; [exact Hplay |].
    split; [exact Himage |]. split; [exact Hshown |].
    split; [exact Hshows | exact Hcleared].
  - pose proof Hrun as Hval. vm_compute in Hval. injection Hval as Hc Hst.
    rewrite <- Hc, <- Hst in Hplay. vm_compute in Hplay. discriminate.
Defined.

End Runs.
